(** * GTFS ingestion and realtime matching: a shallow embedding

    The development follows three commands of the repository:
    - [bustimes/management/commands/import_gtfs_worldwide.py]
      (static timetable ingestion and the route-link extractor),
    - [vehicles/management/commands/import_gtfsr_worldwide.py] and
    - [vehicles/management/commands/import_gtfsr_translink_qld.py]
      (realtime vehicle positions).

    Database tables are lists of records in the order the store returns
    them, Python dictionaries are finite maps (or association lists where
    the insertion order is read back), exceptions are an explicit result
    type and the store is threaded through a small state monad. *)

From Stdlib Require Import ZArith QArith Ascii String List Sorting.Permutation Sorting.Sorted.
From stdpp Require Import base option list gmap strings fin_maps.

Local Open Scope string_scope.
Local Open Scope list_scope.
Local Open Scope Z_scope.

(** ** Python values and strings *)

Module Py.

(** Exceptions raised by the modelled code. *)
Inductive exn : Type :=
  | KeyError
  | TypeError
  | AttributeError
  | ValueError
  | IndexError
  | MultipleObjectsReturned.

Inductive result (A : Type) : Type :=
  | Ok (a : A)
  | Raise (e : exn).
Arguments Ok {A} a.
Arguments Raise {A} e.

(** A text cell of a pandas table read with dtype [str]: a string, or the
    float [nan] when the cell is empty. *)
Inductive cell : Type :=
  | CStr (s : string)
  | CNaN.

(** The values compared by [!=] in the stop-time loop. *)
Inductive value : Type :=
  | VStr (s : string)
  | VInt (z : Z)
  | VNaN.

Definition of_cell (c : cell) : value :=
  match c with CStr s => VStr s | CNaN => VNaN end.

(** [a != b]: values of different types are never equal, and [nan] is not
    equal to anything. *)
Definition ne (a b : value) : bool :=
  match a, b with
  | VStr x, VStr y => negb (String.eqb x y)
  | VInt x, VInt y => negb (Z.eqb x y)
  | _, _ => true
  end.

(** [x if type(x) is str else ""] *)
Definition str_or_empty (c : cell) : string :=
  match c with CStr s => s | CNaN => "" end.

(** Truth value of a string. *)
Definition truthy (s : string) : bool :=
  match s with EmptyString => false | _ => true end.

(** [s.split(sep)] for a non-empty separator: left to right, occurrences do
    not overlap.  [skip] counts the characters of a separator still to be
    dropped; [cur] is the piece being read. *)
Fixpoint split_go (sep s : string) (skip : nat) (cur : string) : list string :=
  match s with
  | EmptyString => [cur]
  | String c s' =>
      match skip with
      | S k => split_go sep s' k cur
      | O =>
          if String.prefix sep s
          then cur :: split_go sep s' (Nat.pred (String.length sep)) ""
          else split_go sep s' O (cur +:+ String c "")
      end
  end.

Definition split (sep s : string) : list string := split_go sep s O "".

(** [s.count(sep)] *)
Definition count (sep s : string) : nat := Nat.pred (List.length (split sep s)).

(** [sep in s] *)
Definition contains (sep s : string) : bool := negb (Nat.eqb (count sep s) 0).

(** [s[:n]] *)
Fixpoint take (n : nat) (s : string) : string :=
  match n, s with
  | S k, String c s' => String c (take k s')
  | _, _ => ""
  end.

(** [s.split(sep, 1)[1]] when [sep] occurs in [s]. *)
Fixpoint after_first (sep s : string) : option string :=
  match s with
  | EmptyString => None
  | String _ s' =>
      if String.prefix sep s
      then Some (String.substring (String.length sep)
                   (String.length s - String.length sep) s)
      else after_first sep s'
  end.

(** [s.endswith(suf)] *)
Definition endswith (suf s : string) : bool :=
  let n := String.length s in
  let k := String.length suf in
  (k <=? n)%nat && String.eqb (String.substring (n - k) k s) suf.

Definition upper_ascii (c : ascii) : ascii :=
  let n := nat_of_ascii c in
  if ((97 <=? n) && (n <=? 122))%nat then ascii_of_nat (n - 32) else c.

(** [UPPER(s)], the folding used by an [iexact] lookup (ASCII letters). *)
Fixpoint upper (s : string) : string :=
  match s with
  | EmptyString => EmptyString
  | String c s' => String (upper_ascii c) (upper s')
  end.

Definition iexact (a b : string) : bool := String.eqb (upper a) (upper b).

Definition is_digit (c : ascii) : bool :=
  let n := nat_of_ascii c in ((48 <=? n) && (n <=? 57))%nat.

Definition digit_val (c : ascii) : Z := Z.of_nat (nat_of_ascii c) - 48.

Fixpoint all_digits (s : string) : bool :=
  match s with
  | EmptyString => true
  | String c s' => is_digit c && all_digits s'
  end.

(** [s.isdigit()] *)
Definition isdigit (s : string) : bool := truthy s && all_digits s.

Fixpoint digits_go (s : string) (acc : Z) : Z :=
  match s with
  | EmptyString => acc
  | String c s' => digits_go s' (10 * acc + digit_val c)
  end.

(** A non-empty run of decimal digits read as a number. *)
Definition number (s : string) : option Z :=
  if isdigit s then Some (digits_go s 0) else None.

(** [django.utils.dateparse.parse_duration] on the clock forms of a GTFS
    time, [S], [M:S] and [H:M:S] with unsigned decimal fields.  The result
    is the duration in whole seconds; [None] stands for Python's [None]
    (no match).  The day, sign, fraction and ISO 8601 forms that the
    library also reads do not occur in GTFS times and are not covered. *)
Definition parse_duration (s : string) : option Z :=
  match split ":" s with
  | [sec] => number sec
  | [m; sec] =>
      m' ← number m; s' ← number sec; Some (60 * m' + s')
  | [h; m; sec] =>
      h' ← number h; m' ← number m; s' ← number sec;
      Some (3600 * h' + 60 * m' + s')
  | _ => None
  end.

(** [int(parse_duration(x).total_seconds())] for a table cell [x]:
    [parse_duration] raises [TypeError] on a float, and [None] has no
    [total_seconds]. *)
Definition duration_seconds (c : cell) : result Z :=
  match c with
  | CNaN => Raise TypeError
  | CStr s =>
      match parse_duration s with
      | Some n => Ok n
      | None => Raise AttributeError
      end
  end.

Definition lower_ascii (c : ascii) : ascii :=
  let n := nat_of_ascii c in
  if ((65 <=? n) && (n <=? 90))%nat then ascii_of_nat (n + 32) else c.

(** [s.lower()] (ASCII letters). *)
Fixpoint lower (s : string) : string :=
  match s with
  | EmptyString => EmptyString
  | String c s' => String (lower_ascii c) (lower s')
  end.

Definition is_space (c : ascii) : bool :=
  let n := nat_of_ascii c in ((9 <=? n) && (n <=? 13))%nat || (n =? 32)%nat.

Fixpoint lstrip (s : string) : string :=
  match s with
  | String c s' => if is_space c then lstrip s' else s
  | EmptyString => EmptyString
  end.

Fixpoint rstrip (s : string) : string :=
  match s with
  | EmptyString => EmptyString
  | String c s' =>
      match rstrip s' with
      | EmptyString => if is_space c then EmptyString else String c EmptyString
      | r => String c r
      end
  end.

(** [s.strip()] (ASCII white space). *)
Definition strip (s : string) : string := rstrip (lstrip s).

Fixpoint until_space (s : string) : string :=
  match s with
  | EmptyString => EmptyString
  | String c s' => if is_space c then EmptyString else String c (until_space s')
  end.

(** [s.split()[0]]: the first word, [IndexError] when there is none. *)
Definition first_word (s : string) : result string :=
  match lstrip s with
  | EmptyString => Raise IndexError
  | w => Ok (until_space w)
  end.

End Py.

Import Py.

(** ** The persistent model (busstops and bustimes tables) *)

(** A point of the map.  Coordinates are kept in fixed-point units; the
    ingestion only compares points and hands them to the geometry
    library. *)
Record Point : Type := { lon : Z; lat : Z }.

Record Operator : Type := {
  op_noc : string;                 (* primary key *)
  op_name : string;
  op_url : option string;
  op_region : option string }.

Record Service : Type := {
  sv_id : Z;
  sv_service_code : string;
  sv_line_name : string;
  sv_description : string;
  sv_mode : string;
  sv_current : bool;
  sv_source : option Z;
  sv_operators : list string }.    (* the many-to-many [operator] set *)

Record Route : Type := {
  rt_id : Z;
  rt_source : Z;
  rt_code : string;
  rt_line_name : string;
  rt_description : string;
  rt_service : option Z }.

Record Trip : Type := {
  tr_id : Z;
  tr_route : Z;
  tr_calendar : Z;
  tr_inbound : bool;
  tr_headsign : string;
  tr_ticket_machine_code : string;
  tr_block : string;
  tr_vehicle_journey_code : string;
  tr_operator : option string;
  tr_start : option cell;
  tr_end : option cell;
  tr_destination : option string }.

Record StopTime : Type := {
  stm_stop_id : string;
  stm_arrival : option Z;
  stm_departure : Z;
  stm_sequence : Z;
  stm_trip : Z;
  stm_timing_status : string;
  stm_pick_up : bool;
  stm_set_down : bool;
  stm_stop_code : string }.

Record StopPoint : Type := {
  sp_atco_code : string;           (* primary key *)
  sp_common_name : string;
  sp_indicator : string;
  sp_latlong : option Point;
  sp_locality_centre : bool;
  sp_active : bool;
  sp_source : option Z;
  sp_admin_area : option string }.

Record AdminArea : Type := { aa_id : string; aa_region : string }.

Record RouteLink : Type := {
  rl_id : option Z;
  rl_service : option Z;
  rl_from_stop : string;
  rl_to_stop : string;
  rl_geometry : string }.

#[global] Instance Point_eq_dec : EqDecision Point.
Proof. solve_decision. Defined.
#[global] Instance cell_eq_dec : EqDecision cell.
Proof. solve_decision. Defined.
#[global] Instance StopPoint_eq_dec : EqDecision StopPoint.
Proof. solve_decision. Defined.

(** The store.  Every table is listed in the order the database returns
    its rows; [next_id] is the sequence that numbers new rows (one
    sequence stands for the per-table ones: only freshness and the order
    of creation are observed). *)
Record Store : Type := {
  operators : list Operator;
  services : list Service;
  routes : list Route;
  trips : list Trip;
  stop_times : list StopTime;
  stop_points : gmap string StopPoint;
  admin_areas : list AdminArea;
  route_links : list RouteLink;
  next_id : Z }.

Definition with_operators (f : list Operator → list Operator) (s : Store) : Store :=
  {| operators := f (operators s); services := services s; routes := routes s;
     trips := trips s; stop_times := stop_times s; stop_points := stop_points s;
     admin_areas := admin_areas s; route_links := route_links s; next_id := next_id s |}.

Definition with_services (f : list Service → list Service) (s : Store) : Store :=
  {| operators := operators s; services := f (services s); routes := routes s;
     trips := trips s; stop_times := stop_times s; stop_points := stop_points s;
     admin_areas := admin_areas s; route_links := route_links s; next_id := next_id s |}.

Definition with_routes (f : list Route → list Route) (s : Store) : Store :=
  {| operators := operators s; services := services s; routes := f (routes s);
     trips := trips s; stop_times := stop_times s; stop_points := stop_points s;
     admin_areas := admin_areas s; route_links := route_links s; next_id := next_id s |}.

Definition with_trips (f : list Trip → list Trip) (s : Store) : Store :=
  {| operators := operators s; services := services s; routes := routes s;
     trips := f (trips s); stop_times := stop_times s; stop_points := stop_points s;
     admin_areas := admin_areas s; route_links := route_links s; next_id := next_id s |}.

Definition with_stop_times (f : list StopTime → list StopTime) (s : Store) : Store :=
  {| operators := operators s; services := services s; routes := routes s;
     trips := trips s; stop_times := f (stop_times s); stop_points := stop_points s;
     admin_areas := admin_areas s; route_links := route_links s; next_id := next_id s |}.

Definition with_stop_points (f : gmap string StopPoint → gmap string StopPoint)
    (s : Store) : Store :=
  {| operators := operators s; services := services s; routes := routes s;
     trips := trips s; stop_times := stop_times s; stop_points := f (stop_points s);
     admin_areas := admin_areas s; route_links := route_links s; next_id := next_id s |}.

Definition with_route_links (f : list RouteLink → list RouteLink) (s : Store) : Store :=
  {| operators := operators s; services := services s; routes := routes s;
     trips := trips s; stop_times := stop_times s; stop_points := stop_points s;
     admin_areas := admin_areas s; route_links := f (route_links s); next_id := next_id s |}.

Definition with_next_id (n : Z) (s : Store) : Store :=
  {| operators := operators s; services := services s; routes := routes s;
     trips := trips s; stop_times := stop_times s; stop_points := stop_points s;
     admin_areas := admin_areas s; route_links := route_links s; next_id := n |}.

(** ** Store computations: state passing with exceptions

    A computation receives the store and returns the store it leaves
    behind together with its value or the exception it raised.  The
    commands run in autocommit mode: a write is in the store as soon as
    its statement has run, also when a later statement raises. *)

Definition M (A : Type) : Type := Store → Store * result A.

Definition ret {A} (a : A) : M A := λ s, (s, Ok a).
Definition raise {A} (e : exn) : M A := λ s, (s, Raise e).
Definition bind {A B} (m : M A) (k : A → M B) : M B :=
  λ s, match m s with
       | (s', Ok a) => k a s'
       | (s', Raise e) => (s', Raise e)
       end.
Definition query {A} (f : Store → A) : M A := λ s, (s, Ok (f s)).
Definition write (f : Store → Store) : M unit := λ s, (f s, Ok tt).
Definition lift {A} (r : result A) : M A := λ s, (s, r).

(** Take the next value of the id sequence. *)
Definition fresh_id : M Z := λ s, (with_next_id (next_id s + 1) s, Ok (next_id s)).

Notation "'let!' x ':=' m 'in' k" := (bind m (λ x, k))
  (at level 10, x pattern, m at level 100, k at level 200).
Notation "'do!' m 'in' k" := (bind m (λ _, k))
  (at level 10, m at level 100, k at level 200).

(** [for x in xs: acc = body(x, acc)] *)
Fixpoint for_each {A S} (body : A → S → M S) (xs : list A) (acc : S) : M S :=
  match xs with
  | [] => ret acc
  | x :: xs' => bind (body x acc) (for_each body xs')
  end.

(** ** Static ingestion: [import_gtfs_worldwide.Command] *)

(** *** The feed, as [gtfs_kit.read_feed] hands it over

    A column that a feed may leave out is an [option]: [None] is what
    [getattr(line, name, None)] gives for a missing column. *)

Record AgencyRow : Type := {
  agency_id : option cell;
  agency_name : string;
  agency_url : option string }.

Record RouteRow : Type := {
  route_id : string;
  route_short_name : cell;
  route_long_name : cell;
  route_type : Z;
  route_agency_id : option cell }.

Record StopRow : Type := {
  stop_id : string;
  stop_name : string;
  stop_lon : Z;
  stop_lat : Z }.

Record TripRow : Type := {
  trip_route_id : string;
  trip_service_id : string;
  trip_id : string;
  direction_id : option Z;
  trip_headsign : string;
  block_id : option cell;
  trip_short_name : string;
  shape_id : option string }.

Record StopTimeRow : Type := {
  st_trip_id : string;
  st_arrival_time : cell;
  st_departure_time : cell;
  st_stop_id : string;
  st_stop_sequence : Z;
  st_timepoint : option Z;
  st_pickup_type : option Z;
  st_drop_off_type : option Z }.

(** A shape is the polyline of its points; [feed_shapes] is [None] for a
    feed without shapes. *)
Record Feed : Type := {
  feed_agency : option (list AgencyRow);
  feed_routes : list RouteRow;
  feed_stops : list StopRow;
  feed_trips : list TripRow;
  feed_stop_times : list StopTimeRow;
  feed_shapes : option (gmap string (list Point)) }.

(** The attributes that [handle] sets on the command from
    [DataSource.settings["gtfs"]]. *)
Record Config : Type := {
  source_id : Z;
  source_name : string;
  agency_prefix : string;
  stop_prefix : string;
  operator_noc : string;
  default_operator : string;
  operator_matching : string;
  region_handling : string;
  skip_route_links : bool;
  handle_agencies : bool;
  handle_shapes : bool }.

(** Lines 81-84 of [handle]: an unset stop prefix is derived from the
    source name. *)
Definition effective_stop_prefix (configured name : string) : string :=
  if truthy configured then configured else lower name +:+ "-".

(** What the ingestion takes from modules that are not part of the
    command: the [MODES] table of [gtfs_utils] and the calendars that
    [get_calendars] returns for the feed (service id to calendar key). *)
Record Collaborators : Type := {
  MODES : gmap Z string;
  calendars : gmap string Z }.

(** An insertion-ordered dictionary: [d[k] = v] keeps the place of a key
    that is already there. *)
Fixpoint dict_set {K V} `{EqDecision K} (k : K) (v : V) (d : list (K * V)) : list (K * V) :=
  match d with
  | [] => [(k, v)]
  | (k', v') :: d' => if decide (k' = k) then (k, v) :: d' else (k', v') :: dict_set k v d'
  end.

Fixpoint dict_get {K V} `{EqDecision K} (k : K) (d : list (K * V)) : option V :=
  match d with
  | [] => None
  | (k', v') :: d' => if decide (k' = k) then Some v' else dict_get k d'
  end.

(** The dictionaries that [handle_zipfile] keeps on the command during a
    run. *)
Record Run : Type := {
  run_operators : list (cell * Operator);
  run_routes : gmap string Route;
  run_route_operators : gmap string (option Operator);
  run_services : gmap Z Service }.

Definition empty_run : Run :=
  {| run_operators := []; run_routes := ∅; run_route_operators := ∅; run_services := ∅ |}.

(** *** [handle_operator] *)

Definition operator_query (cfg : Config) (noc name : string) (url : option string)
    (o : Operator) : bool :=
  if String.eqb (operator_matching cfg) "noc" then String.eqb (op_noc o) noc
  else if String.eqb (operator_matching cfg) "name" then iexact (op_name o) name
  else if String.eqb (operator_matching cfg) "url" && from_option truthy false url
       then bool_decide (op_url o = url)
  else true.

(** [Operator(...).save()] with the primary key set: the row with that
    [noc] is replaced, or a new row is added. *)
Fixpoint save_operator (o : Operator) (os : list Operator) : list Operator :=
  match os with
  | [] => [o]
  | o' :: os' =>
      if String.eqb (op_noc o') (op_noc o) then o :: os' else o' :: save_operator o os'
  end.

Definition set_operator_url (noc : string) (url : option string) (os : list Operator)
    : list Operator :=
  map (λ o, if String.eqb (op_noc o) noc
            then {| op_noc := op_noc o; op_name := op_name o; op_url := url;
                    op_region := op_region o |}
            else o) os.

Definition handle_operator (cfg : Config) (line : AgencyRow) : M Operator :=
  let! agency :=
    lift match agency_id line with
         | Some (CStr s) => Ok s
         | _ =>
             if truthy (operator_noc cfg) then Ok (operator_noc cfg)
             else if truthy (agency_name line)
                  then match first_word (agency_name line) with
                       | Ok w => Ok (take 10 w)
                       | Raise e => Raise e
                       end
                  else match first_word (source_name cfg) with
                       | Ok w => Ok (take 10 w)
                       | Raise e => Raise e
                       end
         end in
  let agency :=
    if truthy (agency_prefix cfg) then agency_prefix cfg +:+ agency else agency in
  let name := agency_name line in
  let! found :=
    query (λ s, head (filter (λ o, operator_query cfg agency name (agency_url line) o = true)
                        (operators s))) in
  match found with
  | None =>
      let o := {| op_noc := agency; op_name := name; op_url := agency_url line;
                  op_region := None |} in
      do! write (with_operators (save_operator o)) in
      ret o
  | Some o =>
      if bool_decide (op_url o ≠ agency_url line)
      then
        do! write (with_operators (set_operator_url (op_noc o) (agency_url line))) in
        ret {| op_noc := op_noc o; op_name := op_name o; op_url := agency_url line;
               op_region := op_region o |}
      else ret o
  end.

(** *** [do_stops] *)

(** The candidate record built for one row of [stops.txt] (lines 162-179). *)
Definition candidate_stop (cfg : Config) (line : StopRow) : StopPoint :=
  let code :=
    if truthy (stop_prefix cfg) then stop_prefix cfg +:+ stop_id line else stop_id line in
  let name := stop_name line in
  let '(name, indicator) :=
    if contains ", stop" name && Nat.eqb (count ", " name) 1
    then match split ", " name with
         | [n; i] => (n, i)
         | _ => (name, "")
         end
    else (name, "") in
  {| sp_atco_code := code;
     sp_common_name := take 48 name;
     sp_indicator := indicator;
     sp_latlong := Some {| lon := stop_lon line; lat := stop_lat line |};
     sp_locality_centre := false;
     sp_active := true;
     sp_source := Some (source_id cfg);
     sp_admin_area := None |}.

(** The dictionary [stops]: a later row with the same code replaces an
    earlier one. *)
Definition candidate_stops (cfg : Config) (rows : list StopRow) : gmap string StopPoint :=
  foldl (λ m line, let c := candidate_stop cfg line in <[sp_atco_code c := c]> m) ∅ rows.

(** The condition of the [stops_to_update] comprehension for a candidate
    whose code is that of the existing row [e]. *)
Definition needs_update (cfg : Config) (e c : StopPoint) : bool :=
  (bool_decide (sp_source e = Some (source_id cfg)) || bool_decide (sp_source e = None))
  && (bool_decide (sp_latlong e ≠ sp_latlong c)
      || bool_decide (sp_common_name e ≠ sp_common_name c)).

(** [bulk_update(..., ["common_name", "latlong", "indicator", "source"])]
    on one row: the four named columns are taken from the candidate. *)
Definition updated_stop (e c : StopPoint) : StopPoint :=
  {| sp_atco_code := sp_atco_code e;
     sp_common_name := sp_common_name c;
     sp_indicator := sp_indicator c;
     sp_latlong := sp_latlong c;
     sp_locality_centre := sp_locality_centre e;
     sp_active := sp_active e;
     sp_source := sp_source c;
     sp_admin_area := sp_admin_area e |}.

(** Admin area of a stop that is about to be created (lines 208-230). *)
Definition assign_admin_area (cfg : Config) (areas : list AdminArea) (c : StopPoint)
    : StopPoint :=
  let with_area (a : option string) :=
    {| sp_atco_code := sp_atco_code c; sp_common_name := sp_common_name c;
       sp_indicator := sp_indicator c; sp_latlong := sp_latlong c;
       sp_locality_centre := sp_locality_centre c; sp_active := sp_active c;
       sp_source := sp_source c; sp_admin_area := a |} in
  if String.eqb (region_handling cfg) "skip" then c
  else
    let prefix := take 3 (sp_atco_code c) in
    if isdigit prefix
    then if existsb (λ a, String.eqb (aa_id a) prefix) areas
         then with_area (Some prefix) else c
    else if truthy (region_handling cfg) && negb (String.eqb (region_handling cfg) "auto")
         then match find (λ a, String.eqb (aa_region a) (region_handling cfg)) areas with
              | Some a => with_area (Some (aa_id a))
              | None => c
              end
         else c.

(** What the run does to the row stored under one code: [e] is the
    existing row, [c] the candidate of the feed. *)
Definition reconcile_stop (cfg : Config) (areas : list AdminArea)
    (e c : option StopPoint) : option StopPoint :=
  match e, c with
  | Some e, Some c => if needs_update cfg e c then Some (updated_stop e c) else Some e
  | None, Some c => Some (assign_admin_area cfg areas c)
  | e, None => e
  end.

(** [in_bulk(stops)]: the stored rows whose key is a key of [stops]. *)
Definition in_bulk (stops table : gmap string StopPoint) : gmap string StopPoint :=
  merge (λ e c, match c with Some _ => e | None => None end) table stops.

Definition do_stops (cfg : Config) (feed : Feed) : M (gmap string StopPoint) :=
  let stops := candidate_stops cfg (feed_stops feed) in
  do! write (λ s,
        with_stop_points (λ table, merge (reconcile_stop cfg (admin_areas s)) table stops) s) in
  query (λ s, in_bulk stops (stop_points s)).

(** *** [handle_route] *)

(** Truth value of the agency reference of a route row: [None] and the
    empty string are false, [nan] is true. *)
Definition agency_truthy (a : option cell) : bool :=
  match a with
  | None => false
  | Some (CStr s) => truthy s
  | Some CNaN => true
  end.

(** Lines 252-270: the operator a route row refers to. *)
Definition route_operator (cfg : Config) (run : Run) (line : RouteRow) : option Operator :=
  let agency := match route_agency_id line with Some CNaN => None | a => a end in
  let agency :=
    match agency with
    | Some (CStr s) =>
        if truthy (agency_prefix cfg) && truthy s
        then Some (CStr (agency_prefix cfg +:+ s)) else agency
    | _ => agency
    end in
  let agency :=
    if agency_truthy agency then agency
    else match run_operators run with
         | [(k, _)] => Some k
         | _ => if truthy (default_operator cfg)
                then Some (CStr (default_operator cfg)) else agency
         end in
  match agency with
  | Some k => if agency_truthy agency then dict_get k (run_operators run) else None
  | None => None
  end.

(** Lines 244-250: line name and description of a route row. *)
Definition route_names (line : RouteRow) : string * string :=
  let line_name := str_or_empty (route_short_name line) in
  let description := str_or_empty (route_long_name line) in
  if negb (truthy line_name) && negb (contains " " description)
  then (description,
        if (String.length description <? 5)%nat then "" else description)
  else (line_name, description).

(** [Service.objects.filter(operator=operator)]: the services that have
    the operator, or, for [None], the services that have none. *)
Definition service_of_operator (operator : option Operator) (sv : Service) : bool :=
  match operator with
  | Some o => existsb (String.eqb (op_noc o)) (sv_operators sv)
  | None => match sv_operators sv with [] => true | _ => false end
  end.

(** The four criteria that lines 273-280 join with [|]. *)
Definition has_route_with_code (rs : list Route) (code : string) (sv : Service) : bool :=
  existsb (λ r, String.eqb (rt_code r) code && bool_decide (rt_service r = Some (sv_id sv))) rs.

Definition service_code_matches (code : string) (sv : Service) : bool :=
  String.eqb (sv_service_code sv) code.

Definition line_name_usable (line_name : string) : bool :=
  truthy line_name
  && negb (String.eqb line_name "rail" || String.eqb line_name "InterCity").

Definition line_name_matches (line_name : string) (sv : Service) : bool :=
  line_name_usable line_name && iexact (sv_line_name sv) line_name.

Definition description_matches (line_name description : string) (sv : Service) : bool :=
  negb (line_name_usable line_name) && truthy description
  && String.eqb (sv_description sv) description.

(** The filter [q] of line 282. *)
Definition service_query (rs : list Route) (code line_name description : string)
    (sv : Service) : bool :=
  has_route_with_code rs code sv
  || service_code_matches code sv
  || line_name_matches line_name sv
  || description_matches line_name description sv.

(** [.order_by("id").first()]: the row with the least id. *)
Fixpoint first_by_id (svs : list Service) : option Service :=
  match svs with
  | [] => None
  | sv :: rest =>
      match first_by_id rest with
      | Some m => if (sv_id sv <=? sv_id m)%Z then Some sv else Some m
      | None => Some sv
      end
  end.

Definition find_service (s : Store) (operator : option Operator)
    (code line_name description : string) : option Service :=
  first_by_id
    (filter (λ sv, service_of_operator operator sv
                   && service_query (routes s) code line_name description sv = true)
       (services s)).

(** [service.save()] for a row that has an id. *)
Definition replace_service (sv : Service) (svs : list Service) : list Service :=
  map (λ x, if (sv_id x =? sv_id sv)%Z then sv else x) svs.

Definition add_operator (noc : string) (ops : list string) : list string :=
  if existsb (String.eqb noc) ops then ops else ops ++ [noc].

Definition replace_route (r : Route) (rs : list Route) : list Route :=
  map (λ x, if (rt_id x =? rt_id r)%Z then r else x) rs.

(** [route.trip_set.all().delete()]: the trips of the route go, and with
    them the stop times of those trips.

    Modelled from the spec: the foreign key from a stop time to its trip
    is declared in [bustimes/models.py], which is not among the sources;
    by the data model of the spec a StopTime is "never updated, only
    replaced via Trip deletion", so deleting a trip deletes its stop
    times. *)
Definition delete_trips_of_route (route : Z) (s : Store) : Store :=
  let gone (t : Z) : bool :=
    existsb (λ tr, (tr_id tr =? t)%Z && (tr_route tr =? route)%Z) (trips s) in
  with_trips (filter (λ tr, tr_route tr ≠ route))
    (with_stop_times (filter (λ st, gone (stm_trip st) = false)) s).

(** Lines 282-302: the service of the row is found or made, its columns
    are set and saved, and the operator is linked to it. *)
Definition save_service (cfg : Config) (ext : Collaborators) (line : RouteRow)
    (run : Run) (operator : option Operator) (line_name description : string)
    : M Service :=
  let! found := query (λ s, find_service s operator (route_id line) line_name description) in
  let mode_of (old : string) :=
    match MODES ext !! route_type line with Some m => m | None => old end in
  let! service :=
    match found with
    | Some sv =>
        let sv' :=
          {| sv_id := sv_id sv; sv_service_code := route_id line;
             sv_line_name := line_name; sv_description := description;
             sv_mode := mode_of (sv_mode sv); sv_current := true;
             sv_source := Some (source_id cfg); sv_operators := sv_operators sv |} in
        do! write (with_services (replace_service sv')) in
        ret sv'
    | None =>
        let! i := fresh_id in
        let sv' :=
          {| sv_id := i; sv_service_code := route_id line;
             sv_line_name := line_name; sv_description := description;
             sv_mode := mode_of ""; sv_current := true;
             sv_source := Some (source_id cfg); sv_operators := [] |} in
        do! write (with_services (λ svs, svs ++ [sv'])) in
        ret sv'
    end in
  match operator with
  | Some o =>
      let ops :=
        if bool_decide (is_Some (run_services run !! sv_id service))
        then add_operator (op_noc o) (sv_operators service)
        else [op_noc o] in
      let sv' :=
        {| sv_id := sv_id service; sv_service_code := sv_service_code service;
           sv_line_name := sv_line_name service;
           sv_description := sv_description service;
           sv_mode := sv_mode service; sv_current := sv_current service;
           sv_source := sv_source service; sv_operators := ops |} in
      do! write (with_services (replace_service sv')) in
      ret sv'
  | None => ret service
  end.

(** Lines 304-314: [Route.objects.update_or_create] on the key (source,
    code), and the deletion of the trips of a route that was there. *)
Definition update_or_create_route (cfg : Config) (line : RouteRow) (service : Service)
    : M Route :=
  let! existing :=
    query (λ s, filter (λ r, rt_source r = source_id cfg ∧ rt_code r = route_id line)
                  (routes s)) in
  match existing with
  | [] =>
      let! i := fresh_id in
      let r := {| rt_id := i; rt_source := source_id cfg; rt_code := route_id line;
                  rt_line_name := sv_line_name service;
                  rt_description := sv_description service;
                  rt_service := Some (sv_id service) |} in
      do! write (with_routes (λ rs, rs ++ [r])) in
      ret r
  | [old] =>
      let r := {| rt_id := rt_id old; rt_source := rt_source old; rt_code := rt_code old;
                  rt_line_name := sv_line_name service;
                  rt_description := sv_description service;
                  rt_service := Some (sv_id service) |} in
      do! write (with_routes (replace_route r)) in
      do! write (delete_trips_of_route (rt_id r)) in
      ret r
  | _ => raise MultipleObjectsReturned
  end.

Definition handle_route (cfg : Config) (ext : Collaborators) (line : RouteRow)
    (run : Run) : M Run :=
  let names := route_names line in
  let operator := route_operator cfg run line in
  let! service := save_service cfg ext line run operator names.1 names.2 in
  let! route := update_or_create_route cfg line service in
  ret {| run_operators := run_operators run;
         run_routes := <[route_id line := route]> (run_routes run);
         run_route_operators := <[route_id line := operator]> (run_route_operators run);
         run_services := <[sv_id service := service]> (run_services run) |}.

(** *** Trips (phase 1 of the loader) *)

(** [sorted(xs, key=...)]: a stable sort; among equal keys the input order
    is kept. *)
Fixpoint insert_by {A} (key : A → Z) (x : A) (l : list A) : list A :=
  match l with
  | [] => [x]
  | y :: l' => if (key x <=? key y)%Z then x :: l else y :: insert_by key x l'
  end.

Definition sorted_by {A} (key : A → Z) (l : list A) : list A :=
  foldr (insert_by key) [] l.

(** Lines 371-376: the stop-time rows of each trip, in feed order. *)
Definition group_stop_times (rows : list StopTimeRow) : gmap string (list StopTimeRow) :=
  foldl (λ m line, <[st_trip_id line := default [] (m !! st_trip_id line) ++ [line]]> m)
    ∅ rows.

Definition prefixed_stop (cfg : Config) (id : string) : string :=
  if truthy (stop_prefix cfg) then stop_prefix cfg +:+ id else id.

(** Lines 412-425: [start], [end] and [destination] of a trip.  Line 425
    of the source is indented by 21 columns, which is the depth of no
    enclosing block; it is read here at the depth of the assignments
    before it (20 columns).  Neither reading touches [start] or [end]. *)
Definition trip_times (cfg : Config) (by_trip : gmap string (list StopTimeRow))
    (stops : gmap string StopPoint) (id : string)
    : option cell * option cell * option string :=
  match by_trip !! id with
  | Some rows =>
      let stop_times := sorted_by st_stop_sequence rows in
      match head stop_times, last stop_times with
      | Some first_stop, Some last_stop =>
          (Some (st_departure_time first_stop),
           Some (st_arrival_time last_stop),
           sp_atco_code <$> stops !! prefixed_stop cfg (st_stop_id last_stop))
      | _, _ => (None, None, None)
      end
  | None => (None, None, None)
  end.

Definition trip_block (line : TripRow) : string :=
  match block_id line with
  | Some (CStr s) =>
      let b := strip s in
      if String.eqb b "" || String.eqb b "N/A" || String.eqb b "n/a" then "" else b
  | _ => ""
  end.

(** Lines 391-425: the [Trip] object of one row of [trips.txt]; its key is
    set when the row is stored. *)
Definition build_trip (cfg : Config) (ext : Collaborators) (run : Run)
    (by_trip : gmap string (list StopTimeRow)) (stops : gmap string StopPoint)
    (line : TripRow) : result Trip :=
  match run_routes run !! trip_route_id line with
  | None => Raise KeyError
  | Some route =>
      match calendars ext !! trip_service_id line with
      | None => Raise KeyError
      | Some calendar =>
          match run_route_operators run !! trip_route_id line with
          | None => Raise KeyError
          | Some operator =>
              let '(start, end_, destination) :=
                trip_times cfg by_trip stops (trip_id line) in
              Ok {| tr_id := 0;
                    tr_route := rt_id route;
                    tr_calendar := calendar;
                    tr_inbound := bool_decide (default 0 (direction_id line) = 1);
                    tr_headsign := trip_headsign line;
                    tr_ticket_machine_code := trip_id line;
                    tr_block := trip_block line;
                    tr_vehicle_journey_code := trip_short_name line;
                    tr_operator := op_noc <$> operator;
                    tr_start := start;
                    tr_end := end_;
                    tr_destination := destination |}
          end
      end
  end.

Definition with_key (i : Z) (t : Trip) : Trip :=
  {| tr_id := i; tr_route := tr_route t; tr_calendar := tr_calendar t;
     tr_inbound := tr_inbound t; tr_headsign := tr_headsign t;
     tr_ticket_machine_code := tr_ticket_machine_code t; tr_block := tr_block t;
     tr_vehicle_journey_code := tr_vehicle_journey_code t;
     tr_operator := tr_operator t; tr_start := tr_start t; tr_end := tr_end t;
     tr_destination := tr_destination t |}.

(** [Trip.objects.bulk_create(ts)]: the rows are stored in the order of
    the list and get their keys. *)
Fixpoint bulk_create_trips (ts : list Trip) : M (list Trip) :=
  match ts with
  | [] => ret []
  | t :: ts' =>
      let! i := fresh_id in
      let t' := with_key i t in
      do! write (with_trips (λ l, l ++ [t'])) in
      let! rest := bulk_create_trips ts' in
      ret (t' :: rest)
  end.

Record TripLoop : Type := {
  valid_trips : list Trip;
  created_trip_ids : gset string;
  trip_id_to_pk : gmap string Z }.

Definition flush_trips (st : TripLoop) : M TripLoop :=
  let! stored := bulk_create_trips (valid_trips st) in
  ret {| valid_trips := [];
         created_trip_ids := created_trip_ids st;
         trip_id_to_pk :=
           foldl (λ m t, <[tr_ticket_machine_code t := tr_id t]> m)
             (trip_id_to_pk st) stored |}.

(** The body of the loop of lines 387-438. *)
Definition trip_step (cfg : Config) (ext : Collaborators) (run : Run)
    (by_trip : gmap string (list StopTimeRow)) (stops : gmap string StopPoint)
    (line : TripRow) (st : TripLoop) : M TripLoop :=
  let! trip := lift (build_trip cfg ext run by_trip stops line) in
  match tr_start trip with
  | None => ret st
  | Some _ =>
      let st' := {| valid_trips := valid_trips st ++ [trip];
                    created_trip_ids := {[trip_id line]} ∪ created_trip_ids st;
                    trip_id_to_pk := trip_id_to_pk st |} in
      if (1000 <=? length (valid_trips st'))%nat then flush_trips st' else ret st'
  end.

Definition trips_phase (cfg : Config) (ext : Collaborators) (run : Run)
    (by_trip : gmap string (list StopTimeRow)) (stops : gmap string StopPoint)
    (rows : list TripRow) : M TripLoop :=
  let! st :=
    for_each (trip_step cfg ext run by_trip stops) rows
      {| valid_trips := []; created_trip_ids := ∅; trip_id_to_pk := ∅ |} in
  match valid_trips st with
  | [] => ret st
  | _ => flush_trips st
  end.

(** *** Stop times (phase 2 of the loader) *)

(** Lines 465-485: a pickup or drop-off code as a flag. *)
Definition allowed (code : option Z) : bool :=
  match code with
  | Some 1 => false
  | _ => true
  end.

(** Lines 487-490: the two times of a row as seconds. *)
Definition stop_time_seconds (line : StopTimeRow) : result (option Z * Z) :=
  match duration_seconds (st_departure_time line) with
  | Raise e => Raise e
  | Ok departure =>
      if ne (of_cell (st_arrival_time line)) (VInt departure)
      then match duration_seconds (st_arrival_time line) with
           | Raise e => Raise e
           | Ok arrival => Ok (Some arrival, departure)
           end
      else Ok (None, departure)
  end.

(** The body of the loop of lines 460-516: the row handed to
    [copy.write_row], or [None] for a row of a trip that was not
    created. *)
Definition stop_time_row (cfg : Config) (st : TripLoop) (line : StopTimeRow)
    : result (option StopTime) :=
  match stop_time_seconds line with
  | Raise e => Raise e
  | Ok (arrival, departure) =>
      if bool_decide (st_trip_id line ∈ created_trip_ids st)
      then match trip_id_to_pk st !! st_trip_id line with
           | None => Raise KeyError
           | Some pk =>
               Ok (Some {| stm_stop_id := prefixed_stop cfg (st_stop_id line);
                           stm_arrival := arrival;
                           stm_departure := departure;
                           stm_sequence := st_stop_sequence line;
                           stm_trip := pk;
                           stm_timing_status :=
                             if bool_decide (default 1 (st_timepoint line) = 1)
                             then "PTP" else "OTH";
                           stm_pick_up := allowed (st_pickup_type line);
                           stm_set_down := allowed (st_drop_off_type line);
                           stm_stop_code := "" |})
           end
      else Ok None
  end.

Fixpoint copy_rows (cfg : Config) (st : TripLoop) (rows : list StopTimeRow)
    : result (list StopTime) :=
  match rows with
  | [] => Ok []
  | line :: rows' =>
      match stop_time_row cfg st line with
      | Raise e => Raise e
      | Ok r =>
          match copy_rows cfg st rows' with
          | Raise e => Raise e
          | Ok rest => Ok (from_option (λ x, [x]) [] r ++ rest)
          end
      end
  end.

(** The [COPY ... FROM STDIN] statement of lines 454-516: one statement,
    so its rows arrive together, and none arrives when the loop raises. *)
Definition stop_times_phase (cfg : Config) (st : TripLoop) (rows : list StopTimeRow)
    : M unit :=
  let! written := lift (copy_rows cfg st rows) in
  write (with_stop_times (λ l, l ++ written)).

(** *** Retiring what the feed no longer has (lines 553-565) *)

Definition in_run (run : Run) (r : Route) : bool :=
  existsb (λ kr, (rt_id kr.2 =? rt_id r)%Z) (map_to_list (run_routes run)).

Definition detach_old_routes (cfg : Config) (run : Run) (rs : list Route) : list Route :=
  map (λ r, if bool_decide (rt_source r = source_id cfg) && negb (in_run run r)
            then {| rt_id := rt_id r; rt_source := rt_source r; rt_code := rt_code r;
                    rt_line_name := rt_line_name r; rt_description := rt_description r;
                    rt_service := None |}
            else r) rs.

Definition retire_services (cfg : Config) (run : Run) (rs : list Route)
    (svs : list Service) : list Service :=
  map (λ sv,
         if bool_decide (sv_source sv = Some (source_id cfg)) && sv_current sv
            && negb (existsb (λ r, bool_decide (rt_service r = Some (sv_id sv))
                                   && in_run run r) rs)
         then {| sv_id := sv_id sv; sv_service_code := sv_service_code sv;
                 sv_line_name := sv_line_name sv; sv_description := sv_description sv;
                 sv_mode := sv_mode sv; sv_current := false;
                 sv_source := sv_source sv; sv_operators := sv_operators sv |}
         else sv) svs.

Definition retire_phase (cfg : Config) (run : Run) : M unit :=
  do! write (with_routes (detach_old_routes cfg run)) in
  write (λ s, with_services (retire_services cfg run (routes s)) s).

(** *** The route-link extractor: [do_route_links] *)

(** What [shapely.ops.substring] returns: a line, or something else (a
    point when the two distances coincide). *)
Inductive Geom : Type :=
  | LineString (pts : list Point)
  | OtherGeometry.

Definition LinkKey : Type := option Z * string * string.

(** Truth value of the cursor [start_dist]: [None] and [0.0] are false. *)
Definition dist_truthy (d : option Q) : bool :=
  match d with
  | Some q => negb (Qeq_bool q 0)
  | None => false
  end.

(** [pairwise(xs)] *)
Fixpoint pairwise {A} (xs : list A) : list (A * A) :=
  match xs with
  | a :: (b :: _) as rest => (a, b) :: pairwise rest
  | _ => []
  end.

(** [drop_duplicates("shape_id")]: the first trip of every shape. *)
Fixpoint drop_duplicates (seen : list (option string)) (rows : list TripRow)
    : list TripRow :=
  match rows with
  | [] => []
  | t :: rows' =>
      if bool_decide (shape_id t ∈ seen) then drop_duplicates seen rows'
      else t :: drop_duplicates (shape_id t :: seen) rows'
  end.

Section RouteLinks.

(** The operations of the geometry library: the distance along a line
    of the point of the line nearest to a point, the part of a line
    between two distances, and the text form of a line. *)
Variable project : list Point → Point → Q.
Variable substring : list Point → Q → Q → Geom.
Variable wkt : list Point → string.

Definition stop_point_of (stops : gmap string StopPoint) (code : string) : result Point :=
  match stops !! code with
  | None => Raise KeyError
  | Some stop =>
      match sp_latlong stop with
      | None => Raise AttributeError
      | Some p => Ok p
      end
  end.

(** Lines 612-615: the cursor when it is set and not zero, else the
    projection of the first stop of the pair. *)
Definition start_distance (stops : gmap string StopPoint) (geometry : list Point)
    (from_stop : string) (start_dist : option Q) : result Q :=
  match start_dist with
  | Some d =>
      if dist_truthy start_dist then Ok d
      else match stop_point_of stops from_stop with
           | Ok p => Ok (project geometry p)
           | Raise e => Raise e
           end
  | None =>
      match stop_point_of stops from_stop with
      | Ok p => Ok (project geometry p)
      | Raise e => Raise e
      end
  end.

(** The body of the loop over stop pairs (lines 598-633).  The state is
    the dictionary [route_links] and the cursor [start_dist]. *)
Definition link_step (cfg : Config) (existing : gmap LinkKey RouteLink)
    (stops : gmap string StopPoint) (geometry : list Point) (service : option Z)
    (ab : StopTimeRow * StopTimeRow)
    (st : list (LinkKey * RouteLink) * option Q)
    : result (list (LinkKey * RouteLink) * option Q) :=
  let '(links, start_dist) := st in
  let from_stop := prefixed_stop cfg (st_stop_id ab.1) in
  let to_stop := prefixed_stop cfg (st_stop_id ab.2) in
  let key : LinkKey := (service, from_stop, to_stop) in
  if bool_decide (is_Some (dict_get key links)) then Ok (links, None)
  else
    match start_distance stops geometry from_stop start_dist with
    | Raise e => Raise e
    | Ok start =>
        match stop_point_of stops to_stop with
        | Raise e => Raise e
        | Ok point_b =>
            let end_dist := project geometry point_b in
            let links' :=
              match substring geometry start end_dist with
              | LineString pts =>
                  let rl :=
                    match existing !! key with
                    | Some rl => rl
                    | None => {| rl_id := None; rl_service := service;
                                 rl_from_stop := from_stop; rl_to_stop := to_stop;
                                 rl_geometry := "" |}
                    end in
                  dict_set key
                    {| rl_id := rl_id rl; rl_service := rl_service rl;
                       rl_from_stop := rl_from_stop rl; rl_to_stop := rl_to_stop rl;
                       rl_geometry := wkt pts |} links
              | OtherGeometry => links
              end in
            Ok (links', Some end_dist)
        end
    end.

Fixpoint link_pairs (cfg : Config) (existing : gmap LinkKey RouteLink)
    (stops : gmap string StopPoint) (geometry : list Point) (service : option Z)
    (pairs : list (StopTimeRow * StopTimeRow))
    (st : list (LinkKey * RouteLink) * option Q)
    : result (list (LinkKey * RouteLink) * option Q) :=
  match pairs with
  | [] => Ok st
  | ab :: pairs' =>
      match link_step cfg existing stops geometry service ab st with
      | Raise e => Raise e
      | Ok st' => link_pairs cfg existing stops geometry service pairs' st'
      end
  end.

(** The body of the loop over the representative trips (lines 587-633). *)
Definition link_trip (cfg : Config) (feed : Feed) (shapes : gmap string (list Point))
    (existing : gmap LinkKey RouteLink) (routes_of_run : gmap string Route)
    (stops : gmap string StopPoint) (trip : TripRow)
    (links : list (LinkKey * RouteLink)) : result (list (LinkKey * RouteLink)) :=
  match shape_id trip ≫= (shapes !!.) with
  | None => Ok links
  | Some geometry =>
      match routes_of_run !! trip_route_id trip with
      | None => Raise KeyError
      | Some route =>
          let rows :=
            filter (λ line, st_trip_id line = trip_id trip) (feed_stop_times feed) in
          match link_pairs cfg existing stops geometry (rt_service route)
                  (pairwise rows) (links, None) with
          | Raise e => Raise e
          | Ok (links', _) => Ok links'
          end
      end
  end.

Fixpoint link_trips (cfg : Config) (feed : Feed) (shapes : gmap string (list Point))
    (existing : gmap LinkKey RouteLink) (routes_of_run : gmap string Route)
    (stops : gmap string StopPoint) (reps : list TripRow)
    (links : list (LinkKey * RouteLink)) : result (list (LinkKey * RouteLink)) :=
  match reps with
  | [] => Ok links
  | trip :: reps' =>
      match link_trip cfg feed shapes existing routes_of_run stops trip links with
      | Raise e => Raise e
      | Ok links' => link_trips cfg feed shapes existing routes_of_run stops reps' links'
      end
  end.

(** Lines 581-584: the stored links of the services of the source. *)
Definition existing_route_links (cfg : Config) (s : Store) : gmap LinkKey RouteLink :=
  foldl (λ m rl, <[(rl_service rl, rl_from_stop rl, rl_to_stop rl) := rl]> m) ∅
    (filter (λ rl, existsb (λ sv, bool_decide (rl_service rl = Some (sv_id sv))
                                  && bool_decide (sv_source sv = Some (source_id cfg)))
                     (services s) = true)
       (route_links s)).

(** [bulk_update] of the links that have a key, [bulk_create] of the
    others (lines 635-638). *)
Definition update_link (rl : RouteLink) (stored : list RouteLink) : list RouteLink :=
  map (λ x, if bool_decide (rl_id x = rl_id rl)
            then {| rl_id := rl_id x; rl_service := rl_service x;
                    rl_from_stop := rl_from_stop x; rl_to_stop := rl_to_stop x;
                    rl_geometry := rl_geometry rl |}
            else x) stored.

Definition store_link (rl : RouteLink) : M unit :=
  let! i := fresh_id in
  write (with_route_links
           (λ l, l ++ [{| rl_id := Some i; rl_service := rl_service rl;
                          rl_from_stop := rl_from_stop rl; rl_to_stop := rl_to_stop rl;
                          rl_geometry := rl_geometry rl |}])).

Definition do_route_links (cfg : Config) (feed : Feed) (routes_of_run : gmap string Route)
    (stops : gmap string StopPoint) : M unit :=
  match feed_shapes feed with
  | None => ret tt
  | Some shapes =>
      let reps := drop_duplicates [] (feed_trips feed) in
      let! existing := query (existing_route_links cfg) in
      let! links := lift (link_trips cfg feed shapes existing routes_of_run stops reps []) in
      let found := map snd links in
      do! write (with_route_links
                   (λ stored, foldl (λ acc rl, update_link rl acc) stored
                                (filter (λ rl, is_Some (rl_id rl)) found))) in
      let! _ := for_each (λ rl _, store_link rl)
                  (filter (λ rl, rl_id rl = None) found) tt in
      ret tt
  end.

(** *** [handle_zipfile]

    The run in the order of the source: agencies, routes, stops, trips,
    stop times, retiring, route links.  Two steps write columns that the
    model does not carry and are left out: the shapes of lines 357-364
    (the [geometry] of a service) and the per-service refresh of lines
    521-551 (stop usages, search vector, regions, time stamps). *)
Definition agencies_phase (cfg : Config) (feed : Feed) : M (list (cell * Operator)) :=
  match feed_agency feed with
  | Some rows =>
      if handle_agencies cfg
      then for_each
             (λ agency ops,
                let key := match agency_id agency with
                           | Some c => c
                           | None => CStr (agency_name agency)
                           end in
                let! o := handle_operator cfg agency in
                ret (dict_set key o ops))
             rows []
      else ret []
  | None => ret []
  end.

Definition routes_phase (cfg : Config) (ext : Collaborators) (feed : Feed)
    (ops : list (cell * Operator)) : M Run :=
  for_each (handle_route cfg ext) (feed_routes feed)
    {| run_operators := ops; run_routes := ∅; run_route_operators := ∅;
       run_services := ∅ |}.

Definition handle_zipfile (cfg : Config) (ext : Collaborators) (feed : Feed) : M unit :=
  let! ops := agencies_phase cfg feed in
  let! run := routes_phase cfg ext feed ops in
  let! stops := do_stops cfg feed in
  let by_trip := group_stop_times (feed_stop_times feed) in
  let! loop := trips_phase cfg ext run by_trip stops (feed_trips feed) in
  do! stop_times_phase cfg loop (feed_stop_times feed) in
  do! retire_phase cfg run in
  if skip_route_links cfg then ret tt
  else do_route_links cfg feed (run_routes run) stops.

End RouteLinks.

(** ** Realtime matching: [import_gtfsr_worldwide] and
    [import_gtfsr_translink_qld] *)

(** *** Reports and journeys *)

Record TripDescriptor : Type := {
  td_trip_id : string;
  td_route_id : string;
  td_start_date : string;          (* empty when the feed leaves it out *)
  td_start_time : string;          (* empty when the feed leaves it out *)
  td_direction_id : Z }.

Record Position : Type := {
  bearing : Q;
  latitude : Q;
  longitude : Q }.

Record Item : Type := {
  it_trip : TripDescriptor;
  it_position : Position;
  it_occupancy_status : Z;
  it_vehicle_id : string;
  it_timestamp : Z }.

(** A datetime with a time zone attached: the wall-clock reading in
    seconds since 0001-01-01 00:00:00, and the zone's name. *)
Record DateTime : Type := { wall_clock : Z; tzinfo : string }.

Record VehicleJourney : Type := {
  vj_id : option Z;
  vj_code : string;
  vj_datetime : option DateTime;
  vj_service : option Z;
  vj_trip : option Z;
  vj_destination : string;
  vj_route_name : string }.

Record Vehicle : Type := {
  vh_code : string;
  vh_operator : option string;
  vh_latest_journey : option VehicleJourney;
  vh_latest_journey_data : option Item }.

Record VehicleLocation : Type := {
  vl_heading : option Q;
  vl_latlong : Q * Q;
  vl_occupancy : option string }.

(** *** Dates *)

Definition is_leap (y : Z) : bool :=
  (y mod 4 =? 0)%Z && (negb (y mod 100 =? 0)%Z || (y mod 400 =? 0)%Z).

Definition days_in_month (y m : Z) : Z :=
  if (m =? 2)%Z then (if is_leap y then 29 else 28)
  else if (m =? 4)%Z || (m =? 6)%Z || (m =? 9)%Z || (m =? 11)%Z then 30
  else 31.

Definition days_before_year (y : Z) : Z :=
  let p := y - 1 in 365 * p + p / 4 - p / 100 + p / 400.

Fixpoint days_before_month (y : Z) (m : nat) : Z :=
  match m with
  | O => 0
  | S k => match k with
           | O => 0
           | _ => days_before_month y k + days_in_month y (Z.of_nat k)
           end
  end.

(** [date(y, m, d).toordinal()] *)
Definition toordinal (y m d : Z) : Z :=
  days_before_year y + days_before_month y (Z.to_nat m) + d.

(** [datetime.strptime(f"{date} 12:00:00", "%Y%m%d %H:%M:%S")] for a GTFS
    date of eight digits, as seconds since 0001-01-01 00:00:00; a string
    that is not such a date of the calendar raises [ValueError] (the
    shorter month and day fields that [strptime] also reads are not
    covered). *)
Definition strptime_noon (date : string) : result Z :=
  if (String.length date =? 8)%nat && all_digits date
  then
    let y := digits_go (String.substring 0 4 date) 0 in
    let m := digits_go (String.substring 4 2 date) 0 in
    let d := digits_go (String.substring 6 2 date) 0 in
    if (1 <=? y)%Z && (1 <=? m)%Z && (m <=? 12)%Z && (1 <=? d)%Z
       && (d <=? days_in_month y m)%Z
    then Ok ((toordinal y m d - 1) * 86400 + 43200)
    else Raise ValueError
  else Raise ValueError.

(** [timedelta(hours=12)] in seconds. *)
Definition twelve_hours : Z := 43200.

(** *** The occupancy table *)

(** A key of a Python dictionary that is read with integer keys: the
    built-in table has integer keys, a table that comes from the JSON
    settings has string keys. *)
Inductive DictKey : Type :=
  | KInt (z : Z)
  | KStr (s : string).

#[global] Instance DictKey_eq_dec : EqDecision DictKey.
Proof. solve_decision. Defined.

Definition occupancies : list (DictKey * string) :=
  [ (KInt 0, "Empty");
    (KInt 1, "Many seats available");
    (KInt 2, "Few seats available");
    (KInt 3, "Standing room only");
    (KInt 4, "Crushed standing room only");
    (KInt 5, "Full");
    (KInt 6, "Not accepting passengers");
    (KInt 7, "No data available");
    (KInt 8, "Not boardable") ].

(** [x or None] for a number. *)
Definition int_or_none (z : Z) : option Z := if (z =? 0)%Z then None else Some z.
Definition float_or_none (q : Q) : option Q := if Qeq_bool q 0 then None else Some q.

(** [mapping.get(k)] where [k] is an integer or [None]; [None] is not a
    key of the table. *)
Definition mapping_get (mapping : list (DictKey * string)) (k : option Z) : option string :=
  match k with
  | Some z => dict_get (KInt z) mapping
  | None => None
  end.

(** [create_vehicle_location] (lines 192-199 of both commands); the
    Translink command always reads the built-in table. *)
Definition create_vehicle_location (mapping : list (DictKey * string)) (item : Item)
    : VehicleLocation :=
  {| vl_heading := float_or_none (bearing (it_position item));
     vl_latlong := (longitude (it_position item), latitude (it_position item));
     vl_occupancy := mapping_get mapping (int_or_none (it_occupancy_status item)) |}.

Definition create_vehicle_location_qld (item : Item) : VehicleLocation :=
  create_vehicle_location occupancies item.

(** *** [get_journey] *)

Section LiveMatcher.

(** [bustimes.utils.get_calendars(date, calendar_ids)]: the calendars of
    the list that run on the date. *)
Variable get_calendars : Z → list Z → list Z.

(** The source and time zone that [do_source] sets on the command. *)
Variable source : Z.
Variable zone : string.

Definition route_of (s : Store) (t : Trip) : option Route :=
  head (filter (λ r, rt_id r = tr_route t) (routes s)).

Definition service_by_id (s : Store) (i : Z) : option Service :=
  head (filter (λ sv, sv_id sv = i) (services s)).

(** Lines 120-133 (118-131): the current services that have a route of
    the source with the reported route code, else those that have a trip
    of the source with the journey code. *)
Definition candidate_services (s : Store) (route_code code : string) : list Service :=
  let by_route :=
    filter (λ sv, sv_current sv
                  && existsb (λ r, bool_decide (rt_service r = Some (sv_id sv))
                                   && bool_decide (rt_source r = source)
                                   && String.eqb (rt_code r) route_code) (routes s) = true)
      (services s) in
  match by_route with
  | [] =>
      filter (λ sv, sv_current sv
                    && existsb (λ r, bool_decide (rt_service r = Some (sv_id sv))
                                     && bool_decide (rt_source r = source)
                                     && existsb (λ t, bool_decide (tr_route t = rt_id r)
                                                      && String.eqb (tr_ticket_machine_code t) code)
                                          (trips s)) (routes s) = true)
        (services s)
  | _ => by_route
  end.

Definition trip_in_service (s : Store) (sv : Service) (t : Trip) : bool :=
  match route_of s t with
  | Some r => bool_decide (rt_service r = Some (sv_id sv))
  | None => false
  end.

Definition trip_in_source (s : Store) (t : Trip) : bool :=
  match route_of s t with
  | Some r => bool_decide (rt_source r = source)
  | None => false
  end.

(** The stored [start] of a trip as a duration. *)
Definition trip_start_seconds (t : Trip) : option Z :=
  match tr_start t with
  | Some (CStr x) => parse_duration x
  | _ => None
  end.

(** Lines 147-153 (145-151): the only service that has a route of the
    source whose code ends in the suffix; [get()] fails on none and on
    several rows of the join. *)
Definition service_by_suffix (s : Store) (route_code : string) : option Service :=
  let suffix :=
    if contains "_" route_code
    then default route_code (after_first "_" route_code) else route_code in
  match filter (λ r, bool_decide (rt_source r = source)
                     && endswith ("_" +:+ suffix) (rt_code r)
                     && bool_decide (is_Some (rt_service r ≫= service_by_id s)) = true)
          (routes s) with
  | [r] => rt_service r ≫= service_by_id s
  | _ => None
  end.

(** Everything of [get_journey] below the computation of the start
    datetime (lines 119-190 of the worldwide command, 117-190 of the
    Translink one).  The two commands differ in two guards, which are
    arguments here: [start_filter] is the start time when the fallback
    trip query filters on [start] and [inbound], and [service_date] is
    the date when several trips are told apart by their calendars. *)
Definition resolve_journey (s : Store) (item : Item) (vehicle : Vehicle)
    (journey : VehicleJourney) (start_filter service_date : option Z)
    : Vehicle * VehicleJourney :=
  let code := vj_code journey in
  let route_code := td_route_id (it_trip item) in
  let service := head (candidate_services s route_code code) in
  let found :=
    filter (λ t, String.eqb (tr_ticket_machine_code t) code
                 && match service with
                    | Some sv => trip_in_service s sv t
                    | None => trip_in_source s t
                    end = true) (trips s) in
  let '(service, found) :=
    match found, service with
    | [], None =>
        if contains "_" code
        then
          let service := service_by_suffix s route_code in
          (service,
           filter (λ t, trip_in_source s t
                        && match start_filter with
                           | Some start =>
                               bool_decide (trip_start_seconds t = Some start)
                               && Bool.eqb (tr_inbound t)
                                    (td_direction_id (it_trip item) =? 1)%Z
                           | None => true
                           end
                        && match service with
                           | Some sv => trip_in_service s sv t
                           | None => true
                           end = true) (trips s))
        else (service, found)
    | _, _ => (service, found)
    end in
  let trip :=
    match found with
    | [] => None
    | [t] => Some t
    | t :: _ =>
        match service_date with
        | Some date =>
            let active := get_calendars date (map tr_calendar found) in
            head (filter (λ t, tr_calendar t ∈ active) found)
        | None => Some t
        end
    end in
  let journey_service :=
    match service with
    | Some sv => Some (sv_id sv)
    | None => (trip ≫= route_of s) ≫= rt_service
    end in
  let adopt :=
    match trip with
    | Some t => from_option truthy false (tr_operator t)
                && negb (from_option truthy false (vh_operator vehicle))
    | None => false
    end in
  ({| vh_code := vh_code vehicle;
      vh_operator := if adopt then trip ≫= tr_operator else vh_operator vehicle;
      vh_latest_journey := vh_latest_journey vehicle;
      vh_latest_journey_data := Some item |},
   {| vj_id := vj_id journey;
      vj_code := code;
      vj_datetime := vj_datetime journey;
      vj_service := journey_service;
      vj_trip := tr_id <$> trip;
      vj_destination := from_option tr_headsign (vj_destination journey) trip;
      vj_route_name :=
        from_option sv_line_name (vj_route_name journey)
          (journey_service ≫= service_by_id s) |}).

(** [VehicleJourney(code=...)] *)
Definition new_journey (code : string) : VehicleJourney :=
  {| vj_id := None; vj_code := code; vj_datetime := None; vj_service := None;
     vj_trip := None; vj_destination := ""; vj_route_name := "" |}.

Definition with_datetime (d : DateTime) (j : VehicleJourney) : VehicleJourney :=
  {| vj_id := vj_id j; vj_code := vj_code j; vj_datetime := Some d;
     vj_service := vj_service j; vj_trip := vj_trip j;
     vj_destination := vj_destination j; vj_route_name := vj_route_name j |}.

(** [import_gtfsr_worldwide.Command.get_journey]: the start datetime is
    computed first (lines 101-108), the cached journey is looked at after
    it (lines 112-115). *)
Definition get_journey_worldwide (s : Store) (item : Item) (vehicle : Vehicle)
    : Vehicle * result VehicleJourney :=
  match strptime_noon (td_start_date (it_trip item)) with
  | Raise e => (vehicle, Raise e)
  | Ok start_date =>
      match parse_duration (td_start_time (it_trip item)) with
      | None => (vehicle, Raise TypeError)
      | Some start_time =>
          let start_date_time :=
            {| wall_clock := start_date + start_time - twelve_hours; tzinfo := zone |} in
          let journey := new_journey (td_trip_id (it_trip item)) in
          match vh_latest_journey vehicle with
          | Some latest =>
              if String.eqb (vj_code latest) (vj_code journey)
              then (vehicle, Ok latest)
              else
                let '(v, j) :=
                  resolve_journey s item vehicle (with_datetime start_date_time journey)
                    (Some start_time) (Some start_date) in
                (v, Ok j)
          | None =>
              let '(v, j) :=
                resolve_journey s item vehicle (with_datetime start_date_time journey)
                  (Some start_time) (Some start_date) in
              (v, Ok j)
          end
      end
  end.

(** [import_gtfsr_translink_qld.Command.get_journey]: the cached journey
    is looked at first (lines 84-87); the start datetime is computed when
    both fields are there and is the current time otherwise (lines
    90-103).  [now] is the reading of the clock in the command's zone. *)
Definition get_journey_qld (now : Z) (s : Store) (item : Item) (vehicle : Vehicle)
    : Vehicle * result VehicleJourney :=
  let journey := new_journey (td_trip_id (it_trip item)) in
  let cached :=
    match vh_latest_journey vehicle with
    | Some latest =>
        if String.eqb (vj_code latest) (vj_code journey) then Some latest else None
    | None => None
    end in
  match cached with
  | Some latest => (vehicle, Ok latest)
  | None =>
      let has_schedule_data :=
        truthy (td_start_date (it_trip item)) && truthy (td_start_time (it_trip item)) in
      if has_schedule_data
      then
        match strptime_noon (td_start_date (it_trip item)) with
        | Raise e => (vehicle, Raise e)
        | Ok start_date =>
            match parse_duration (td_start_time (it_trip item)) with
            | None => (vehicle, Raise TypeError)
            | Some start_time =>
                let start_date_time :=
                  {| wall_clock := start_date + start_time - twelve_hours;
                     tzinfo := zone |} in
                let '(v, j) :=
                  resolve_journey s item vehicle (with_datetime start_date_time journey)
                    (if (start_time =? 0)%Z then None else Some start_time)
                    (Some start_date) in
                (v, Ok j)
            end
        end
      else
        let '(v, j) :=
          resolve_journey s item vehicle
            (with_datetime {| wall_clock := now; tzinfo := zone |} journey)
            None None in
        (v, Ok j)
  end.

End LiveMatcher.

(** ** Predicates of the statements *)

(** Every run of [m] relates the store it starts from to the store it
    leaves, whether it returns or raises. *)
Definition stable {A} (R : Store → Store → Prop) (m : M A) : Prop :=
  ∀ s, R s (m s).1.

(** The stop table and the admin areas are the same. *)
Definition same_stops (s s' : Store) : Prop :=
  stop_points s' = stop_points s ∧ admin_areas s' = admin_areas s.

(** The key of a route: its source and its code. *)
Definition route_key (r : Route) : Z * string := (rt_source r, rt_code r).

(** A route with the key (source, code) is in the store. *)
Definition has_route (source : Z) (code : string) (s : Store) : Prop :=
  ∃ r, r ∈ routes s ∧ route_key r = (source, code).

(** The constraints of the tables: route ids are unique, and so are the
    route keys (source, code); ids come from the sequence; the route of a
    trip and the trip of a stop time are ids that have been given out. *)
Record wf (s : Store) : Prop := {
  wf_route_ids : NoDup (map rt_id (routes s));
  wf_route_keys : NoDup (map route_key (routes s));
  wf_route_bound : ∀ r, r ∈ routes s → rt_id r < next_id s;
  wf_trip_bound : ∀ t, t ∈ trips s → tr_id t < next_id s ∧ tr_route t < next_id s;
  wf_stop_time_bound : ∀ st, st ∈ stop_times s → stm_trip st < next_id s }.

(** The timetable tables are the same and the sequence has not gone
    back. *)
Definition same_timetable (s s' : Store) : Prop :=
  routes s' = routes s ∧ trips s' = trips s ∧ stop_times s' = stop_times s
  ∧ next_id s ≤ next_id s'.

(** The ids of the routes in the dictionary [self.routes]. *)
Definition run_route_id (run : Run) (i : Z) : Prop :=
  ∃ k r, run_routes run !! k = Some r ∧ rt_id r = i.

(** What holds between the store [s0] a run starts from and the store [s]
    and dictionary [run] while the route rows are handled: no trip or stop
    time has been added; the routes that were there are still there; a
    route of the dictionary is in the store under the key of its row and
    has no trips; the rows [handled] have their entry. *)
Record routes_inv (cfg : Config) (s0 : Store) (handled : list RouteRow)
    (s : Store) (run : Run) : Prop := {
  ri_wf : wf s;
  ri_next : next_id s0 ≤ next_id s;
  ri_trips : ∀ t, t ∈ trips s → t ∈ trips s0;
  ri_stop_times : ∀ st, st ∈ stop_times s → st ∈ stop_times s0;
  ri_kept : ∀ x, x ∈ routes s0 →
                 ∃ x', x' ∈ routes s ∧ rt_id x' = rt_id x ∧ route_key x' = route_key x;
  ri_run : ∀ k r, run_routes run !! k = Some r →
                  (∃ x, x ∈ routes s ∧ rt_id x = rt_id r
                        ∧ route_key x = (source_id cfg, k))
                  ∧ ∀ t, t ∈ trips s → tr_route t ≠ rt_id r;
  ri_handled : ∀ line, line ∈ handled → is_Some (run_routes run !! route_id line) }.

(** What holds of the store [s] while the trips of a run are made: [s0]
    is the store the run started from, [s3] the store the trip loop
    started from.  Routes and stop times are those of [s3]; a trip is
    either one of [s0] on a route that the run has not handled, or it has
    a new key and is on a route of the run. *)
Record trips_inv (run : Run) (s0 s3 s : Store) : Prop := {
  ti_wf : wf s;
  ti_routes : routes s = routes s3;
  ti_stop_times : stop_times s = stop_times s3;
  ti_next : next_id s3 ≤ next_id s;
  ti_trips : ∀ t, t ∈ trips s →
                  (t ∈ trips s0 ∧ ¬ run_route_id run (tr_route t))
                  ∨ (next_id s0 ≤ tr_id t ∧ run_route_id run (tr_route t)) }.

(** What holds of the state of the trip loop: the buffered trips are on
    routes of the run, and the keys noted down have been given out. *)
Definition loop_inv (run : Run) (s : Store) (st : TripLoop) : Prop :=
  (∀ t, t ∈ valid_trips st → run_route_id run (tr_route t))
  ∧ ∀ k pk, trip_id_to_pk st !! k = Some pk → pk < next_id s.

(** No route has trips of before the run and trips of the run at once:
    the trips of before have keys below the sequence value [next_id s0]
    at which the run started. *)
Definition one_generation (s0 s' : Store) : Prop :=
  ∀ t1 t2, t1 ∈ trips s' → t2 ∈ trips s' → tr_route t1 = tr_route t2 →
           (tr_id t1 < next_id s0 ↔ tr_id t2 < next_id s0).

(** Id and key of a route. *)
Definition route_ident (r : Route) : Z * (Z * string) := (rt_id r, route_key r).

(** Trips and stop times are the same, the routes have the same ids and
    keys in the same places, and the sequence has not gone back. *)
Definition same_schedule (s s' : Store) : Prop :=
  trips s' = trips s ∧ stop_times s' = stop_times s
  ∧ map route_ident (routes s') = map route_ident (routes s)
  ∧ next_id s ≤ next_id s'.

(** The state of the store [s] of a run that started from [s0], once the
    route rows of the feed have been handled with the dictionary [run]:
    every route row has its route, which is a route of the run, and a trip
    is either one of [s0] on a route that the run has not handled or a new
    one on a route of the run. *)
Record loaded (cfg : Config) (feed : Feed) (run : Run) (s0 s : Store) : Prop := {
  ld_wf : wf s;
  ld_trips : ∀ t, t ∈ trips s →
                  (t ∈ trips s0 ∧ ¬ run_route_id run (tr_route t))
                  ∨ (next_id s0 ≤ tr_id t ∧ run_route_id run (tr_route t));
  ld_routes : ∀ line, line ∈ feed_routes feed →
                      ∃ x, x ∈ routes s
                           ∧ route_key x = (source_id cfg, route_id line)
                           ∧ run_route_id run (rt_id x) }.

(** What a run that started from [s0] leaves behind in [s'], however it
    ended: the constraints hold, so no key (source, code) has two routes;
    no route mixes trips of before the run with trips of the run; and
    when the route rows were reached, every route row has its route in
    the store, the trips on that route are trips of the run, and no stop
    time of before the run belongs to one of them. *)
Record run_post (cfg : Config) (feed : Feed) (s0 s' : Store) : Prop := {
  rp_wf : wf s';
  rp_generation : one_generation s0 s';
  rp_routes :
    (∃ ops, (agencies_phase cfg feed s0).2 = Ok ops) →
    ∀ line, line ∈ feed_routes feed →
      has_route (source_id cfg) (route_id line) s'
      ∧ ∀ r t, r ∈ routes s' → route_key r = (source_id cfg, route_id line) →
               t ∈ trips s' → tr_route t = rt_id r →
               next_id s0 ≤ tr_id t
               ∧ ∀ st, st ∈ stop_times s0 → stm_trip st ≠ tr_id t }.

(** ** Sample data *)

Module Sample.

Definition cfg : Config :=
  {| source_id := 1; source_name := "Demo"; agency_prefix := ""; stop_prefix := "demo-";
     operator_noc := ""; default_operator := ""; operator_matching := "noc";
     region_handling := "auto"; skip_route_links := false; handle_agencies := true;
     handle_shapes := true |}.

Definition ext : Collaborators :=
  {| MODES := {[ 3 := "bus" ]}; calendars := {[ "WK" := 7 ]} |}.

Definition empty_store : Store :=
  {| operators := []; services := []; routes := []; trips := []; stop_times := [];
     stop_points := ∅; admin_areas := []; route_links := []; next_id := 1 |}.

(** A stop-time row; the times are those of the argument. *)
Definition stop_time (trip : string) (seq : Z) (arrival departure : string) (stop : string)
    : StopTimeRow :=
  {| st_trip_id := trip; st_arrival_time := CStr arrival;
     st_departure_time := CStr departure; st_stop_id := stop; st_stop_sequence := seq;
     st_timepoint := None; st_pickup_type := None; st_drop_off_type := None |}.

(** A trip that calls at three stops. *)
Definition three_calls : list StopTimeRow :=
  [ stop_time "T1" 1 "08:00:00" "08:00:00" "A";
    stop_time "T1" 2 "08:05:00" "08:05:00" "B";
    stop_time "T1" 3 "08:10:00" "08:12:00" "C" ].

Definition loop_with_T1 : TripLoop :=
  {| valid_trips := []; created_trip_ids := {[ "T1" ]}; trip_id_to_pk := {[ "T1" := 40 ]} |}.

(** A realtime report. *)
Definition report (trip route date time : string) (bearing_ : Q) (occupancy : Z) : Item :=
  {| it_trip := {| td_trip_id := trip; td_route_id := route; td_start_date := date;
                   td_start_time := time; td_direction_id := 0 |};
     it_position := {| bearing := bearing_; latitude := 53 # 1; longitude := (-6) # 1 |};
     it_occupancy_status := occupancy;
     it_vehicle_id := "V1";
     it_timestamp := 0 |}.

Definition cached_journey : VehicleJourney :=
  {| vj_id := Some 5; vj_code := "T1";
     vj_datetime := Some {| wall_clock := 0; tzinfo := "UTC" |};
     vj_service := None; vj_trip := None; vj_destination := "Town"; vj_route_name := "10" |}.

Definition vehicle_with_journey : Vehicle :=
  {| vh_code := "V1"; vh_operator := None; vh_latest_journey := Some cached_journey;
     vh_latest_journey_data := None |}.

Definition new_vehicle : Vehicle :=
  {| vh_code := "V1"; vh_operator := None; vh_latest_journey := None;
     vh_latest_journey_data := None |}.

(** The calendar collaborator of the samples keeps every calendar. *)
Definition all_calendars (date : Z) (ids : list Z) : list Z := ids.

(** Two services without operators; the second one has the route R1. *)
Definition service_by_name : Service :=
  {| sv_id := 1; sv_service_code := "X"; sv_line_name := "10"; sv_description := "";
     sv_mode := "bus"; sv_current := true; sv_source := Some 1; sv_operators := [] |}.

Definition service_by_route : Service :=
  {| sv_id := 2; sv_service_code := "OLD"; sv_line_name := "99"; sv_description := "";
     sv_mode := "bus"; sv_current := true; sv_source := Some 1; sv_operators := [] |}.

Definition two_services : Store :=
  {| operators := []; services := [service_by_name; service_by_route];
     routes := [ {| rt_id := 3; rt_source := 1; rt_code := "R1"; rt_line_name := "99";
                    rt_description := ""; rt_service := Some 2 |} ];
     trips := []; stop_times := []; stop_points := ∅; admin_areas := [];
     route_links := []; next_id := 4 |}.

(** A geometry library for the samples: a point lies at the distance of
    its longitude, and the part of a line between equal distances is a
    point. *)
Definition project (line : list Point) (p : Point) : Q := inject_Z (lon p).
Definition substring (line : list Point) (a b : Q) : Geom :=
  if Qeq_bool a b then OtherGeometry else LineString line.
Definition wkt (line : list Point) : string := "LINESTRING".

Definition stop_at (code : string) (x : Z) : StopPoint :=
  {| sp_atco_code := code; sp_common_name := code; sp_indicator := "";
     sp_latlong := Some {| lon := x; lat := 0 |}; sp_locality_centre := false;
     sp_active := true; sp_source := Some 1; sp_admin_area := None |}.

(** Stops A and B lie at the same place. *)
Definition stops_on_line : gmap string StopPoint :=
  {[ "demo-A" := stop_at "demo-A" 5; "demo-B" := stop_at "demo-B" 5;
     "demo-C" := stop_at "demo-C" 9 ]}.

Definition line_shape : list Point := [ {| lon := 0; lat := 0 |}; {| lon := 10; lat := 0 |} ].

(** A feed of one route; its trip names a route that the feed lacks. *)
Definition route_R1 : RouteRow :=
  {| route_id := "R1"; route_short_name := CStr "10"; route_long_name := CStr "Town - Port";
     route_type := 3; route_agency_id := None |}.

Definition trip_row (route trip : string) : TripRow :=
  {| trip_route_id := route; trip_service_id := "WK"; trip_id := trip;
     direction_id := Some 0; trip_headsign := "Port"; block_id := None;
     trip_short_name := ""; shape_id := None |}.

Definition stop_row (id : string) (x : Z) : StopRow :=
  {| stop_id := id; stop_name := "Stop " +:+ id; stop_lon := x; stop_lat := 0 |}.

Definition feed_with_unknown_route : Feed :=
  {| feed_agency := None;
     feed_routes := [route_R1];
     feed_stops := [stop_row "A" 5; stop_row "B" 5; stop_row "C" 9];
     feed_trips := [trip_row "RX" "T1"];
     feed_stop_times := three_calls;
     feed_shapes := None |}.

(** A store in which the stop demo-A belongs to the source 2 and lies
    elsewhere. *)
Definition foreign_stop : StopPoint :=
  {| sp_atco_code := "demo-A"; sp_common_name := "Other name"; sp_indicator := "";
     sp_latlong := Some {| lon := 77; lat := 1 |}; sp_locality_centre := false;
     sp_active := true; sp_source := Some 2; sp_admin_area := None |}.

Definition store_with_foreign_stop : Store :=
  {| operators := []; services := []; routes := []; trips := []; stop_times := [];
     stop_points := {[ "demo-A" := foreign_stop ]}; admin_areas := [];
     route_links := []; next_id := 1 |}.

(** The dictionaries of a run after the route R1 has been handled. *)
Definition stored_R1 : Route :=
  {| rt_id := 3; rt_source := 1; rt_code := "R1"; rt_line_name := "10";
     rt_description := "Town - Port"; rt_service := Some 2 |}.

Definition run_with_R1 : Run :=
  {| run_operators := []; run_routes := {[ "R1" := stored_R1 ]};
     run_route_operators := {[ "R1" := None ]}; run_services := ∅ |}.

Definition built_T1 : Trip :=
  {| tr_id := 0; tr_route := 3; tr_calendar := 7; tr_inbound := false;
     tr_headsign := "Port"; tr_ticket_machine_code := "T1"; tr_block := "";
     tr_vehicle_journey_code := ""; tr_operator := None;
     tr_start := Some (CStr "08:00:00"); tr_end := Some (CStr "08:10:00");
     tr_destination := None |}.

(** A feed that is in order but for one call without times (times may be
    left out at stops that are not timing points). *)
Definition untimed_call (trip : string) (seq : Z) (stop : string) : StopTimeRow :=
  {| st_trip_id := trip; st_arrival_time := CNaN; st_departure_time := CNaN;
     st_stop_id := stop; st_stop_sequence := seq; st_timepoint := Some 0;
     st_pickup_type := None; st_drop_off_type := None |}.

Definition feed_with_untimed_call : Feed :=
  {| feed_agency := None;
     feed_routes := [route_R1];
     feed_stops := [stop_row "A" 5; stop_row "B" 5; stop_row "C" 9];
     feed_trips := [trip_row "R1" "T1"];
     feed_stop_times :=
       [ stop_time "T1" 1 "08:00:00" "08:00:00" "A";
         untimed_call "T1" 2 "B";
         stop_time "T1" 3 "08:10:00" "08:12:00" "C" ];
     feed_shapes := None |}.

(** A store after an import of the route R1: the route 2 of the service
    1 has the trip 3 with one stop time. *)
Definition imported_store : Store :=
  {| operators := [];
     services :=
       [ {| sv_id := 1; sv_service_code := "R1"; sv_line_name := "10";
            sv_description := "Town - Port"; sv_mode := "bus"; sv_current := true;
            sv_source := Some 1; sv_operators := [] |} ];
     routes :=
       [ {| rt_id := 2; rt_source := 1; rt_code := "R1"; rt_line_name := "10";
            rt_description := "Town - Port"; rt_service := Some 1 |} ];
     trips :=
       [ {| tr_id := 3; tr_route := 2; tr_calendar := 7; tr_inbound := false;
            tr_headsign := "Port"; tr_ticket_machine_code := "OLD1"; tr_block := "";
            tr_vehicle_journey_code := ""; tr_operator := None;
            tr_start := Some (CStr "07:00:00"); tr_end := Some (CStr "07:10:00");
            tr_destination := None |} ];
     stop_times :=
       [ {| stm_stop_id := "demo-A"; stm_arrival := Some 25200; stm_departure := 25200;
            stm_sequence := 1; stm_trip := 3; stm_timing_status := "PTP";
            stm_pick_up := true; stm_set_down := true; stm_stop_code := "" |} ];
     stop_points := ∅; admin_areas := []; route_links := []; next_id := 4 |}.

Definition feed_of_R1 : Feed :=
  {| feed_agency := None;
     feed_routes := [route_R1];
     feed_stops := [stop_row "A" 5; stop_row "B" 5; stop_row "C" 9];
     feed_trips := [trip_row "R1" "T1"];
     feed_stop_times := three_calls;
     feed_shapes := None |}.

End Sample.

(** ** More of the commands *)

(** [sep.join(parts)] *)
Fixpoint join (sep : string) (parts : list string) : string :=
  match parts with
  | [] => ""
  | [p] => p
  | p :: rest => p +:+ sep +:+ join sep rest
  end.

(** *** [import_gtfsr_translink_qld]: identities and vehicles *)

(** [get_vehicle_identity] (lines 43-49): the part of the vehicle id after
    the last underscore. *)
Definition get_vehicle_identity (item : Item) : string :=
  let vehicle_id := it_vehicle_id item in
  if contains "_" vehicle_id
  then default vehicle_id (last (split "_" vehicle_id))
  else vehicle_id.

(** [get_journey_identity] (lines 51-57) *)
Definition get_journey_identity (item : Item) : string * string * string :=
  (td_route_id (it_trip item), td_trip_id (it_trip item), td_start_date (it_trip item)).

(** [get_item_identity] (lines 59-61) *)
Definition get_item_identity (item : Item) : Z := it_timestamp item.

(** The vehicle table: a vehicle and the source it belongs to. *)
Definition VehicleTable : Type := list (Z * Vehicle).

(** [get_vehicle] (lines 72-79):
    [Vehicle.objects.get_or_create(code=vehicle_code, source=self.source)].
    The result is the table, the vehicle and whether it was created. *)
Definition get_vehicle (source : Z) (item : Item) (table : VehicleTable)
    : VehicleTable * result (Vehicle * bool) :=
  let vehicle_id := it_vehicle_id item in
  let vehicle_code :=
    if contains "_" vehicle_id
    then default vehicle_id (last (split "_" vehicle_id))
    else vehicle_id in
  match filter (λ row, row.1 = source ∧ vh_code row.2 = vehicle_code) table with
  | [] =>
      let v := {| vh_code := vehicle_code; vh_operator := None;
                  vh_latest_journey := None; vh_latest_journey_data := None |} in
      (table ++ [(source, v)], Ok (v, true))
  | [row] => (table, Ok (row.2, false))
  | _ => (table, Raise MultipleObjectsReturned)
  end.

(** No character of the string is [c]. *)
Fixpoint lacks (c : ascii) (s : string) : bool :=
  match s with
  | EmptyString => true
  | String a s' => negb (Ascii.eqb a c) && lacks c s'
  end.


(** The vehicle has no cached journey with the code of the report, so
    [get_journey] makes a new journey. *)
Definition no_cached_journey (vehicle : Vehicle) (item : Item) : Prop :=
  ∀ latest, vh_latest_journey vehicle = Some latest →
            vj_code latest ≠ td_trip_id (it_trip item).

(** The dictionary of stop times has rows for the trip of the row. *)
Definition has_stop_times (by_trip : gmap string (list StopTimeRow)) (line : TripRow)
    : bool :=
  match by_trip !! trip_id line with
  | Some (_ :: _) => true
  | _ => false
  end.

(** The trips of a list with the keys [n], [n + 1], ... in this order. *)
Fixpoint keyed (n : Z) (ts : list Trip) : list Trip :=
  match ts with
  | [] => []
  | t :: ts' => with_key n t :: keyed (n + 1) ts'
  end.

(** The keys [n], [n + 1], ... of [k] rows. *)
Fixpoint keys_from (n : Z) (k : nat) : list Z :=
  match k with
  | O => []
  | S k' => n :: keys_from (n + 1) k'
  end.

(** The times of a stop-time row can both be read. *)
Definition times_parse (line : StopTimeRow) : Prop :=
  (∃ d, duration_seconds (st_departure_time line) = Ok d)
  ∧ (∃ a, duration_seconds (st_arrival_time line) = Ok a).

(** What holds of the trip loop after the rows [handled], started from
    the store [s0]: the new trips [new] follow the trips of [s0] in the
    table; new and buffered trips together are the handled rows that have
    stop times, in feed order; the new trips have the next keys of the
    sequence in that order; the created trip ids are the ids of those
    rows, and each of them is the code of a buffered trip or is noted down
    with the key of a stored trip that has this code. *)
Definition feed_order (by_trip : gmap string (list StopTimeRow)) (s0 : Store)
    (handled : list TripRow) (s : Store) (st : TripLoop) : Prop :=
  ∃ new,
    trips s = trips s0 ++ new
    ∧ map tr_ticket_machine_code new ++ map tr_ticket_machine_code (valid_trips st)
      = map trip_id (filter (λ line, has_stop_times by_trip line = true) handled)
    ∧ map tr_id new = keys_from (next_id s0) (length new)
    ∧ next_id s = next_id s0 + Z.of_nat (length new)
    ∧ (∀ id, id ∈ created_trip_ids st ↔
             ∃ line, line ∈ handled ∧ trip_id line = id
                     ∧ has_stop_times by_trip line = true)
    ∧ (∀ id, id ∈ created_trip_ids st →
             (∃ pk t, trip_id_to_pk st !! id = Some pk ∧ t ∈ trips s
                      ∧ tr_id t = pk ∧ tr_ticket_machine_code t = id)
             ∨ (∃ t, t ∈ valid_trips st ∧ tr_ticket_machine_code t = id)).

(** What the stop-time loop writes for a row of a created trip. *)
Definition written_for (cfg : Config) (st : TripLoop) (x : StopTime) (line : StopTimeRow)
    : Prop :=
  stm_sequence x = st_stop_sequence line
  ∧ stm_stop_id x = prefixed_stop cfg (st_stop_id line)
  ∧ trip_id_to_pk st !! st_trip_id line = Some (stm_trip x)
  ∧ duration_seconds (st_departure_time line) = Ok (stm_departure x)
  ∧ stm_stop_code x = "".

(** The part [f] of the store is the same in [s'] as in [s]. *)
Definition unchanged {A} (f : Store → A) (s s' : Store) : Prop := f s' = f s.

(** Operators and route links are the same. *)
Definition untouched (s s' : Store) : Prop :=
  operators s' = operators s ∧ route_links s' = route_links s.

(** What identifies a route link: its service and its two stops. *)
Definition link_ident (rl : RouteLink) : LinkKey :=
  (rl_service rl, rl_from_stop rl, rl_to_stop rl).

(** The link [rl] under the key [k] is the stored link of that key with
    the columns it had, or has no id yet and the columns of the key. *)
Definition link_of (existing : gmap LinkKey RouteLink) (k : LinkKey) (rl : RouteLink)
    : Prop :=
  match existing !! k with
  | Some e => rl_id rl = rl_id e ∧ link_ident rl = link_ident e
  | None => rl_id rl = None ∧ link_ident rl = k
  end.

(** What the dictionary [route_links] keeps of its state from step to
    step: the entries it has stay as they are, the keys stay distinct,
    and every entry is the link of its key. *)
Definition links_grow (existing : gmap LinkKey RouteLink)
    (links links' : list (LinkKey * RouteLink)) : Prop :=
  (∀ k rl, dict_get k links = Some rl → dict_get k links' = Some rl)
  ∧ (NoDup (map fst links) → NoDup (map fst links'))
  ∧ (Forall (λ kv, link_of existing kv.1 kv.2) links →
     Forall (λ kv, link_of existing kv.1 kv.2) links').

(** More sample data. *)
Module Fixture.

(** The occupancy table of the docstring of the worldwide command, as the
    JSON settings hold it. *)
Definition json_mapping : list (DictKey * string) :=
  [ (KStr "0", "Empty"); (KStr "1", "Few seats") ].

Definition report_of_vehicle (vehicle_id : string) : Item :=
  {| it_trip := {| td_trip_id := "T1"; td_route_id := "R1"; td_start_date := "";
                   td_start_time := ""; td_direction_id := 0 |};
     it_position := {| bearing := 90 # 1; latitude := 53 # 1; longitude := (-6) # 1 |};
     it_occupancy_status := 1;
     it_vehicle_id := vehicle_id;
     it_timestamp := 0 |}.

Definition vehicle_row (source : Z) (code : string) : Z * Vehicle :=
  (source, {| vh_code := code; vh_operator := None; vh_latest_journey := None;
              vh_latest_journey_data := None |}).

(** A store with the service 1 of the source 1, its route 2 with the
    code R1 and the trip 3 of the operator DEMO with the code T1. *)
Definition timetable : Store :=
  {| operators := [];
     services :=
       [ {| sv_id := 1; sv_service_code := "R1"; sv_line_name := "10";
            sv_description := "Town - Port"; sv_mode := "bus"; sv_current := true;
            sv_source := Some 1; sv_operators := ["DEMO"] |} ];
     routes :=
       [ {| rt_id := 2; rt_source := 1; rt_code := "R1"; rt_line_name := "10";
            rt_description := "Town - Port"; rt_service := Some 1 |} ];
     trips :=
       [ {| tr_id := 3; tr_route := 2; tr_calendar := 7; tr_inbound := false;
            tr_headsign := "Port"; tr_ticket_machine_code := "T1"; tr_block := "";
            tr_vehicle_journey_code := ""; tr_operator := Some "DEMO";
            tr_start := Some (CStr "07:00:00"); tr_end := Some (CStr "07:10:00");
            tr_destination := None |} ];
     stop_times := []; stop_points := ∅; admin_areas := []; route_links := [];
     next_id := 4 |}.

(** A report of the trip T1 with its start date and time. *)
Definition scheduled_report : Item := Sample.report "T1" "R1" "20240105" "07:00:00" 0 0.

Definition agency : AgencyRow :=
  {| agency_id := Some (CStr "DEMO"); agency_name := "Demo Buses";
     agency_url := Some "https://demo.example" |}.

(** A store that has the operator DEMO without URL. *)
Definition one_operator : Store :=
  {| operators := [ {| op_noc := "DEMO"; op_name := "Demo Buses"; op_url := None;
                       op_region := None |} ];
     services := []; routes := []; trips := []; stop_times := [];
     stop_points := ∅; admin_areas := []; route_links := []; next_id := 1 |}.

(** A store whose only service belongs to the source 9, is not current
    and has the service code R1. *)
Definition service_of_source_9 : Service :=
  {| sv_id := 1; sv_service_code := "R1"; sv_line_name := "1";
     sv_description := "Elsewhere"; sv_mode := "bus"; sv_current := false;
     sv_source := Some 9; sv_operators := [] |}.

Definition foreign_service : Store :=
  {| operators := [];
     services := [service_of_source_9];
     routes := []; trips := []; stop_times := []; stop_points := ∅; admin_areas := [];
     route_links := []; next_id := 2 |}.

(** A route row that matches no service of [Sample.two_services]. *)
Definition route_R7 : RouteRow :=
  {| route_id := "R7"; route_short_name := CStr "77";
     route_long_name := CStr "Seven Hills"; route_type := 3; route_agency_id := None |}.

(** The state of the trip loop after the trip T1 has been stored with the
    key 1. *)
Definition loop_T1 : TripLoop :=
  {| valid_trips := []; created_trip_ids := {[ "T1" ]}; trip_id_to_pk := {[ "T1" := 1 ]} |}.

(** A feed with two shapes: the trips T1 and T2 both run from B to C. *)
Definition shaped_trip (trip shape : string) : TripRow :=
  {| trip_route_id := "R1"; trip_service_id := "WK"; trip_id := trip;
     direction_id := Some 0; trip_headsign := "Port"; block_id := None;
     trip_short_name := ""; shape_id := Some shape |}.

Definition feed_with_shapes : Feed :=
  {| feed_agency := None;
     feed_routes := [Sample.route_R1];
     feed_stops := [Sample.stop_row "A" 5; Sample.stop_row "B" 5; Sample.stop_row "C" 9];
     feed_trips := [shaped_trip "T1" "S1"; shaped_trip "T2" "S2"];
     feed_stop_times :=
       Sample.three_calls
       ++ [ Sample.stop_time "T2" 1 "09:05:00" "09:05:00" "B";
            Sample.stop_time "T2" 2 "09:10:00" "09:10:00" "C" ];
     feed_shapes :=
       Some {[ "S1" := Sample.line_shape;
               "S2" := [ {| lon := 0; lat := 0 |}; {| lon := 20; lat := 0 |} ] ]} |}.

Definition shapes_of_feed : gmap string (list Point) :=
  {[ "S1" := Sample.line_shape;
     "S2" := [ {| lon := 0; lat := 0 |}; {| lon := 20; lat := 0 |} ] ]}.

(** The settings of [Sample.cfg] with [skip_route_links] set. *)
Definition cfg_without_links : Config :=
  {| source_id := 1; source_name := "Demo"; agency_prefix := ""; stop_prefix := "demo-";
     operator_noc := ""; default_operator := ""; operator_matching := "noc";
     region_handling := "auto"; skip_route_links := true; handle_agencies := true;
     handle_shapes := true |}.

End Fixture.

(** * Properties *)

(** ** Vehicle locations *)

Lemma float_or_none_zero (q : Q) : (q == 0)%Q → float_or_none q = None.
Proof.
  intros H. unfold float_or_none.
  destruct (Qeq_bool q 0) eqn:E; [reflexivity|].
  apply Qeq_bool_iff in H. congruence.
Qed.

(** C10. A location built from a report has no heading when the bearing
    is 0 and no occupancy when the occupancy status is 0, in both
    commands and for every occupancy table, although the built-in table
    has the entry "Empty" for the key 0. *)
Theorem create_vehicle_location_zero_is_none
    (mapping : list (DictKey * string)) (item : Item) :
  ((bearing (it_position item) == 0)%Q →
     vl_heading (create_vehicle_location mapping item) = None
     ∧ vl_heading (create_vehicle_location_qld item) = None)
  ∧ (it_occupancy_status item = 0 →
       vl_occupancy (create_vehicle_location mapping item) = None
       ∧ vl_occupancy (create_vehicle_location_qld item) = None)
  ∧ dict_get (KInt 0) occupancies = Some "Empty".
Proof.
  split; [|split].
  - intros H. unfold create_vehicle_location_qld, create_vehicle_location; simpl.
    rewrite (float_or_none_zero _ H). done.
  - intros H. unfold create_vehicle_location_qld, create_vehicle_location; simpl.
    rewrite H. done.
  - reflexivity.
Qed.

Lemma create_vehicle_location_zero_is_none_witness :
  vl_heading (create_vehicle_location occupancies (Sample.report "T1" "R1" "" "" 0 0)) = None
  ∧ vl_occupancy (create_vehicle_location occupancies (Sample.report "T1" "R1" "" "" 0 0)) = None.
Proof.
  destruct (create_vehicle_location_zero_is_none occupancies
              (Sample.report "T1" "R1" "" "" 0 0)) as (Hb & Ho & _).
  split.
  - apply Hb. reflexivity.
  - apply Ho. reflexivity.
Defined.

(** ** Stop times *)

(** The comparison of line 489 has a string (or [nan]) on the left and an
    integer on the right, so the branch is always taken. *)
Lemma arrival_never_equals_departure (c : cell) (departure : Z) :
  ne (of_cell c) (VInt departure) = true.
Proof. destruct c; reflexivity. Qed.

Lemma stop_time_seconds_stores_arrival (line : StopTimeRow) (arrival departure : Z) :
  duration_seconds (st_departure_time line) = Ok departure →
  duration_seconds (st_arrival_time line) = Ok arrival →
  stop_time_seconds line = Ok (Some arrival, departure).
Proof.
  intros Hd Ha. unfold stop_time_seconds.
  rewrite Hd, arrival_never_equals_departure, Ha. reflexivity.
Qed.

(** C6. The row that phase 2 writes for a stop-time row whose arrival and
    departure are both 08:00:00 carries the arrival 28800 next to the
    departure 28800: the arrival is stored although it equals the
    departure. *)
Theorem equal_times_arrival_is_stored :
  st_arrival_time (Sample.stop_time "T1" 1 "08:00:00" "08:00:00" "A")
  = st_departure_time (Sample.stop_time "T1" 1 "08:00:00" "08:00:00" "A")
  ∧ stop_time_row Sample.cfg Sample.loop_with_T1
      (Sample.stop_time "T1" 1 "08:00:00" "08:00:00" "A")
    = Ok (Some {| stm_stop_id := "demo-A"; stm_arrival := Some 28800;
                  stm_departure := 28800; stm_sequence := 1; stm_trip := 40;
                  stm_timing_status := "PTP"; stm_pick_up := true;
                  stm_set_down := true; stm_stop_code := "" |}).
Proof. split; [reflexivity|]. vm_compute. reflexivity. Qed.

(** ** The live matcher *)

Section LiveMatcherFacts.

Variable get_calendars : Z → list Z → list Z.
Variable source : Z.
Variable zone : string.

Lemma resolve_journey_datetime s item vehicle journey start_filter service_date :
  vj_datetime (resolve_journey get_calendars source s item vehicle journey
                 start_filter service_date).2
  = vj_datetime journey.
Proof.
  unfold resolve_journey.
  repeat match goal with
         | |- context [let '(_, _) := ?x in _] => destruct x
         end.
  reflexivity.
Qed.

Lemma resolve_journey_code s item vehicle journey start_filter service_date :
  vj_code (resolve_journey get_calendars source s item vehicle journey
             start_filter service_date).2
  = vj_code journey.
Proof.
  unfold resolve_journey.
  repeat match goal with
         | |- context [let '(_, _) := ?x in _] => destruct x
         end.
  reflexivity.
Qed.

(** The Translink command returns the cached journey for every report
    that carries its code, whatever the other fields of the report. *)
Lemma get_journey_qld_cached now s item vehicle latest :
  vh_latest_journey vehicle = Some latest →
  vj_code latest = td_trip_id (it_trip item) →
  get_journey_qld get_calendars source zone now s item vehicle = (vehicle, Ok latest).
Proof.
  intros Hl Hc. unfold get_journey_qld. rewrite Hl. simpl.
  rewrite Hc, String.eqb_refl. reflexivity.
Qed.

(** The worldwide command does so when the date and the time of the
    report can be read. *)
Lemma get_journey_worldwide_cached s item vehicle latest date time :
  strptime_noon (td_start_date (it_trip item)) = Ok date →
  parse_duration (td_start_time (it_trip item)) = Some time →
  vh_latest_journey vehicle = Some latest →
  vj_code latest = td_trip_id (it_trip item) →
  get_journey_worldwide get_calendars source zone s item vehicle = (vehicle, Ok latest).
Proof.
  intros Hd Ht Hl Hc. unfold get_journey_worldwide. rewrite Hd, Ht, Hl. simpl.
  rewrite Hc, String.eqb_refl. reflexivity.
Qed.

(** A report without a start date stops the worldwide command at line
    101, before the cached journey is looked at. *)
Lemma get_journey_worldwide_no_date s item vehicle :
  td_start_date (it_trip item) = "" →
  get_journey_worldwide get_calendars source zone s item vehicle
  = (vehicle, Raise ValueError).
Proof. intros H. unfold get_journey_worldwide. rewrite H. reflexivity. Qed.

(** The start datetime of a new journey: noon of the service date, plus
    the start time, less twelve hours, in the zone of the command. *)
Lemma get_journey_worldwide_datetime s item vehicle date time v j :
  strptime_noon (td_start_date (it_trip item)) = Ok date →
  parse_duration (td_start_time (it_trip item)) = Some time →
  get_journey_worldwide get_calendars source zone s item vehicle = (v, Ok j) →
  vh_latest_journey vehicle = Some j
  ∨ vj_datetime j = Some {| wall_clock := date + time - twelve_hours; tzinfo := zone |}.
Proof.
  intros Hd Ht. unfold get_journey_worldwide. rewrite Hd, Ht.
  destruct (vh_latest_journey vehicle) as [latest|] eqn:Hl.
  - destruct (String.eqb _ _).
    + intros [= _ <-]. by left.
    + pose proof (resolve_journey_datetime s item vehicle
                    (with_datetime {| wall_clock := date + time - twelve_hours;
                                      tzinfo := zone |}
                       (new_journey (td_trip_id (it_trip item))))
                    (Some time) (Some date)) as Hr.
      destruct (resolve_journey _ _ _ _ _ _ _ _) as [v' j']. intros [= _ <-].
      right. exact Hr.
  - pose proof (resolve_journey_datetime s item vehicle
                  (with_datetime {| wall_clock := date + time - twelve_hours;
                                    tzinfo := zone |}
                     (new_journey (td_trip_id (it_trip item))))
                  (Some time) (Some date)) as Hr.
    destruct (resolve_journey _ _ _ _ _ _ _ _) as [v' j']. intros [= _ <-].
    right. exact Hr.
Qed.

Lemma get_journey_qld_datetime now s item vehicle date time v j :
  td_start_date (it_trip item) ≠ "" →
  td_start_time (it_trip item) ≠ "" →
  strptime_noon (td_start_date (it_trip item)) = Ok date →
  parse_duration (td_start_time (it_trip item)) = Some time →
  get_journey_qld get_calendars source zone now s item vehicle = (v, Ok j) →
  vh_latest_journey vehicle = Some j
  ∨ vj_datetime j = Some {| wall_clock := date + time - twelve_hours; tzinfo := zone |}.
Proof.
  intros Hnd Hnt Hd Ht. unfold get_journey_qld.
  destruct (vh_latest_journey vehicle) as [latest|] eqn:Hl.
  - destruct (String.eqb _ _).
    { intros [= _ <-]. by left. }
    destruct (td_start_date (it_trip item)) eqn:E1; [done|].
    destruct (td_start_time (it_trip item)) eqn:E2; [done|].
    simpl truthy. simpl andb. cbv iota. rewrite Hd, Ht.
    match goal with
    | |- context [resolve_journey ?a ?b ?c ?d ?e ?f ?g ?h] =>
        pose proof (resolve_journey_datetime c d e f g h) as Hr;
        destruct (resolve_journey a b c d e f g h) as [v' j']
    end.
    intros [= _ <-]. right. exact Hr.
  - destruct (td_start_date (it_trip item)) eqn:E1; [done|].
    destruct (td_start_time (it_trip item)) eqn:E2; [done|].
    simpl truthy. simpl andb. cbv iota. rewrite Hd, Ht.
    match goal with
    | |- context [resolve_journey ?a ?b ?c ?d ?e ?f ?g ?h] =>
        pose proof (resolve_journey_datetime c d e f g h) as Hr;
        destruct (resolve_journey a b c d e f g h) as [v' j']
    end.
    intros [= _ <-]. right. exact Hr.
Qed.

(** Without the two fields the Translink command takes the current time
    and does not fail. *)
Lemma get_journey_qld_fallback now s item vehicle :
  td_start_date (it_trip item) = "" ∨ td_start_time (it_trip item) = "" →
  ∃ v j, get_journey_qld get_calendars source zone now s item vehicle = (v, Ok j)
         ∧ (vh_latest_journey vehicle = Some j
            ∨ vj_datetime j = Some {| wall_clock := now; tzinfo := zone |}).
Proof.
  intros H. unfold get_journey_qld.
  destruct (vh_latest_journey vehicle) as [latest|] eqn:Hl.
  - destruct (String.eqb _ _).
    { eexists _, _. split; [reflexivity|]. by left. }
    assert (truthy (td_start_date (it_trip item))
            && truthy (td_start_time (it_trip item)) = false) as ->.
    { destruct H as [-> | ->]; [done|]. by rewrite andb_false_r. }
    match goal with
    | |- context [resolve_journey ?a ?b ?c ?d ?e ?f ?g ?h] =>
        pose proof (resolve_journey_datetime c d e f g h) as Hr;
        destruct (resolve_journey a b c d e f g h) as [v' j']
    end.
    eexists _, _. split; [reflexivity|]. right. exact Hr.
  - assert (truthy (td_start_date (it_trip item))
            && truthy (td_start_time (it_trip item)) = false) as ->.
    { destruct H as [-> | ->]; [done|]. by rewrite andb_false_r. }
    match goal with
    | |- context [resolve_journey ?a ?b ?c ?d ?e ?f ?g ?h] =>
        pose proof (resolve_journey_datetime c d e f g h) as Hr;
        destruct (resolve_journey a b c d e f g h) as [v' j']
    end.
    eexists _, _. split; [reflexivity|]. right. exact Hr.
Qed.

End LiveMatcherFacts.

(** C7. A vehicle has the cached journey T1 and a report arrives that
    carries the code T1 and no start date.  The Translink command returns
    the cached journey; the worldwide command raises [ValueError] and
    returns no journey. *)
Theorem worldwide_cached_code_without_date :
  vh_latest_journey Sample.vehicle_with_journey = Some Sample.cached_journey
  ∧ vj_code Sample.cached_journey = td_trip_id (it_trip (Sample.report "T1" "R1" "" "" 0 0))
  ∧ get_journey_qld Sample.all_calendars 1 "Australia/Brisbane" 1000 Sample.empty_store
      (Sample.report "T1" "R1" "" "" 0 0) Sample.vehicle_with_journey
    = (Sample.vehicle_with_journey, Ok Sample.cached_journey)
  ∧ get_journey_worldwide Sample.all_calendars 1 "UTC" Sample.empty_store
      (Sample.report "T1" "R1" "" "" 0 0) Sample.vehicle_with_journey
    = (Sample.vehicle_with_journey, Raise ValueError).
Proof. repeat split; reflexivity. Qed.

(** C8. A report without start date and start time, for a vehicle that
    has no cached journey: the Translink command gives the journey the
    current time in its zone; the worldwide command raises [ValueError]
    and has no journey. *)
Theorem worldwide_absent_schedule_fields :
  td_start_date (it_trip (Sample.report "T2" "R1" "" "" 0 0)) = ""
  ∧ td_start_time (it_trip (Sample.report "T2" "R1" "" "" 0 0)) = ""
  ∧ (∃ v j,
        get_journey_qld Sample.all_calendars 1 "Australia/Brisbane" 1000 Sample.empty_store
          (Sample.report "T2" "R1" "" "" 0 0) Sample.new_vehicle = (v, Ok j)
        ∧ vj_datetime j = Some {| wall_clock := 1000; tzinfo := "Australia/Brisbane" |})
  ∧ get_journey_worldwide Sample.all_calendars 1 "UTC" Sample.empty_store
      (Sample.report "T2" "R1" "" "" 0 0) Sample.new_vehicle
    = (Sample.new_vehicle, Raise ValueError).
Proof.
  split; [reflexivity|]. split; [reflexivity|]. split.
  - eexists _, _. split; [vm_compute; reflexivity | reflexivity].
  - reflexivity.
Qed.

(** ** Trip times *)

Section SortedBy.

Context {A : Type} (key : A → Z).

Definition key_le (a b : A) : Prop := key a ≤ key b.

Lemma insert_by_perm (x : A) (l : list A) : insert_by key x l ≡ₚ x :: l.
Proof.
  induction l as [|y l IH]; simpl; [done|].
  destruct (key x <=? key y)%Z; [done|].
  rewrite IH. apply Permutation_swap.
Qed.

Lemma sorted_by_perm (l : list A) : sorted_by key l ≡ₚ l.
Proof.
  induction l as [|x l IH]; simpl; [done|].
  rewrite insert_by_perm. by rewrite IH.
Qed.

Lemma insert_by_sorted (x : A) (l : list A) :
  StronglySorted key_le l → StronglySorted key_le (insert_by key x l).
Proof.
  induction 1 as [|y l Hl IH Hy]; simpl.
  - repeat constructor.
  - destruct (key x <=? key y)%Z eqn:E.
    + apply Z.leb_le in E. constructor; [by constructor|].
      constructor; [exact E|].
      eapply Forall_impl; [exact Hy|]. intros z Hz. unfold key_le in *. lia.
    + apply Z.leb_gt in E. constructor; [exact IH|].
      rewrite insert_by_perm. constructor; [unfold key_le; lia | exact Hy].
Qed.

Lemma sorted_by_sorted (l : list A) : StronglySorted key_le (sorted_by key l).
Proof.
  induction l as [|x l IH]; simpl; [constructor|]. by apply insert_by_sorted.
Qed.

Lemma sorted_head_least (l : list A) (h : A) :
  StronglySorted key_le l → head l = Some h → ∀ x, x ∈ l → key h ≤ key x.
Proof.
  intros Hs Hh x Hx. destruct l as [|y l]; [done|]. simplify_eq/=.
  apply StronglySorted_inv in Hs as [_ Hall].
  apply elem_of_cons in Hx as [->|Hx]; [lia|].
  rewrite Forall_forall in Hall. by apply Hall.
Qed.

Lemma sorted_last_greatest (l : list A) (z : A) :
  StronglySorted key_le l → last l = Some z → ∀ x, x ∈ l → key x ≤ key z.
Proof.
  induction 1 as [|y l Hl IH Hy]; [done|].
  intros Hz x Hx. destruct l as [|y' l'].
  - simplify_eq/=. apply list_elem_of_singleton in Hx as ->. lia.
  - change (last (y :: y' :: l')) with (last (y' :: l')) in Hz.
    apply elem_of_cons in Hx as [->|Hx]; [|by apply IH].
    rewrite Forall_forall in Hy.
    assert (z ∈ y' :: l') as Hzin.
    { apply list_elem_of_lookup. exists (pred (length (y' :: l'))).
      by rewrite <- last_lookup. }
    by apply Hy.
Qed.

(** The first element of the sorted list is an element of the input with
    the least key, the last one an element with the greatest key. *)
Lemma sorted_by_ends (l : list A) :
  l ≠ [] →
  ∃ lo hi, head (sorted_by key l) = Some lo ∧ last (sorted_by key l) = Some hi
           ∧ lo ∈ l ∧ hi ∈ l
           ∧ ∀ x, x ∈ l → key lo ≤ key x ∧ key x ≤ key hi.
Proof.
  intros Hne.
  pose proof (sorted_by_perm l) as Hp. pose proof (sorted_by_sorted l) as Hs.
  destruct (sorted_by key l) as [|lo t] eqn:E.
  { apply Permutation_nil_l in Hp. congruence. }
  destruct (last (lo :: t)) as [hi|] eqn:El.
  2:{ apply last_None in El. done. }
  exists lo, hi. split; [done|]. split; [done|].
  assert (hi ∈ lo :: t) as Hhi.
  { apply list_elem_of_lookup. exists (pred (length (lo :: t))).
    by rewrite <- last_lookup. }
  split; [rewrite <- Hp; left|]. split; [by rewrite <- Hp|].
  intros x Hx. rewrite <- Hp in Hx. split.
  - by eapply sorted_head_least.
  - by eapply sorted_last_greatest.
Qed.

End SortedBy.

(** The dictionary built by lines 371-376 holds, for a trip, its rows in
    feed order; a trip without rows has no entry. *)
Lemma group_stop_times_from (m : gmap string (list StopTimeRow))
    (rows : list StopTimeRow) (k : string) :
  foldl (λ m line, <[st_trip_id line := default [] (m !! st_trip_id line) ++ [line]]> m)
    m rows !! k
  = match m !! k, filter (λ r, st_trip_id r = k) rows with
    | None, [] => None
    | o, l => Some (default [] o ++ l)
    end.
Proof.
  revert m. induction rows as [|r rows IH]; intros m; simpl.
  - destruct (m !! k); simpl; [by rewrite app_nil_r|done].
  - rewrite IH. rewrite filter_cons. destruct (decide (st_trip_id r = k)) as [->|Hne].
    + rewrite lookup_insert_eq. simpl.
      destruct (m !! k) as [l0|]; simpl;
        destruct (filter _ rows); simpl; by rewrite <- ?app_assoc.
    + by rewrite lookup_insert_ne.
Qed.

Lemma group_stop_times_lookup (rows : list StopTimeRow) (k : string) :
  group_stop_times rows !! k
  = match filter (λ r, st_trip_id r = k) rows with
    | [] => None
    | l => Some l
    end.
Proof.
  unfold group_stop_times. rewrite group_stop_times_from, lookup_empty. done.
Qed.

(** C2. The trip built for a row of [trips.txt] that has stop-time rows
    starts at the departure of a row of the trip whose sequence is the
    least and ends at the arrival of a row of the trip whose sequence is
    the greatest; for the three calls of the example the times are
    08:00:00 and 08:10:00. *)
Theorem trip_start_end (cfg : Config) (ext : Collaborators) (run : Run)
    (stops : gmap string StopPoint) (rows : list StopTimeRow) (line : TripRow)
    (trip : Trip) :
  (∃ r, r ∈ rows ∧ st_trip_id r = trip_id line) →
  build_trip cfg ext run (group_stop_times rows) stops line = Ok trip →
  (∃ first_row last_row,
      first_row ∈ rows ∧ st_trip_id first_row = trip_id line
      ∧ last_row ∈ rows ∧ st_trip_id last_row = trip_id line
      ∧ (∀ r, r ∈ rows → st_trip_id r = trip_id line →
           st_stop_sequence first_row ≤ st_stop_sequence r
           ∧ st_stop_sequence r ≤ st_stop_sequence last_row)
      ∧ tr_start trip = Some (st_departure_time first_row)
      ∧ tr_end trip = Some (st_arrival_time last_row))
  ∧ trip_times Sample.cfg (group_stop_times Sample.three_calls) ∅ "T1"
    = (Some (CStr "08:00:00"), Some (CStr "08:10:00"), None).
Proof.
  intros (r0 & Hr0 & Hid0) Hb. split; [|vm_compute; reflexivity].
  set (mine := filter (λ r, st_trip_id r = trip_id line) rows).
  assert (mine ≠ []) as Hne.
  { intros E. assert (r0 ∈ mine) as Hin by (by apply list_elem_of_filter).
    rewrite E in Hin. by apply not_elem_of_nil in Hin. }
  destruct (sorted_by_ends st_stop_sequence mine Hne)
    as (lo & hi & Hhd & Hla & Hlo & Hhi & Hmin).
  apply list_elem_of_filter in Hlo as [Hlo1 Hlo2].
  apply list_elem_of_filter in Hhi as [Hhi1 Hhi2].
  exists lo, hi. repeat split; try done.
  - apply Hmin. by apply list_elem_of_filter.
  - apply Hmin. by apply list_elem_of_filter.
  - unfold build_trip in Hb.
    repeat case_match; simplify_eq/=.
    match goal with H : trip_times _ _ _ _ = _ |- _ => rename H into Ht end.
    unfold trip_times in Ht. rewrite group_stop_times_lookup in Ht.
    fold mine in Ht. destruct mine eqn:Em; [done|]. rewrite <- Em in *.
    rewrite Hhd, Hla in Ht. by simplify_eq.
  - unfold build_trip in Hb.
    repeat case_match; simplify_eq/=.
    match goal with H : trip_times _ _ _ _ = _ |- _ => rename H into Ht end.
    unfold trip_times in Ht. rewrite group_stop_times_lookup in Ht.
    fold mine in Ht. destruct mine eqn:Em; [done|]. rewrite <- Em in *.
    rewrite Hhd, Hla in Ht. by simplify_eq.
Qed.

Lemma trip_start_end_witness :
  (∃ first_row last_row,
      first_row ∈ Sample.three_calls
      ∧ st_trip_id first_row = trip_id (Sample.trip_row "R1" "T1")
      ∧ last_row ∈ Sample.three_calls
      ∧ st_trip_id last_row = trip_id (Sample.trip_row "R1" "T1")
      ∧ (∀ r, r ∈ Sample.three_calls →
           st_trip_id r = trip_id (Sample.trip_row "R1" "T1") →
           st_stop_sequence first_row ≤ st_stop_sequence r
           ∧ st_stop_sequence r ≤ st_stop_sequence last_row)
      ∧ tr_start Sample.built_T1 = Some (st_departure_time first_row)
      ∧ tr_end Sample.built_T1 = Some (st_arrival_time last_row))
  ∧ trip_times Sample.cfg (group_stop_times Sample.three_calls) ∅ "T1"
    = (Some (CStr "08:00:00"), Some (CStr "08:10:00"), None).
Proof.
  apply (trip_start_end Sample.cfg Sample.ext Sample.run_with_R1 ∅ Sample.three_calls
           (Sample.trip_row "R1" "T1") Sample.built_T1).
  - exists (Sample.stop_time "T1" 1 "08:00:00" "08:00:00" "A").
    split; [left|reflexivity].
  - vm_compute. reflexivity.
Defined.

(** ** Reasoning about store computations *)

Section Stable.

Context (R : Store → Store → Prop) `{!PreOrder R}.

Lemma stable_ret {A} (a : A) : stable R (ret a).
Proof. intros s. reflexivity. Qed.

Lemma stable_raise {A} (e : exn) : stable R (@raise A e).
Proof. intros s. reflexivity. Qed.

Lemma stable_lift {A} (r : result A) : stable R (lift r).
Proof. intros s. reflexivity. Qed.

Lemma stable_query {A} (f : Store → A) : stable R (query f).
Proof. intros s. reflexivity. Qed.

Lemma stable_write (f : Store → Store) : (∀ s, R s (f s)) → stable R (write f).
Proof. intros H s. apply H. Qed.

Lemma stable_bind {A B} (m : M A) (k : A → M B) :
  stable R m → (∀ a, stable R (k a)) → stable R (bind m k).
Proof.
  intros Hm Hk s. unfold bind. specialize (Hm s).
  destruct (m s) as [s1 [a|e]]; simpl in *; [|done].
  etransitivity; [exact Hm|apply Hk].
Qed.

Lemma stable_for_each {A S} (body : A → S → M S) (xs : list A) (acc : S) :
  (∀ x a, stable R (body x a)) → stable R (for_each body xs acc).
Proof.
  intros Hb. revert acc. induction xs as [|x xs IH]; intros acc; simpl.
  - apply stable_ret.
  - apply stable_bind; [apply Hb|apply IH].
Qed.

End Stable.

(** Steps a proof of [stable] through the structure of a computation. *)
Ltac stable_step :=
  first
    [ apply stable_ret; typeclasses eauto
    | apply stable_raise; typeclasses eauto
    | apply stable_lift; typeclasses eauto
    | apply stable_query; typeclasses eauto
    | apply stable_bind; [typeclasses eauto| |intros ?]
    | apply stable_for_each; [typeclasses eauto|intros ? ?]
    | match goal with
      | |- stable _ (match ?x with _ => _ end) => destruct x
      | |- stable _ (if ?x then _ else _) => destruct x
      end ].

#[global] Instance same_stops_preorder : PreOrder same_stops.
Proof.
  split.
  - by intros s.
  - intros s1 s2 s3 [H1 H2] [H3 H4]. split; congruence.
Qed.

Create HintDb same_stops discriminated.

Lemma same_stops_fresh_id : stable same_stops fresh_id.
Proof. by intros s. Qed.

Ltac same_stops_tac :=
  repeat first
    [ solve [auto with same_stops nocore]
    | progress cbv zeta
    | stable_step
    | apply same_stops_fresh_id
    | apply stable_write; intros ?; by split ].

Lemma same_stops_handle_operator cfg line : stable same_stops (handle_operator cfg line).
Proof. unfold handle_operator. same_stops_tac. Qed.
#[local] Hint Resolve same_stops_handle_operator : same_stops.

Lemma same_stops_agencies cfg feed : stable same_stops (agencies_phase cfg feed).
Proof. unfold agencies_phase. same_stops_tac. Qed.
#[local] Hint Resolve same_stops_agencies : same_stops.

Lemma same_stops_handle_route cfg ext line run :
  stable same_stops (handle_route cfg ext line run).
Proof.
  unfold handle_route, save_service, update_or_create_route. same_stops_tac.
Qed.
#[local] Hint Resolve same_stops_handle_route : same_stops.

Lemma same_stops_routes cfg ext feed ops : stable same_stops (routes_phase cfg ext feed ops).
Proof. unfold routes_phase. same_stops_tac. Qed.
#[local] Hint Resolve same_stops_routes : same_stops.

Lemma same_stops_bulk_create ts : stable same_stops (bulk_create_trips ts).
Proof. induction ts; simpl; same_stops_tac. Qed.
#[local] Hint Resolve same_stops_bulk_create : same_stops.

Lemma same_stops_flush st : stable same_stops (flush_trips st).
Proof. unfold flush_trips. same_stops_tac. Qed.
#[local] Hint Resolve same_stops_flush : same_stops.

Lemma same_stops_trips cfg ext run by_trip stops rows :
  stable same_stops (trips_phase cfg ext run by_trip stops rows).
Proof. unfold trips_phase, trip_step. same_stops_tac. Qed.
#[local] Hint Resolve same_stops_trips : same_stops.

Lemma same_stops_stop_times cfg st rows : stable same_stops (stop_times_phase cfg st rows).
Proof. unfold stop_times_phase. same_stops_tac. Qed.
#[local] Hint Resolve same_stops_stop_times : same_stops.

Lemma same_stops_retire cfg run : stable same_stops (retire_phase cfg run).
Proof. unfold retire_phase. same_stops_tac. Qed.
#[local] Hint Resolve same_stops_retire : same_stops.

Lemma same_stops_route_links project substring wkt cfg feed rs stops :
  stable same_stops (do_route_links project substring wkt cfg feed rs stops).
Proof. unfold do_route_links, store_link. same_stops_tac. Qed.
#[local] Hint Resolve same_stops_route_links : same_stops.

Lemma bind_run {A B} (m : M A) (k : A → M B) (s : Store) :
  bind m k s = match m s with
               | (s', Ok a) => k a s'
               | (s', Raise e) => (s', Raise e)
               end.
Proof. reflexivity. Qed.

(** ** Stops *)

Lemma candidate_stop_code cfg line :
  sp_atco_code (candidate_stop cfg line) = prefixed_stop cfg (stop_id line).
Proof.
  unfold candidate_stop, prefixed_stop.
  by destruct (contains _ _ && _); [destruct (split _ _) as [|? [|? [|]]]|].
Qed.

Lemma candidate_stops_from cfg (P : string → StopPoint → Prop) rows
    (m : gmap string StopPoint) :
  (∀ k x, m !! k = Some x → P k x) →
  (∀ line, line ∈ rows →
     P (prefixed_stop cfg (stop_id line)) (candidate_stop cfg line)) →
  ∀ k x,
    foldl (λ m line, let c := candidate_stop cfg line in <[sp_atco_code c := c]> m)
      m rows !! k = Some x →
    P k x.
Proof.
  revert m. induction rows as [|r rows IH]; intros m Hm Hrows k x; simpl; [apply Hm|].
  apply IH.
  - intros k' x'. rewrite lookup_insert. case_decide as Hk.
    + intros [= <-]. rewrite <- Hk, candidate_stop_code. apply Hrows. left.
    + apply Hm.
  - intros line Hin. apply Hrows. by right.
Qed.

(** An entry of the dictionary [stops] is the candidate of a row of the
    feed, filed under its prefixed code. *)
Lemma candidate_stops_lookup cfg rows code c :
  candidate_stops cfg rows !! code = Some c →
  ∃ line, line ∈ rows ∧ c = candidate_stop cfg line
          ∧ code = prefixed_stop cfg (stop_id line).
Proof.
  apply (candidate_stops_from cfg
           (λ k x, ∃ line, line ∈ rows ∧ x = candidate_stop cfg line
                           ∧ k = prefixed_stop cfg (stop_id line))).
  - intros k x. by rewrite lookup_empty.
  - intros line Hin. by exists line.
Qed.

(** A stored stop is in [stops_to_update] exactly when this source or no
    source owns it and its coordinates or its name differ from the
    candidate's. *)
Lemma needs_update_iff cfg e c :
  needs_update cfg e c = true
  ↔ (sp_source e = Some (source_id cfg) ∨ sp_source e = None)
    ∧ (sp_latlong e ≠ sp_latlong c ∨ sp_common_name e ≠ sp_common_name c).
Proof.
  unfold needs_update.
  rewrite andb_true_iff, !orb_true_iff, !bool_decide_eq_true. done.
Qed.

Lemma do_stops_table cfg feed s :
  stop_points (do_stops cfg feed s).1
  = merge (reconcile_stop cfg (admin_areas s)) (stop_points s)
      (candidate_stops cfg (feed_stops feed)).
Proof. reflexivity. Qed.

(** The stop table after a run is the table before it, or the table that
    [do_stops] makes of it. *)
Lemma handle_zipfile_stop_points project substring wkt cfg ext feed s :
  let s' := (handle_zipfile project substring wkt cfg ext feed s).1 in
  stop_points s' = stop_points s
  ∨ stop_points s'
    = merge (reconcile_stop cfg (admin_areas s)) (stop_points s)
        (candidate_stops cfg (feed_stops feed)).
Proof.
  unfold handle_zipfile. rewrite bind_run.
  pose proof (same_stops_agencies cfg feed s) as [H1 H1'].
  destruct (agencies_phase cfg feed s) as [s1 [ops|e]]; simpl in *; [|by left].
  rewrite bind_run.
  pose proof (same_stops_routes cfg ext feed ops s1) as [H2 H2'].
  destruct (routes_phase cfg ext feed ops s1) as [s2 [run|e]]; simpl in *;
    [|left; congruence].
  rewrite bind_run.
  pose proof (do_stops_table cfg feed s2) as H3.
  destruct (do_stops cfg feed s2) as [s3 [stops|e]] eqn:E3; simpl in *.
  2:{ right. rewrite H3. congruence. }
  right. rewrite <- H1, <- H2, <- H1', <- H2', <- H3.
  match goal with
  | |- stop_points (?m s3).1 = _ =>
      assert (stable same_stops m) as Hm
  end.
  { same_stops_tac. }
  apply Hm.
Qed.

(** C4. In a run for the source of [cfg], the row stored under a code
    either stays as it was or it is owned by that source or by none and
    its coordinates or name differ from those of the feed's stop row with
    that prefixed code; the rows written by [bulk_update] are exactly the
    rows of that kind; and the row of a stop owned by another source is
    the same after the run. *)
Theorem stop_ownership (project : list Point → Point → Q)
    (substring : list Point → Q → Q → Geom) (wkt : list Point → string)
    (cfg : Config) (ext : Collaborators) (feed : Feed) (s : Store)
    (code : string) (e : StopPoint) :
  stop_points s !! code = Some e →
  let s' := (handle_zipfile project substring wkt cfg ext feed s).1 in
  (stop_points s' !! code ≠ Some e →
     (sp_source e = Some (source_id cfg) ∨ sp_source e = None)
     ∧ ∃ line, line ∈ feed_stops feed
               ∧ code = prefixed_stop cfg (stop_id line)
               ∧ (sp_latlong e ≠ sp_latlong (candidate_stop cfg line)
                  ∨ sp_common_name e ≠ sp_common_name (candidate_stop cfg line)))
  ∧ (∀ c, needs_update cfg e c = true
          ↔ (sp_source e = Some (source_id cfg) ∨ sp_source e = None)
            ∧ (sp_latlong e ≠ sp_latlong c ∨ sp_common_name e ≠ sp_common_name c))
  ∧ (∀ other, sp_source e = Some other → other ≠ source_id cfg →
              stop_points s' !! code = Some e).
Proof.
  intros He s'.
  assert (stop_points s' !! code = Some e
          ∨ ∃ c, candidate_stops cfg (feed_stops feed) !! code = Some c
                 ∧ needs_update cfg e c = true) as Hcases.
  { destruct (handle_zipfile_stop_points project substring wkt cfg ext feed s)
      as [Hs | Hs]; fold s' in Hs; rewrite Hs; [by left|].
    rewrite lookup_merge, He.
    destruct (candidate_stops cfg (feed_stops feed) !! code) as [c|] eqn:Ec; simpl.
    - destruct (needs_update cfg e c) eqn:En; [right; by exists c|by left].
    - by left. }
  split; [|split].
  - intros Hne. destruct Hcases as [?|(c & Hc & Hn)]; [done|].
    apply needs_update_iff in Hn as [Hown Hdiff]. split; [done|].
    apply candidate_stops_lookup in Hc as (line & Hin & -> & Hcode).
    by exists line.
  - intros c. apply needs_update_iff.
  - intros other Ho Hne. destruct Hcases as [?|(c & Hc & Hn)]; [done|].
    apply needs_update_iff in Hn as [[Hown | Hown] _]; congruence.
Qed.

Lemma stop_ownership_witness :
  let s' := (handle_zipfile Sample.project Sample.substring Sample.wkt Sample.cfg
               Sample.ext Sample.feed_with_unknown_route
               Sample.store_with_foreign_stop).1 in
  (stop_points s' !! "demo-A" ≠ Some Sample.foreign_stop →
     (sp_source Sample.foreign_stop = Some (source_id Sample.cfg)
      ∨ sp_source Sample.foreign_stop = None)
     ∧ ∃ line, line ∈ feed_stops Sample.feed_with_unknown_route
               ∧ "demo-A" = prefixed_stop Sample.cfg (stop_id line)
               ∧ (sp_latlong Sample.foreign_stop
                  ≠ sp_latlong (candidate_stop Sample.cfg line)
                  ∨ sp_common_name Sample.foreign_stop
                    ≠ sp_common_name (candidate_stop Sample.cfg line)))
  ∧ (∀ c, needs_update Sample.cfg Sample.foreign_stop c = true
          ↔ (sp_source Sample.foreign_stop = Some (source_id Sample.cfg)
             ∨ sp_source Sample.foreign_stop = None)
            ∧ (sp_latlong Sample.foreign_stop ≠ sp_latlong c
               ∨ sp_common_name Sample.foreign_stop ≠ sp_common_name c))
  ∧ (∀ other, sp_source Sample.foreign_stop = Some other →
              other ≠ source_id Sample.cfg →
              stop_points s' !! "demo-A" = Some Sample.foreign_stop).
Proof.
  apply (stop_ownership Sample.project Sample.substring Sample.wkt Sample.cfg
           Sample.ext Sample.feed_with_unknown_route Sample.store_with_foreign_stop
           "demo-A" Sample.foreign_stop).
  reflexivity.
Defined.

(** ** Matching a route row to a service *)

Lemma first_by_id_least (svs : list Service) :
  match first_by_id svs with
  | Some m => m ∈ svs ∧ ∀ x, x ∈ svs → sv_id m ≤ sv_id x
  | None => svs = []
  end.
Proof.
  induction svs as [|sv rest IH]; simpl; [done|].
  destruct (first_by_id rest) as [m|].
  - destruct IH as [Hin Hle]. destruct (sv_id sv <=? sv_id m) eqn:E.
    + apply Z.leb_le in E. split; [left|].
      intros x [->|Hx]%elem_of_cons; [lia|]. specialize (Hle x Hx). lia.
    + apply Z.leb_gt in E. split; [by right|].
      intros x [->|Hx]%elem_of_cons; [lia|]. by apply Hle.
  - subst rest. split; [left|]. intros x [->|Hx]%elem_of_cons; [lia|].
    by apply not_elem_of_nil in Hx.
Qed.

(** C5, as the code has it.  The service taken for a route row is the one
    with the least id among the services of the operator that meet any of
    the criteria; there is no order among the criteria.  The criteria are:
    a route with the row's code points to the service; the service code
    is the row's code; the line name matches without regard to case, when
    the row's line name is not empty and not "rail" or "InterCity"; the
    description is the row's, when the line name is not used and the
    description is not empty.  Without such a service none is taken. *)
Theorem find_service_least_id (s : Store) (operator : option Operator)
    (code line_name description : string) :
  match find_service s operator code line_name description with
  | Some sv =>
      sv ∈ services s
      ∧ service_of_operator operator sv = true
      ∧ service_query (routes s) code line_name description sv = true
      ∧ ∀ sv', sv' ∈ services s →
               service_of_operator operator sv' = true →
               service_query (routes s) code line_name description sv' = true →
               sv_id sv ≤ sv_id sv'
  | None =>
      ∀ sv', sv' ∈ services s →
             service_of_operator operator sv' = true →
             service_query (routes s) code line_name description sv' = false
  end
  ∧ ∀ sv, service_query (routes s) code line_name description sv
          = (existsb (λ r, String.eqb (rt_code r) code
                           && bool_decide (rt_service r = Some (sv_id sv))) (routes s)
             || String.eqb (sv_service_code sv) code
             || (line_name_usable line_name && iexact (sv_line_name sv) line_name)
             || (negb (line_name_usable line_name) && truthy description
                 && String.eqb (sv_description sv) description)).
Proof.
  split; [|reflexivity].
  unfold find_service.
  pose proof (first_by_id_least
                (filter (λ sv, service_of_operator operator sv
                               && service_query (routes s) code line_name description sv
                               = true) (services s))) as H.
  destruct (first_by_id _) as [m|].
  - destruct H as [Hin Hle]. apply list_elem_of_filter in Hin as [Hq Hin].
    apply andb_true_iff in Hq as [Ho Hq]. repeat split; try done.
    intros sv' Hin' Ho' Hq'. apply Hle. apply list_elem_of_filter.
    split; [|done]. by rewrite Ho', Hq'.
  - intros sv' Hin' Ho'.
    destruct (service_query (routes s) code line_name description sv') eqn:Hq'; [|done].
    assert (sv' ∈ filter (λ sv, service_of_operator operator sv
                                && service_query (routes s) code line_name description sv
                                = true) (services s)) as Hf.
    { apply list_elem_of_filter. split; [|done]. by rewrite Ho', Hq'. }
    rewrite H in Hf. by apply not_elem_of_nil in Hf.
Qed.

(** C5 as stated fails: the second service has the route R1, the first
    one only shares the line name of the row, and the first one is
    taken. *)
Lemma find_service_ignores_priority :
  Sample.service_by_route ∈ services Sample.two_services
  ∧ service_of_operator None Sample.service_by_route = true
  ∧ has_route_with_code (routes Sample.two_services) "R1" Sample.service_by_route = true
  ∧ find_service Sample.two_services None "R1" "10" "" = Some Sample.service_by_name
  ∧ has_route_with_code (routes Sample.two_services) "R1" Sample.service_by_name = false.
Proof.
  split; [right; left|]. repeat split; vm_compute; reflexivity.
Qed.

(** ** Route links *)

Section RouteLinkFacts.

Variable project : list Point → Point → Q.
Variable substring : list Point → Q → Q → Geom.
Variable wkt : list Point → string.


End RouteLinkFacts.


(** ** Routes and their trips *)

Lemma NoDup_map_inj {A B} (f : A → B) (l : list A) (x y : A) :
  NoDup (map f l) → x ∈ l → y ∈ l → f x = f y → x = y.
Proof.
  induction l as [|a l IH]; simpl; intros Hnd Hx Hy Hf.
  - by apply not_elem_of_nil in Hx.
  - apply NoDup_cons in Hnd as [Hna Hnd].
    apply elem_of_cons in Hx as [->|Hx]; apply elem_of_cons in Hy as [->|Hy]; auto.
    + exfalso. apply Hna. rewrite Hf. apply list_elem_of_In, in_map, list_elem_of_In, Hy.
    + exfalso. apply Hna. rewrite <- Hf.
      apply list_elem_of_In, in_map, list_elem_of_In, Hx.
Qed.

#[global] Instance same_timetable_preorder : PreOrder same_timetable.
Proof.
  split.
  - intros s. unfold same_timetable. repeat split; lia.
  - intros s1 s2 s3 (? & ? & ? & ?) (? & ? & ? & ?). unfold same_timetable.
    repeat split; try congruence. lia.
Qed.

Lemma wf_same_timetable s s' : same_timetable s s' → wf s → wf s'.
Proof.
  intros (Hr & Ht & Hst & Hn) [H1 H2 H3 H4 H5].
  split; rewrite ?Hr, ?Ht, ?Hst; try done.
  - intros r Hin. specialize (H3 r Hin). lia.
  - intros t Hin. specialize (H4 t Hin). lia.
  - intros st Hin. specialize (H5 st Hin). lia.
Qed.

Create HintDb same_timetable discriminated.

Lemma same_timetable_fresh_id : stable same_timetable fresh_id.
Proof. intros s. unfold same_timetable. simpl. repeat split; lia. Qed.

Ltac same_timetable_tac :=
  repeat first
    [ solve [auto with same_timetable nocore]
    | progress cbv zeta
    | stable_step
    | apply same_timetable_fresh_id
    | apply stable_write; intros ?; unfold same_timetable; simpl;
      repeat split; (done || lia) ].

Lemma same_timetable_handle_operator cfg line :
  stable same_timetable (handle_operator cfg line).
Proof. unfold handle_operator. same_timetable_tac. Qed.
#[local] Hint Resolve same_timetable_handle_operator : same_timetable.

Lemma same_timetable_agencies cfg feed : stable same_timetable (agencies_phase cfg feed).
Proof. unfold agencies_phase. same_timetable_tac. Qed.
#[local] Hint Resolve same_timetable_agencies : same_timetable.

Lemma same_timetable_save_service cfg ext line run operator line_name description :
  stable same_timetable (save_service cfg ext line run operator line_name description).
Proof. unfold save_service. same_timetable_tac. Qed.
#[local] Hint Resolve same_timetable_save_service : same_timetable.

Lemma same_timetable_do_stops cfg feed : stable same_timetable (do_stops cfg feed).
Proof. unfold do_stops. same_timetable_tac. Qed.
#[local] Hint Resolve same_timetable_do_stops : same_timetable.

(** [save_service] always returns. *)
Lemma save_service_returns cfg ext line run operator line_name description s :
  ∃ sv, (save_service cfg ext line run operator line_name description s).2 = Ok sv.
Proof.
  unfold save_service. rewrite bind_run. unfold query.
  destruct (find_service s operator (route_id line) line_name description);
    destruct operator; simpl; eauto.
Qed.

Lemma replace_route_ids r rs : map rt_id (replace_route r rs) = map rt_id rs.
Proof.
  unfold replace_route. rewrite map_map. apply map_ext.
  intros x. destruct (rt_id x =? rt_id r) eqn:E; [|done]. apply Z.eqb_eq in E. done.
Qed.

Lemma replace_route_keys r rs :
  (∀ x, x ∈ rs → rt_id x = rt_id r → route_key x = route_key r) →
  map route_key (replace_route r rs) = map route_key rs.
Proof.
  intros H. unfold replace_route. rewrite map_map. apply map_ext_in.
  intros x Hx%list_elem_of_In. destruct (rt_id x =? rt_id r) eqn:E; [|done].
  apply Z.eqb_eq in E. symmetry. by apply H.
Qed.

Lemma elem_of_replace_route r rs x :
  x ∈ replace_route r rs ↔
  (x = r ∧ ∃ y, y ∈ rs ∧ rt_id y = rt_id r) ∨ (x ∈ rs ∧ rt_id x ≠ rt_id r).
Proof.
  unfold replace_route. rewrite list_elem_of_In, in_map_iff. split.
  - intros (y & Hy & Hin%list_elem_of_In).
    destruct (rt_id y =? rt_id r) eqn:E.
    + apply Z.eqb_eq in E. left. split; [done|]. by exists y.
    + apply Z.eqb_neq in E. subst. by right.
  - intros [(-> & y & Hin & E) | (Hin & E)].
    + exists y. apply Z.eqb_eq in E. rewrite E. split; [done|by apply list_elem_of_In].
    + exists x. apply Z.eqb_neq in E. rewrite E. split; [done|by apply list_elem_of_In].
Qed.

Lemma elem_of_filter_key cfg line (rs : list Route) old :
  old ∈ filter (λ r, rt_source r = source_id cfg ∧ rt_code r = route_id line) rs
  ↔ old ∈ rs ∧ route_key old = (source_id cfg, route_id line).
Proof.
  rewrite list_elem_of_filter. unfold route_key. split.
  - intros [[-> ->] ?]. done.
  - intros [? [= -> ->]]. done.
Qed.

(** Under unique keys the query of [update_or_create] finds at most one
    route. *)
Lemma filter_key_unique cfg line (rs : list Route) :
  NoDup (map route_key rs) →
  filter (λ r, rt_source r = source_id cfg ∧ rt_code r = route_id line) rs = []
  ∨ ∃ old, filter (λ r, rt_source r = source_id cfg ∧ rt_code r = route_id line) rs
           = [old].
Proof.
  induction rs as [|r rs IH]; simpl; intros Hnd; [by left|].
  apply NoDup_cons in Hnd as [Hnotin Hnd]. rewrite filter_cons.
  destruct (decide _) as [[Hs Hc]|Hn].
  - right. exists r. f_equal.
    destruct (filter _ rs) as [|x l] eqn:E; [done|]. exfalso.
    assert (x ∈ filter (λ r, rt_source r = source_id cfg ∧ rt_code r = route_id line) rs)
      as Hx by (rewrite E; left).
    apply elem_of_filter_key in Hx as [Hin Hk]. apply Hnotin.
    replace (route_key r) with (route_key x)
      by (rewrite Hk; unfold route_key; by rewrite Hs, Hc).
    apply list_elem_of_In, in_map, list_elem_of_In, Hin.
  - by apply IH.
Qed.

(** What [update_or_create_route] does to a store that meets the
    constraints: it returns a route [r] with the key of the row; no second
    route with that key appears; the routes that were there keep their id
    and key; no trip is attached to [r] afterwards, and no stop time
    belongs to a trip that was attached to it. *)
Lemma update_or_create_route_spec cfg line service s :
  wf s →
  ∃ s' r,
    update_or_create_route cfg line service s = (s', Ok r)
    ∧ wf s'
    ∧ next_id s ≤ next_id s'
    ∧ r ∈ routes s' ∧ route_key r = (source_id cfg, route_id line)
    ∧ (∀ x, x ∈ routes s →
            ∃ x', x' ∈ routes s' ∧ rt_id x' = rt_id x ∧ route_key x' = route_key x)
    ∧ (∀ t, t ∈ trips s' → t ∈ trips s ∧ tr_route t ≠ rt_id r)
    ∧ (∀ st, st ∈ stop_times s' →
             st ∈ stop_times s
             ∧ ∀ t, t ∈ trips s → tr_route t = rt_id r → stm_trip st ≠ tr_id t)
    ∧ (∀ old, old ∈ routes s → route_key old = (source_id cfg, route_id line) →
              rt_id r = rt_id old ∧ length (routes s') = length (routes s)).
Proof.
  intros [Hids Hkeys Hrb Htb Hsb].
  unfold update_or_create_route. rewrite bind_run. unfold query.
  destruct (filter_key_unique cfg line (routes s) Hkeys) as [E | [old E]]; rewrite E.
  - (* no route has the key: one is created *)
    eexists _, _. split; [reflexivity|]. simpl.
    assert (∀ x, x ∈ routes s → route_key x ≠ (source_id cfg, route_id line)) as Hnone.
    { intros x Hx Hk.
      assert (x ∈ filter (λ r, rt_source r = source_id cfg ∧ rt_code r = route_id line)
                    (routes s)) as Hf by (by apply elem_of_filter_key).
      rewrite E in Hf. by apply not_elem_of_nil in Hf. }
    split; [|split; [lia|]]; [|split; [|split; [|split; [|split; [|split]]]]].
    + split; simpl.
      * rewrite map_app. simpl. apply NoDup_app. split; [done|]. split.
        -- intros i Hi [->|Hn]%elem_of_cons; [|by apply not_elem_of_nil in Hn].
           apply list_elem_of_In, in_map_iff in Hi as (x & Hx & Hin%list_elem_of_In).
           specialize (Hrb x Hin). lia.
        -- apply NoDup_singleton.
      * rewrite map_app. simpl. apply NoDup_app. split; [done|]. split.
        -- intros k Hk [->|Hn]%elem_of_cons; [|by apply not_elem_of_nil in Hn].
           apply list_elem_of_In, in_map_iff in Hk as (x & Hx & Hin%list_elem_of_In).
           by apply (Hnone x Hin).
        -- apply NoDup_singleton.
      * intros r [Hin|Hin]%elem_of_app.
        -- specialize (Hrb r Hin). lia.
        -- apply list_elem_of_singleton in Hin as ->. simpl. lia.
      * intros t Hin. specialize (Htb t Hin). lia.
      * intros st Hin. specialize (Hsb st Hin). lia.
    + apply elem_of_app. right. left.
    + reflexivity.
    + intros x Hx. exists x. split; [|done]. apply elem_of_app. by left.
    + intros t Hin. split; [done|]. specialize (Htb t Hin). simpl. lia.
    + intros st Hin. split; [done|]. intros t Ht Hr. specialize (Htb t Ht).
      simpl in Hr. lia.
    + intros old Hin Hk. by destruct (Hnone old Hin).
  - (* one route has the key: it is updated and its trips go *)
    assert (old ∈ routes s ∧ route_key old = (source_id cfg, route_id line))
      as [Hold Hkold].
    { apply elem_of_filter_key. rewrite E. left. }
    set (r := {| rt_id := rt_id old; rt_source := rt_source old; rt_code := rt_code old;
                 rt_line_name := sv_line_name service;
                 rt_description := sv_description service;
                 rt_service := Some (sv_id service) |}).
    assert (∀ x, x ∈ routes s → rt_id x = rt_id r → x = old) as Hsame.
    { intros x Hx Hi. by apply (NoDup_map_inj rt_id (routes s)). }
    eexists _, r. split; [reflexivity|]. simpl.
    split; [|split; [lia|]]; [|split; [|split; [|split; [|split; [|split]]]]].
    + split; simpl.
      * by rewrite replace_route_ids.
      * rewrite replace_route_keys; [done|].
        intros x Hx Hi. by rewrite (Hsame x Hx Hi).
      * intros x [(-> & _) | (Hin & _)]%elem_of_replace_route; [|by apply Hrb].
        by apply (Hrb old).
      * intros t [_ Hin]%list_elem_of_filter. by apply Htb.
      * intros st [_ Hin]%list_elem_of_filter. by apply Hsb.
    + apply elem_of_replace_route. left. split; [done|]. by exists old.
    + exact Hkold.
    + intros x Hx. destruct (decide (rt_id x = rt_id r)) as [Hi|Hi].
      * exists r. split; [|split; [done|]].
        -- apply elem_of_replace_route. left. split; [done|]. by exists old.
        -- by rewrite (Hsame x Hx Hi).
      * exists x. split; [|done]. apply elem_of_replace_route. by right.
    + intros t [Hne Hin]%list_elem_of_filter. done.
    + intros st [Hgone Hin]%list_elem_of_filter. split; [done|].
      intros t Ht Hr Heq.
      assert (existsb (λ tr, (tr_id tr =? stm_trip st) && (tr_route tr =? rt_id old))
                (trips s) = true) as Hex.
      { apply existsb_exists. exists t. split; [by apply list_elem_of_In|].
        apply andb_true_iff. split; apply Z.eqb_eq; [done|exact Hr]. }
      congruence.
    + intros old' Hin' Hk'.
      assert (old' ∈ filter (λ r, rt_source r = source_id cfg ∧ rt_code r = route_id line)
                       (routes s)) as Hf by (by apply elem_of_filter_key).
      rewrite E in Hf. apply list_elem_of_singleton in Hf as ->. split; [done|].
      unfold replace_route. by rewrite length_map.
Qed.

(** [handle_route] on a store that meets the constraints. *)
Lemma handle_route_spec cfg ext line run s :
  wf s →
  ∃ s' run' r,
    handle_route cfg ext line run s = (s', Ok run')
    ∧ run_routes run' = <[route_id line := r]> (run_routes run)
    ∧ wf s'
    ∧ next_id s ≤ next_id s'
    ∧ r ∈ routes s' ∧ route_key r = (source_id cfg, route_id line)
    ∧ (∀ x, x ∈ routes s →
            ∃ x', x' ∈ routes s' ∧ rt_id x' = rt_id x ∧ route_key x' = route_key x)
    ∧ (∀ t, t ∈ trips s' → t ∈ trips s ∧ tr_route t ≠ rt_id r)
    ∧ (∀ st, st ∈ stop_times s' →
             st ∈ stop_times s
             ∧ ∀ t, t ∈ trips s → tr_route t = rt_id r → stm_trip st ≠ tr_id t)
    ∧ (∀ old, old ∈ routes s → route_key old = (source_id cfg, route_id line) →
              rt_id r = rt_id old ∧ length (routes s') = length (routes s)).
Proof.
  intros Hwf. unfold handle_route. cbv zeta. rewrite bind_run.
  pose proof (same_timetable_save_service cfg ext line run
                (route_operator cfg run line) (route_names line).1
                (route_names line).2 s) as Hsame.
  destruct (save_service_returns cfg ext line run (route_operator cfg run line)
              (route_names line).1 (route_names line).2 s) as [sv Hsv].
  destruct (save_service cfg ext line run (route_operator cfg run line)
              (route_names line).1 (route_names line).2 s) as [s1 res].
  simpl in Hsame, Hsv. subst res.
  pose proof (wf_same_timetable _ _ Hsame Hwf) as Hwf1.
  destruct Hsame as (Hr & Ht & Hst & Hn).
  destruct (update_or_create_route_spec cfg line sv s1 Hwf1)
    as (s' & r & Hrun & Hwf' & Hn' & Hin & Hk & Hkept & Htrips & Hstops & Hold).
  rewrite bind_run, Hrun. simpl.
  rewrite Hr, Ht, Hst in *.
  eexists s', _, r. split; [reflexivity|]. simpl.
  split; [done|]. split; [done|]. split; [lia|]. split; [done|].
  split; [done|]. split; [done|]. split; [done|]. split; [done|done].
Qed.

(** The loop over the route rows keeps [routes_inv] and always returns. *)
Lemma routes_loop cfg ext s0 rows :
  ∀ handled run s,
    routes_inv cfg s0 handled s run →
    ∃ s' run',
      for_each (handle_route cfg ext) rows run s = (s', Ok run')
      ∧ routes_inv cfg s0 (handled ++ rows) s' run'.
Proof.
  induction rows as [|line rows IH]; intros handled run s Hinv.
  - exists s, run. split; [reflexivity|]. by rewrite app_nil_r.
  - destruct Hinv as [Hwf Hn Ht Hst Hkept Hrun Hh].
    destruct (handle_route_spec cfg ext line run s Hwf)
      as (s1 & run1 & r & Hrun1 & Hrr & Hwf1 & Hn1 & Hin & Hk & Hkept1 & Htrips
          & Hstops & _).
    destruct (IH (handled ++ [line]) run1 s1) as (s' & run' & Hfor & Hinv').
    { split.
      - done.
      - lia.
      - intros t Hin'. apply Ht. by apply Htrips.
      - intros st Hin'. apply Hst. by apply Hstops.
      - intros x Hx. destruct (Hkept x Hx) as (x1 & Hx1 & Hi1 & Hk1).
        destruct (Hkept1 x1 Hx1) as (x2 & Hx2 & Hi2 & Hk2).
        exists x2. split; [done|]. split; congruence.
      - intros k r'. rewrite Hrr, lookup_insert. case_decide as Hc.
        + intros [= <-]. split.
          * exists r. by rewrite <- Hc.
          * intros t Hin'. by apply Htrips.
        + intros Hl. destruct (Hrun k r' Hl) as [(x & Hx & Hi & Hkx) Hno]. split.
          * destruct (Hkept1 x Hx) as (x' & Hx' & Hi' & Hk').
            exists x'. split; [done|]. split; congruence.
          * intros t Hin'. apply Hno. by apply Htrips.
      - intros l [Hl|Hl]%elem_of_app.
        + rewrite Hrr, lookup_insert. case_decide; [by eexists|by apply Hh].
        + apply list_elem_of_singleton in Hl as ->. rewrite Hrr, lookup_insert_eq.
          by eexists. }
    exists s', run'. split.
    + simpl. rewrite bind_run, Hrun1. exact Hfor.
    + by rewrite <- app_assoc in Hinv'.
Qed.

(** ** The trip loop *)

Lemma for_each_inv {A S} (body : A → S → M S) (P : Store → Prop) (Q : Store → S → Prop) :
  (∀ x a s, P s → Q s a →
     P (body x a s).1 ∧ ∀ a', (body x a s).2 = Ok a' → Q (body x a s).1 a') →
  ∀ xs a s, P s → Q s a →
    P (for_each body xs a s).1
    ∧ ∀ a', (for_each body xs a s).2 = Ok a' → Q (for_each body xs a s).1 a'.
Proof.
  intros Hb xs. induction xs as [|x xs IH]; intros a s HP HQ; simpl.
  - split; [done|]. by intros a' [= <-].
  - rewrite bind_run. destruct (Hb x a s HP HQ) as [HP1 HQ1].
    destruct (body x a s) as [s1 [a1|e]]; simpl in *.
    + apply IH; [done|]. by apply HQ1.
    + split; [done|]. intros a' [=].
Qed.

Section TripLoop.

Variables (cfg : Config) (ext : Collaborators) (run : Run).
Variables (by_trip : gmap string (list StopTimeRow)) (stops : gmap string StopPoint).
Variables (s0 s3 : Store).
Hypothesis Hbase : next_id s0 ≤ next_id s3.
Hypothesis Hrun : ∀ i, run_route_id run i → i < next_id s3.

Lemma build_trip_route line trip :
  build_trip cfg ext run by_trip stops line = Ok trip →
  run_route_id run (tr_route trip).
Proof.
  unfold build_trip. intros H. repeat case_match; simplify_eq/=.
  by eexists _, _.
Qed.

Lemma bulk_create_trips_cons t ts s :
  bulk_create_trips (t :: ts) s
  = match bulk_create_trips ts
            (with_trips (λ l, l ++ [with_key (next_id s) t])
               (with_next_id (next_id s + 1) s)) with
    | (s', Ok rest) => (s', Ok (with_key (next_id s) t :: rest))
    | (s', Raise e) => (s', Raise e)
    end.
Proof. reflexivity. Qed.

Lemma bulk_create_trips_spec ts s :
  trips_inv run s0 s3 s →
  (∀ t, t ∈ ts → run_route_id run (tr_route t)) →
  ∃ s' stored,
    bulk_create_trips ts s = (s', Ok stored)
    ∧ trips_inv run s0 s3 s'
    ∧ next_id s ≤ next_id s'
    ∧ ∀ t, t ∈ stored → tr_id t < next_id s'.
Proof.
  revert s. induction ts as [|t ts IH]; intros s Hinv Hts.
  - exists s, []. split; [reflexivity|]. split; [done|]. split; [lia|].
    intros t Ht. by apply not_elem_of_nil in Ht.
  - destruct Hinv as [[Hids Hkeys Hrb Htb Hsb] Hr Hst Hn Htr].
    set (s1 := with_trips (λ l, l ++ [with_key (next_id s) t])
                 (with_next_id (next_id s + 1) s)).
    destruct (IH s1) as (s' & stored & Hrun' & Hinv' & Hn' & Hst').
    { split.
      - split; simpl; try done.
        + intros r Hin. specialize (Hrb r Hin). lia.
        + intros x [Hin|Hin]%elem_of_app.
          * specialize (Htb x Hin). lia.
          * apply list_elem_of_singleton in Hin as ->. simpl. split; [lia|].
            assert (tr_route t < next_id s3); [|lia].
            apply Hrun, Hts. left.
        + intros st Hin. specialize (Hsb st Hin). lia.
      - done.
      - done.
      - simpl. lia.
      - simpl. intros x [Hin|Hin]%elem_of_app; [by apply Htr|].
        apply list_elem_of_singleton in Hin as ->. right. simpl.
        split; [lia|]. apply Hts. left. }
    { intros x Hx. apply Hts. by right. }
    exists s', (with_key (next_id s) t :: stored). split.
    + rewrite bulk_create_trips_cons. fold s1. by rewrite Hrun'.
    + split; [done|]. split; [simpl in Hn'; lia|].
      intros x [->|Hx]%elem_of_cons; [simpl in *; lia|by apply Hst'].
Qed.

Lemma noted_keys_bound (n : Z) (stored : list Trip) :
  ∀ m : gmap string Z,
    (∀ k pk, m !! k = Some pk → pk < n) →
    (∀ t, t ∈ stored → tr_id t < n) →
    ∀ k pk,
      foldl (λ m t, <[tr_ticket_machine_code t := tr_id t]> m) m stored !! k = Some pk →
      pk < n.
Proof.
  induction stored as [|t stored IH]; intros m Hm Hs k pk; simpl; [apply Hm|].
  apply IH.
  - intros k' pk'. rewrite lookup_insert. case_decide.
    + intros [= <-]. apply Hs. left.
    + apply Hm.
  - intros x Hx. apply Hs. by right.
Qed.

Lemma flush_trips_spec st s :
  trips_inv run s0 s3 s → loop_inv run s st →
  ∃ s' st',
    flush_trips st s = (s', Ok st')
    ∧ trips_inv run s0 s3 s' ∧ loop_inv run s' st'.
Proof.
  intros Hinv [Hv Hpk].
  destruct (bulk_create_trips_spec (valid_trips st) s Hinv Hv)
    as (s' & stored & Hrun' & Hinv' & Hn' & Hst').
  eexists s', _. split.
  { unfold flush_trips. rewrite bind_run, Hrun'. reflexivity. }
  split; [done|]. split; simpl.
  - intros t Ht. by apply not_elem_of_nil in Ht.
  - apply noted_keys_bound; [|done].
    intros k pk Hl. specialize (Hpk k pk Hl). lia.
Qed.

Lemma trip_step_spec line st s :
  trips_inv run s0 s3 s → loop_inv run s st →
  trips_inv run s0 s3 (trip_step cfg ext run by_trip stops line st s).1
  ∧ ∀ st', (trip_step cfg ext run by_trip stops line st s).2 = Ok st' →
           loop_inv run (trip_step cfg ext run by_trip stops line st s).1 st'.
Proof.
  intros Hinv Hloop. unfold trip_step. rewrite bind_run. unfold lift.
  destruct (build_trip cfg ext run by_trip stops line) as [trip|e] eqn:Hb;
    cbv beta iota.
  2:{ split; [done|]. intros st' [=]. }
  apply build_trip_route in Hb.
  destruct (tr_start trip).
  2:{ split; [done|]. by intros st' [= <-]. }
  cbv zeta.
  set (st1 := {| valid_trips := valid_trips st ++ [trip];
                 created_trip_ids := {[trip_id line]} ∪ created_trip_ids st;
                 trip_id_to_pk := trip_id_to_pk st |}).
  assert (loop_inv run s st1) as Hloop1.
  { destruct Hloop as [Hv Hpk]. split; simpl; [|done].
    intros t [Hin|Hin]%elem_of_app; [by apply Hv|].
    by apply list_elem_of_singleton in Hin as ->. }
  destruct (1000 <=? length (valid_trips st1))%nat.
  - destruct (flush_trips_spec st1 s Hinv Hloop1) as (s' & st' & -> & Hinv' & Hloop').
    split; [done|]. by intros ? [= <-].
  - split; [done|]. by intros ? [= <-].
Qed.

Lemma trips_phase_spec rows s :
  trips_inv run s0 s3 s →
  trips_inv run s0 s3 (trips_phase cfg ext run by_trip stops rows s).1
  ∧ ∀ st, (trips_phase cfg ext run by_trip stops rows s).2 = Ok st →
          loop_inv run (trips_phase cfg ext run by_trip stops rows s).1 st.
Proof.
  intros Hinv. unfold trips_phase. rewrite bind_run.
  destruct (for_each_inv (trip_step cfg ext run by_trip stops)
              (trips_inv run s0 s3) (loop_inv run) trip_step_spec rows
              {| valid_trips := []; created_trip_ids := ∅; trip_id_to_pk := ∅ |} s Hinv)
    as [HP HQ].
  { split; simpl.
    - intros t Ht. by apply not_elem_of_nil in Ht.
    - intros k pk. by rewrite lookup_empty. }
  destruct (for_each _ _ _ _) as [s1 [st|e]]; simpl in *.
  2:{ split; [done|]. intros ? [=]. }
  specialize (HQ st eq_refl).
  destruct (valid_trips st) eqn:Ev.
  - split; [done|]. by intros ? [= <-].
  - destruct (flush_trips_spec st s1 HP HQ) as (s' & st' & -> & Hinv' & Hloop').
    split; [done|]. by intros ? [= <-].
Qed.

End TripLoop.

(** ** The whole run *)

Lemma stable_weaken {A} (R R' : Store → Store → Prop) (m : M A) :
  (∀ s s', R s s' → R' s s') → stable R m → stable R' m.
Proof. intros H Hm s. apply H, Hm. Qed.

#[global] Instance same_schedule_preorder : PreOrder same_schedule.
Proof.
  split.
  - intros s. unfold same_schedule. repeat split; lia.
  - intros s1 s2 s3 (? & ? & ? & ?) (? & ? & ? & ?). unfold same_schedule.
    repeat split; try congruence. lia.
Qed.

Lemma same_timetable_schedule s s' : same_timetable s s' → same_schedule s s'.
Proof.
  intros (Hr & Ht & Hst & Hn). unfold same_schedule. rewrite Hr, Ht, Hst. by repeat split.
Qed.

Lemma map_route_ident_id rs : map rt_id rs = map fst (map route_ident rs).
Proof. rewrite map_map. done. Qed.

Lemma map_route_ident_key rs : map route_key rs = map snd (map route_ident rs).
Proof. rewrite map_map. done. Qed.

Lemma same_ident_elem (rs rs' : list Route) x :
  map route_ident rs' = map route_ident rs → x ∈ rs →
  ∃ x', x' ∈ rs' ∧ rt_id x' = rt_id x ∧ route_key x' = route_key x.
Proof.
  intros Hm Hx.
  assert (route_ident x ∈ map route_ident rs') as Hin.
  { rewrite Hm. apply list_elem_of_In, in_map, list_elem_of_In, Hx. }
  apply list_elem_of_In, in_map_iff in Hin as (x' & Hi & Hx'%list_elem_of_In).
  exists x'. split; [done|]. unfold route_ident in Hi. injection Hi as Hi1 Hi2 Hi3.
  split; [done|]. unfold route_key. by rewrite Hi2, Hi3.
Qed.

Lemma wf_same_schedule s s' : same_schedule s s' → wf s → wf s'.
Proof.
  intros (Ht & Hst & Hr & Hn) [H1 H2 H3 H4 H5]. split.
  - by rewrite map_route_ident_id, Hr, <- map_route_ident_id.
  - by rewrite map_route_ident_key, Hr, <- map_route_ident_key.
  - intros r Hin. destruct (same_ident_elem (routes s') (routes s) r) as (x & Hx & Hi & _);
      [done|done|]. specialize (H3 x Hx). lia.
  - rewrite Ht. intros t Hin. specialize (H4 t Hin). lia.
  - rewrite Hst. intros st Hin. specialize (H5 st Hin). lia.
Qed.

Lemma loaded_same_schedule cfg feed run s0 s s' :
  same_schedule s s' → loaded cfg feed run s0 s → loaded cfg feed run s0 s'.
Proof.
  intros Hs [Hwf Ht Hr]. pose proof Hs as (Ht' & Hst' & Hr' & Hn'). split.
  - by apply (wf_same_schedule s).
  - by rewrite Ht'.
  - intros line Hin. destruct (Hr line Hin) as (x & Hx & Hk & Hrun).
    destruct (same_ident_elem (routes s) (routes s') x) as (x' & Hx' & Hi' & Hk');
      [done|done|].
    exists x'. split; [done|]. split; [congruence|]. by rewrite Hi'.
Qed.

Lemma detach_old_routes_ident cfg run rs :
  map route_ident (detach_old_routes cfg run rs) = map route_ident rs.
Proof.
  unfold detach_old_routes. rewrite map_map. apply map_ext.
  intros r. by destruct (_ && _).
Qed.

Lemma same_schedule_retire cfg run : stable same_schedule (retire_phase cfg run).
Proof.
  intros s. unfold retire_phase. simpl. unfold same_schedule. simpl.
  rewrite detach_old_routes_ident. repeat split; lia.
Qed.

Lemma same_timetable_route_links project substring wkt cfg feed rs stops :
  stable same_timetable (do_route_links project substring wkt cfg feed rs stops).
Proof. unfold do_route_links, store_link. same_timetable_tac. Qed.

Lemma same_schedule_route_links project substring wkt cfg feed rs stops :
  stable same_schedule (do_route_links project substring wkt cfg feed rs stops).
Proof.
  eapply stable_weaken; [apply same_timetable_schedule|].
  apply same_timetable_route_links.
Qed.

(** The rows that [COPY] writes belong to trips whose key was noted
    down. *)
Lemma copy_rows_trip cfg st rows written :
  copy_rows cfg st rows = Ok written →
  ∀ x, x ∈ written → ∃ k, trip_id_to_pk st !! k = Some (stm_trip x).
Proof.
  revert written. induction rows as [|line rows IH]; intros written; simpl.
  - intros [= <-] x Hx. by apply not_elem_of_nil in Hx.
  - destruct (stop_time_row cfg st line) as [r|e] eqn:Er; [|done].
    destruct (copy_rows cfg st rows) as [rest|e]; [|done].
    intros [= <-] x [Hx|Hx]%elem_of_app; [|by apply (IH rest)].
    destruct r as [r|]; simpl in Hx; [|by apply not_elem_of_nil in Hx].
    apply list_elem_of_singleton in Hx as ->.
    unfold stop_time_row in Er.
    destruct (stop_time_seconds line) as [[arr dep]|]; [|done].
    case_bool_decide; [|done].
    destruct (trip_id_to_pk st !! st_trip_id line) as [pk|] eqn:Epk; [|done].
    simplify_eq/=. by exists (st_trip_id line).
Qed.

Lemma loaded_stop_times cfg feed run s0 s st rows :
  loaded cfg feed run s0 s → loop_inv run s st →
  loaded cfg feed run s0 (stop_times_phase cfg st rows s).1.
Proof.
  intros [[H1 H2 H3 H4 H5] Ht Hr] [_ Hpk].
  unfold stop_times_phase. rewrite bind_run. unfold lift.
  destruct (copy_rows cfg st rows) as [written|e] eqn:Ec; simpl; [|done].
  split; [|done|done]. split; simpl; try done.
  intros x [Hx|Hx]%elem_of_app; [by apply H5|].
  destruct (copy_rows_trip cfg st rows written Ec x Hx) as [k Hk]. by apply (Hpk k).
Qed.

Lemma loaded_post cfg feed run s0 s' :
  wf s0 → loaded cfg feed run s0 s' → run_post cfg feed s0 s'.
Proof.
  intros Hwf0 [Hwf Ht Hr]. split; [done| |].
  - intros t1 t2 H1 H2 Heq.
    destruct (Ht t1 H1) as [[Ho1 Hn1]|[Hb1 Hr1]];
      destruct (Ht t2 H2) as [[Ho2 Hn2]|[Hb2 Hr2]].
    + pose proof (wf_trip_bound s0 Hwf0 t1 Ho1). pose proof (wf_trip_bound s0 Hwf0 t2 Ho2).
      split; intros _; lia.
    + rewrite Heq in Hn1. done.
    + rewrite <- Heq in Hn2. done.
    + split; intros; lia.
  - intros _ line Hin. destruct (Hr line Hin) as (x & Hx & Hk & Hrun). split.
    + by exists x.
    + intros r t Hrin Hrk Htin Htr.
      assert (r = x) as ->.
      { apply (NoDup_map_inj route_key (routes s')); [apply Hwf|done|done|congruence]. }
      destruct (Ht t Htin) as [[_ Hn]|[Hb _]]; [by rewrite Htr in Hn|].
      split; [done|]. intros st Hst.
      pose proof (wf_stop_time_bound s0 Hwf0 st Hst). lia.
Qed.

Lemma early_post cfg feed s0 s' e :
  wf s0 → same_timetable s0 s' → (agencies_phase cfg feed s0).2 = Raise e →
  run_post cfg feed s0 s'.
Proof.
  intros Hwf0 Hsame He. pose proof Hsame as (Hr & Ht & Hst & Hn). split.
  - by apply (wf_same_timetable s0).
  - intros t1 t2. rewrite Ht. intros H1 H2 _.
    pose proof (wf_trip_bound s0 Hwf0 t1 H1). pose proof (wf_trip_bound s0 Hwf0 t2 H2).
    split; intros _; lia.
  - intros [ops Hops]. congruence.
Qed.

(** A run leaves [run_post] behind, however it ends. *)
Lemma handle_zipfile_post project substring wkt cfg ext feed s0 :
  wf s0 →
  run_post cfg feed s0 (handle_zipfile project substring wkt cfg ext feed s0).1.
Proof.
  intros Hwf0. unfold handle_zipfile. rewrite bind_run.
  pose proof (same_timetable_agencies cfg feed s0) as Hs1.
  destruct (agencies_phase cfg feed s0) as [s1 [ops|e]] eqn:Ea; simpl in Hs1.
  2:{ simpl. apply (early_post cfg feed s0 s1 e); [done|done|]. by rewrite Ea. }
  pose proof (wf_same_timetable _ _ Hs1 Hwf0) as Hwf1.
  destruct Hs1 as (Hr1 & Ht1 & Hst1 & Hn1).
  (* the route rows *)
  rewrite bind_run. unfold routes_phase.
  destruct (routes_loop cfg ext s1 (feed_routes feed) []
              {| run_operators := ops; run_routes := ∅; run_route_operators := ∅;
                 run_services := ∅ |} s1) as (s2 & run & Hfor & Hinv2).
  { split; simpl.
    - done.
    - lia.
    - done.
    - done.
    - intros x Hx. by exists x.
    - intros k r. by rewrite lookup_empty.
    - intros line Hl. by apply not_elem_of_nil in Hl. }
  rewrite Hfor. destruct Hinv2 as [Hwf2 Hn2 Ht2 Hst2 Hkept2 Hrun2 Hh2].
  assert (∀ i, run_route_id run i → i < next_id s2) as Hbound2.
  { intros i (k & r & Hl & <-). destruct (Hrun2 k r Hl) as [(x & Hx & <- & _) _].
    by apply (wf_route_bound s2). }
  assert (loaded cfg feed run s0 s2) as Hl2.
  { split; [done| |].
    - intros t Hin. left. split; [rewrite <- Ht1; by apply Ht2|].
      intros (k & r & Hl & Hi). destruct (Hrun2 k r Hl) as [_ Hno]. by apply (Hno t).
    - intros line Hin. destruct (Hh2 line) as [r Hl]; [by apply elem_of_app; right|].
      destruct (Hrun2 _ r Hl) as [(x & Hx & Hi & Hk) _].
      exists x. split; [done|]. split; [done|]. exists (route_id line), r. done. }
  (* the stops *)
  rewrite bind_run.
  pose proof (same_timetable_do_stops cfg feed s2) as Hs3.
  destruct (do_stops cfg feed s2) as [s3 [stops|e]]; simpl in Hs3.
  2:{ simpl. apply (loaded_post cfg feed run); [done|].
      eapply loaded_same_schedule; [|exact Hl2]. by apply same_timetable_schedule. }
  assert (loaded cfg feed run s0 s3) as Hl3.
  { eapply loaded_same_schedule; [|exact Hl2]. by apply same_timetable_schedule. }
  destruct Hs3 as (Hr3 & Ht3 & Hst3 & Hn3).
  (* the trips *)
  rewrite bind_run.
  destruct (trips_phase_spec cfg ext run (group_stop_times (feed_stop_times feed)) stops
              s0 s3 ltac:(lia) ltac:(intros i Hi; specialize (Hbound2 i Hi); lia)
              (feed_trips feed) s3) as [Hinv4 Hloop4].
  { destruct Hl3 as [Hwf3 Htr3 _]. by split. }
  destruct (trips_phase cfg ext run _ stops (feed_trips feed) s3) as [s4 res4].
  simpl in Hinv4, Hloop4.
  assert (loaded cfg feed run s0 s4) as Hl4.
  { destruct Hinv4 as [Hwf4 Hr4 _ _ Htr4]. split; [done|done|].
    rewrite Hr4. apply Hl3. }
  destruct res4 as [loop|e]; [|by apply (loaded_post cfg feed run)].
  specialize (Hloop4 loop eq_refl).
  (* the stop times *)
  rewrite bind_run.
  pose proof (loaded_stop_times cfg feed run s0 s4 loop (feed_stop_times feed) Hl4 Hloop4)
    as Hl5.
  destruct (stop_times_phase cfg loop (feed_stop_times feed) s4) as [s5 [[]|e]];
    simpl in Hl5; [|by apply (loaded_post cfg feed run)].
  (* retiring and the route links *)
  rewrite bind_run.
  pose proof (same_schedule_retire cfg run s5) as Hs6.
  destruct (retire_phase cfg run s5) as [s6 [[]|e]]; simpl in Hs6.
  2:{ apply (loaded_post cfg feed run); [done|]. by apply (loaded_same_schedule _ _ _ _ s5). }
  assert (loaded cfg feed run s0 s6) as Hl6
    by (by apply (loaded_same_schedule _ _ _ _ s5)).
  apply (loaded_post cfg feed run); [done|].
  destruct (skip_route_links cfg); [done|].
  apply (loaded_same_schedule _ _ _ _ s6); [|done].
  apply same_schedule_route_links.
Qed.

(** ** Re-import and atomicity *)

Lemma wf_empty_store : wf Sample.empty_store.
Proof.
  split; simpl.
  - constructor.
  - constructor.
  - intros r Hr. by apply not_elem_of_nil in Hr.
  - intros t Ht. by apply not_elem_of_nil in Ht.
  - intros st Hst. by apply not_elem_of_nil in Hst.
Defined.

Lemma wf_imported_store : wf Sample.imported_store.
Proof.
  split; simpl.
  - apply NoDup_singleton.
  - apply NoDup_singleton.
  - intros r Hr. apply list_elem_of_singleton in Hr. subst r. simpl. lia.
  - intros t Ht. apply list_elem_of_singleton in Ht. subst t. simpl. lia.
  - intros st Hst. apply list_elem_of_singleton in Hst. subst st. simpl. lia.
Defined.



(** The rows of the [COPY] statement arrive together or not at all. *)
Lemma stop_times_phase_all_or_nothing cfg st rows s :
  (∃ e, stop_times_phase cfg st rows s = (s, Raise e))
  ∨ (∃ written, copy_rows cfg st rows = Ok written
                ∧ stop_times_phase cfg st rows s
                  = (with_stop_times (λ l, l ++ written) s, Ok tt)).
Proof.
  unfold stop_times_phase. rewrite bind_run. unfold lift.
  destruct (copy_rows cfg st rows) as [written|e].
  - right. by exists written.
  - left. by exists e.
Qed.




(** * Further properties *)

(** ** Vehicle locations and identities *)

Lemma dict_get_string_keys (mapping : list (DictKey * string)) (z : Z) :
  Forall (λ kv, ∃ s, kv.1 = KStr s) mapping → dict_get (KInt z) mapping = None.
Proof.
  induction 1 as [|[k v] mapping [s Hk] _ IH]; simpl; [done|].
  simpl in Hk. subst k. by case_decide.
Qed.

(** X1. With an occupancy table whose keys are all strings, as every
    table read from the JSON settings is, a location never has an
    occupancy, whatever the status of the report. *)
Theorem string_keyed_mapping_gives_no_occupancy
    (mapping : list (DictKey * string)) (item : Item) :
  Forall (λ kv, ∃ s, kv.1 = KStr s) mapping →
  vl_occupancy (create_vehicle_location mapping item) = None.
Proof.
  intros H. unfold create_vehicle_location, mapping_get; simpl.
  destruct (int_or_none _); [by apply dict_get_string_keys|done].
Qed.

Lemma string_keyed_mapping_gives_no_occupancy_witness :
  vl_occupancy (create_vehicle_location Fixture.json_mapping
                  (Fixture.report_of_vehicle "A_12")) = None.
Proof.
  apply (string_keyed_mapping_gives_no_occupancy Fixture.json_mapping
           (Fixture.report_of_vehicle "A_12")).
  repeat constructor; simpl; eauto.
Defined.

(** X2. With the built-in table a location has an occupancy exactly for
    the statuses 1 to 8, and a heading exactly when the bearing is not
    zero, in which case the heading is the bearing. *)
Theorem location_fields_of_report (item : Item) :
  (is_Some (vl_occupancy (create_vehicle_location_qld item))
   ↔ 1 ≤ it_occupancy_status item ≤ 8)
  ∧ (vl_heading (create_vehicle_location_qld item) = Some (bearing (it_position item))
     ↔ ¬ (bearing (it_position item) == 0)%Q)
  ∧ (vl_heading (create_vehicle_location_qld item) = None
     ↔ (bearing (it_position item) == 0)%Q).
Proof.
  unfold create_vehicle_location_qld, create_vehicle_location; simpl.
  split; [|split].
  - unfold mapping_get, int_or_none.
    destruct (it_occupancy_status item =? 0) eqn:E0.
    + apply Z.eqb_eq in E0. rewrite E0. split; [by intros [? ?]|lia].
    + apply Z.eqb_neq in E0. split.
      * intros [label Hl]. unfold occupancies in Hl. simpl in Hl.
        repeat (case_decide; [simplify_eq; lia|]). done.
      * intros Hr.
        assert (it_occupancy_status item = 1 ∨ it_occupancy_status item = 2
                ∨ it_occupancy_status item = 3 ∨ it_occupancy_status item = 4
                ∨ it_occupancy_status item = 5 ∨ it_occupancy_status item = 6
                ∨ it_occupancy_status item = 7 ∨ it_occupancy_status item = 8)
          as Hc by lia.
        destruct Hc as [-> | [-> | [-> | [-> | [-> | [-> | [-> | ->]]]]]]];
          by eexists.
  - unfold float_or_none. destruct (Qeq_bool _ 0) eqn:E.
    + apply Qeq_bool_iff in E. split; [done|]. intros Hn. by destruct Hn.
    + split; [|done]. intros _ Hq. apply Qeq_bool_iff in Hq. congruence.
  - unfold float_or_none. destruct (Qeq_bool _ 0) eqn:E.
    + apply Qeq_bool_iff in E. done.
    + split; [done|]. intros Hq. apply Qeq_bool_iff in Hq. congruence.
Qed.

(** ** Splitting strings *)

Lemma append_cons (a : ascii) (s t : string) : String a s +:+ t = String a (s +:+ t).
Proof. reflexivity. Qed.

Lemma append_nil_l (s : string) : "" +:+ s = s.
Proof. reflexivity. Qed.

Lemma append_nil_r (s : string) : s +:+ "" = s.
Proof. induction s as [|a s IH]; [done|]. by rewrite append_cons, IH. Qed.

Lemma append_assoc (s t u : string) : (s +:+ t) +:+ u = s +:+ t +:+ u.
Proof. induction s as [|a s IH]; [done|]. by rewrite !append_cons, IH. Qed.

Lemma length_append (s t : string) :
  String.length (s +:+ t) = (String.length s + String.length t)%nat.
Proof. induction s as [|a s IH]; [done|]. rewrite append_cons. simpl. by rewrite IH. Qed.

Lemma prefix_append (p s : string) :
  String.prefix p s = true → ∃ rest, s = p +:+ rest.
Proof.
  revert s. induction p as [|a p IH]; intros s; simpl.
  - destruct s; intros _; by eexists.
  - destruct s as [|b s]; [done|]. simpl. destruct (ascii_dec a b) as [->|]; [|done].
    intros [rest ->]%IH. exists rest. by rewrite append_cons.
Qed.

Lemma split_go_nonempty sep s skip cur : split_go sep s skip cur ≠ [].
Proof.
  revert skip cur. induction s as [|a s IH]; intros skip cur; cbn [split_go]; [done|].
  destruct skip; [|apply IH]. destruct (String.prefix sep (String a s)); [done|apply IH].
Qed.

(** Skipping the rest of a separator. *)
Lemma split_go_skip sep pre rest cur :
  split_go sep (pre +:+ rest) (String.length pre) cur = split_go sep rest O cur.
Proof.
  induction pre as [|a pre IH]; [by destruct rest|].
  rewrite append_cons. simpl. exact IH.
Qed.

Lemma join_cons sep p rest :
  rest ≠ [] → join sep (p :: rest) = p +:+ sep +:+ join sep rest.
Proof. by destruct rest. Qed.

Lemma join_snoc sep parts p :
  parts ≠ [] → join sep (parts ++ [p]) = join sep parts +:+ sep +:+ p.
Proof.
  induction parts as [|q parts IH]; [done|]. intros _.
  destruct parts as [|q' parts]; [reflexivity|].
  change ((q :: q' :: parts) ++ [p]) with (q :: ((q' :: parts) ++ [p])).
  rewrite join_cons by (by destruct parts).
  rewrite IH by done. rewrite (join_cons sep q (q' :: parts)) by done.
  by rewrite !append_assoc.
Qed.

(** Joining the pieces of [split] with the separator gives the string
    back. *)
Lemma join_split_go sep (n : nat) :
  sep ≠ "" →
  ∀ s cur, (String.length s ≤ n)%nat → join sep (split_go sep s O cur) = cur +:+ s.
Proof.
  intros Hsep. induction n as [|n IH]; intros s cur Hlen.
  - destruct s; [|simpl in Hlen; lia]. simpl. by rewrite append_nil_r.
  - destruct s as [|a s]; [simpl; by rewrite append_nil_r|].
    cbn [split_go]. destruct (String.prefix sep (String a s)) eqn:Hp.
    + destruct sep as [|c sep']; [done|].
      apply prefix_append in Hp as [rest Hrest]. rewrite append_cons in Hrest.
      injection Hrest as -> ->.
      cbn [String.length Nat.pred]. rewrite split_go_skip.
      rewrite join_cons by apply split_go_nonempty.
      rewrite IH.
      * by rewrite append_nil_l, append_cons.
      * simpl in Hlen. rewrite length_append in Hlen. lia.
    + rewrite IH by (simpl in Hlen; lia).
      by rewrite append_assoc, append_cons, append_nil_l.
Qed.

Lemma join_split sep s : sep ≠ "" → join sep (split sep s) = s.
Proof.
  intros Hsep. unfold split.
  by rewrite (join_split_go sep (String.length s) Hsep s "").
Qed.

Lemma lacks_append c s t : lacks c (s +:+ t) = lacks c s && lacks c t.
Proof.
  induction s as [|a s IH]; [done|].
  rewrite append_cons. cbn [lacks]. by rewrite IH, andb_assoc.
Qed.

(** The pieces of a split at one character do not have the character. *)
Lemma split_go_lacks c s cur :
  lacks c cur = true →
  Forall (λ p, lacks c p = true) (split_go (String c "") s O cur).
Proof.
  revert cur. induction s as [|a s IH]; intros cur Hcur; cbn [split_go].
  - by constructor.
  - simpl String.prefix. destruct (ascii_dec c a) as [->|Hne].
    + destruct s; (constructor; [done|]); by apply IH.
    + apply IH. rewrite lacks_append, Hcur. cbn [lacks].
      rewrite andb_true_r. apply negb_true_iff, Ascii.eqb_neq. congruence.
Qed.

Lemma split_go_one c s cur :
  lacks c s = true → split_go (String c "") s O cur = [cur +:+ s].
Proof.
  revert cur. induction s as [|a s IH]; intros cur; cbn [split_go lacks].
  - by rewrite append_nil_r.
  - intros [Hn Hs]%andb_true_iff. apply negb_true_iff, Ascii.eqb_neq in Hn.
    simpl String.prefix. destruct (ascii_dec c a) as [->|_]; [done|].
    rewrite IH by done. by rewrite append_assoc.
Qed.

Lemma split_go_many c s cur :
  lacks c s = false → (2 ≤ length (split_go (String c "") s O cur))%nat.
Proof.
  revert cur. induction s as [|a s IH]; intros cur; cbn [split_go lacks]; [done|].
  simpl String.prefix. destruct (ascii_dec c a) as [->|Hne].
  - intros _. change (Nat.pred (String.length (String a ""))) with O.
    pose proof (split_go_nonempty (String a "") s O "") as Hne.
    destruct (split_go (String a "") s O ""); [done|].
    replace (String.prefix "" s) with true by (by destruct s). cbn [length]. lia.
  - intros H. apply IH. apply andb_false_iff in H as [H|H]; [|done].
    apply negb_false_iff, Ascii.eqb_eq in H. congruence.
Qed.

Lemma contains_char_iff c s : contains (String c "") s = false ↔ lacks c s = true.
Proof.
  unfold contains, count, split. split.
  - intros H. destruct (lacks c s) eqn:E; [done|].
    pose proof (split_go_many c s "" E) as Hl.
    destruct (split_go (String c "") s O "") as [|? [|? ?]]; simpl in *; try lia; done.
  - intros H. by rewrite split_go_one.
Qed.

(** X3. The vehicle code that the Translink command keeps has no
    underscore; it is the whole vehicle id, or the id ends with an
    underscore followed by the code. *)
Theorem vehicle_identity_is_last_part (item : Item) :
  contains "_" (get_vehicle_identity item) = false
  ∧ (get_vehicle_identity item = it_vehicle_id item
     ∨ ∃ front, it_vehicle_id item = front +:+ "_" +:+ get_vehicle_identity item).
Proof.
  unfold get_vehicle_identity. cbv zeta.
  destruct (contains "_" (it_vehicle_id item)) eqn:Hc; [|by split; [|left]].
  pose proof (join_split "_" (it_vehicle_id item) ltac:(done)) as Hj.
  pose proof (split_go_lacks "_" (it_vehicle_id item) "" eq_refl) as Hl.
  fold (split "_" (it_vehicle_id item)) in Hl.
  assert (2 ≤ length (split "_" (it_vehicle_id item)))%nat as Hlen.
  { unfold contains, count in Hc. apply negb_true_iff, Nat.eqb_neq in Hc.
    destruct (split "_" (it_vehicle_id item)) as [|? [|? ?]]; simpl in *; lia. }
  destruct (last (split "_" (it_vehicle_id item))) as [p|] eqn:El.
  2:{ apply last_None in El. rewrite El in Hlen. simpl in Hlen. lia. }
  apply last_Some in El as [parts Es]. rewrite Es in Hj, Hl, Hlen.
  change (default (it_vehicle_id item) (Some p)) with p.
  rewrite Forall_app in Hl. destruct Hl as [_ Hp]. rewrite Forall_singleton in Hp.
  split; [by apply contains_char_iff|]. right.
  rewrite join_snoc in Hj.
  - exists (join "_" parts). by rewrite <- Hj.
  - intros ->. simpl in Hlen. lia.
Qed.

(** X4. Vehicles are told apart by the part of the id after the last
    underscore only: after a report has been given its vehicle, a report
    whose id ends in the same part gets that vehicle and creates none. *)
Theorem same_suffix_same_vehicle (source : Z) (item1 item2 : Item)
    (table table1 : VehicleTable) (v : Vehicle) (created : bool) :
  get_vehicle source item1 table = (table1, Ok (v, created)) →
  get_vehicle_identity item2 = get_vehicle_identity item1 →
  get_vehicle source item2 table1 = (table1, Ok (v, false)).
Proof.
  unfold get_vehicle, VehicleTable in *. cbv zeta. fold (get_vehicle_identity item1).
  fold (get_vehicle_identity item2). intros H ->.
  destruct (filter _ table) as [|row [|row' rest]] eqn:E; simplify_eq.
  - rewrite filter_app, E, filter_cons, filter_nil.
    destruct (decide _) as [_|Hn]; [done|]. by destruct Hn.
  - by rewrite E.
Qed.

Lemma same_suffix_same_vehicle_witness :
  get_vehicle 1 (Fixture.report_of_vehicle "B_12")
    [Fixture.vehicle_row 1 "7"; Fixture.vehicle_row 1 "12"]
  = ([Fixture.vehicle_row 1 "7"; Fixture.vehicle_row 1 "12"],
     Ok ((Fixture.vehicle_row 1 "12").2, false)).
Proof.
  apply (same_suffix_same_vehicle 1 (Fixture.report_of_vehicle "A_12")
           (Fixture.report_of_vehicle "B_12")
           [Fixture.vehicle_row 1 "7"] [Fixture.vehicle_row 1 "7"; Fixture.vehicle_row 1 "12"]
           (Fixture.vehicle_row 1 "12").2 true).
  - vm_compute. reflexivity.
  - vm_compute. reflexivity.
Defined.

(** ** New journeys *)

Section ResolveFacts.

Variable get_calendars : Z → list Z → list Z.
Variable source : Z.
Variable zone : string.

(** A call of [get_journey] that does not reuse the cached journey ends
    in [resolve_journey] on a new journey with the code of the report. *)
Lemma get_journey_resolves now s item vehicle v j :
  no_cached_journey vehicle item →
  get_journey_worldwide get_calendars source zone s item vehicle = (v, Ok j)
  ∨ get_journey_qld get_calendars source zone now s item vehicle = (v, Ok j) →
  ∃ d start_filter service_date,
    resolve_journey get_calendars source s item vehicle
      (with_datetime d (new_journey (td_trip_id (it_trip item))))
      start_filter service_date = (v, j).
Proof.
  intros Hnc [H|H].
  - unfold get_journey_worldwide in H.
    destruct (strptime_noon _) as [date|]; [|done].
    destruct (parse_duration _) as [time|]; [|done].
    destruct (vh_latest_journey vehicle) as [latest|] eqn:El.
    + destruct (String.eqb _ _) eqn:E.
      { apply String.eqb_eq in E. by destruct (Hnc latest El). }
      destruct (resolve_journey _ _ _ _ _ _ _ _) as [v' j'] eqn:Er.
      simplify_eq. by eexists _, _, _.
    + destruct (resolve_journey _ _ _ _ _ _ _ _) as [v' j'] eqn:Er.
      simplify_eq. by eexists _, _, _.
  - unfold get_journey_qld in H. cbv zeta in H.
    destruct (vh_latest_journey vehicle) as [latest|] eqn:El.
    + destruct (String.eqb _ _) eqn:E.
      { apply String.eqb_eq in E. by destruct (Hnc latest El). }
      destruct (_ && _).
      * destruct (strptime_noon _) as [date|]; [|done].
        destruct (parse_duration _) as [time|]; [|done].
        destruct (resolve_journey _ _ _ _ _ _ _ _) as [v' j'] eqn:Er.
        simplify_eq. by eexists _, _, _.
      * destruct (resolve_journey _ _ _ _ _ _ _ _) as [v' j'] eqn:Er.
        simplify_eq. by eexists _, _, _.
    + destruct (_ && _).
      * destruct (strptime_noon _) as [date|]; [|done].
        destruct (parse_duration _) as [time|]; [|done].
        destruct (resolve_journey _ _ _ _ _ _ _ _) as [v' j'] eqn:Er.
        simplify_eq. by eexists _, _, _.
      * destruct (resolve_journey _ _ _ _ _ _ _ _) as [v' j'] eqn:Er.
        simplify_eq. by eexists _, _, _.
Qed.

Lemma resolve_journey_vehicle s item vehicle journey start_filter service_date v j :
  resolve_journey get_calendars source s item vehicle journey start_filter service_date
  = (v, j) →
  vh_code v = vh_code vehicle
  ∧ vh_latest_journey v = vh_latest_journey vehicle
  ∧ vh_latest_journey_data v = Some item
  ∧ vj_id j = vj_id journey
  ∧ vj_code j = vj_code journey
  ∧ (from_option truthy false (vh_operator vehicle) = true →
     vh_operator v = vh_operator vehicle)
  ∧ (vh_operator v = vh_operator vehicle
     ∨ ∃ t, t ∈ trips s ∧ vj_trip j = Some (tr_id t) ∧ vh_operator v = tr_operator t
            ∧ from_option truthy false (tr_operator t) = true).
Proof.
  unfold resolve_journey.
  repeat match goal with
         | |- context [let '(_, _) := ?x in _] => destruct x as [sv found] eqn:Ef
         end.
  set (trip := match found with
               | [] => None
               | [t] => Some t
               | t :: _ =>
                   match service_date with
                   | Some date =>
                       head (filter (λ t0, tr_calendar t0
                                           ∈ get_calendars date (map tr_calendar found))
                               found)
                   | None => Some t
                   end
               end).
  assert (∀ t, trip = Some t → t ∈ found) as Htrip.
  { intros t. unfold trip. destruct found as [|t1 [|t2 rest]]; [done| |].
    - intros [= ->]. left.
    - destruct service_date.
      + intros Hh%head_Some_elem_of. by apply list_elem_of_filter in Hh as [_ ?].
      + intros [= ->]. left. }
  assert (∀ t, t ∈ found → t ∈ trips s) as Hfound.
  { intros t Ht.
    match type of Ef with
    | match ?x with _ => _ end = _ =>
        assert (∀ t, t ∈ x → t ∈ trips s) as H0
          by (intros t0 Ht0; by apply list_elem_of_filter in Ht0 as [_ ?]);
        destruct x as [|t1 rest]
    end.
    - destruct (head _); [simplify_eq; by apply not_elem_of_nil in Ht|].
      destruct (contains "_" _); simplify_eq.
      + by apply list_elem_of_filter in Ht as [_ ?].
      + by apply not_elem_of_nil in Ht.
    - simplify_eq. by apply H0. }
  intros [= <- <-]. simpl. repeat split; try done.
  - intros Hop. destruct trip; [|done]. by rewrite Hop, andb_false_r.
  - destruct trip as [t|] eqn:Et; [|by left].
    destruct (from_option truthy false (tr_operator t)
              && negb (from_option truthy false (vh_operator vehicle))) eqn:Ea;
      [|by left].
    right. exists t. apply andb_true_iff in Ea as [Ea _].
    split; [by apply Hfound, Htrip|done].
Qed.

Lemma trip_in_service_route s sv t :
  trip_in_service s sv t = true → route_of s t ≫= rt_service = Some (sv_id sv).
Proof.
  unfold trip_in_service. destruct (route_of s t) as [r|]; [|done].
  intros H%bool_decide_eq_true. done.
Qed.

Lemma resolve_journey_trip s item vehicle journey start_filter service_date v j tid :
  resolve_journey get_calendars source s item vehicle journey start_filter service_date
  = (v, j) →
  vj_trip j = Some tid →
  ∃ t, t ∈ trips s ∧ tr_id t = tid
       ∧ vj_service j = route_of s t ≫= rt_service
       ∧ vj_destination j = tr_headsign t.
Proof.
  unfold resolve_journey.
  repeat match goal with
         | |- context [let '(_, _) := ?x in _] => destruct x as [sv found] eqn:Ef
         end.
  set (trip := match found with
               | [] => None
               | [t] => Some t
               | t :: _ =>
                   match service_date with
                   | Some date =>
                       head (filter (λ t0, tr_calendar t0
                                           ∈ get_calendars date (map tr_calendar found))
                               found)
                   | None => Some t
                   end
               end).
  assert (∀ t, trip = Some t → t ∈ found) as Htrip.
  { intros t. unfold trip. destruct found as [|t1 [|t2 rest]]; [done| |].
    - intros [= ->]. left.
    - destruct service_date.
      + intros Hh%head_Some_elem_of. by apply list_elem_of_filter in Hh as [_ ?].
      + intros [= ->]. left. }
  assert (∀ t, t ∈ found →
               t ∈ trips s
               ∧ match sv with
                 | Some x => trip_in_service s x t = true
                 | None => True
                 end) as Hfound.
  { intros t Ht.
    match type of Ef with
    | match ?fd with _ => _ end = _ =>
        assert (∀ t, t ∈ fd →
                     t ∈ trips s
                     ∧ match head (candidate_services source s
                                     (td_route_id (it_trip item)) (vj_code journey)) with
                       | Some y => trip_in_service s y t = true
                       | None => True
                       end) as H0;
        [|destruct fd as [|t1 rest]]
    end.
    - intros t0 [Hq Hin]%list_elem_of_filter. split; [done|].
      apply andb_true_iff in Hq as [_ Hq]. by destruct (head _).
    - destruct (head _); [simplify_eq; by apply not_elem_of_nil in Ht|].
      destruct (contains "_" _); simplify_eq.
      + apply list_elem_of_filter in Ht as [Hq Hin]. split; [done|].
        apply andb_true_iff in Hq as [_ Hq]. by destruct (service_by_suffix _ _ _).
      + by apply not_elem_of_nil in Ht.
    - simplify_eq. by apply H0. }
  intros [= <- <-]. simpl. destruct trip as [t|] eqn:Et; [|done].
  intros [= <-]. destruct (Hfound t (Htrip t eq_refl)) as [Hin Hsv].
  exists t. split; [done|]. split; [done|]. split; [|done].
  destruct sv as [x|]; [|done]. by rewrite (trip_in_service_route s x t Hsv).
Qed.

Lemma resolve_journey_route_name s item vehicle journey start_filter service_date v j i sv :
  resolve_journey get_calendars source s item vehicle journey start_filter service_date
  = (v, j) →
  vj_service j = Some i → service_by_id s i = Some sv →
  vj_route_name j = sv_line_name sv.
Proof.
  unfold resolve_journey.
  repeat match goal with
         | |- context [let '(_, _) := ?x in _] => destruct x as [sv0 found] eqn:Ef
         end.
  intros [= <- <-]. simpl. intros -> Hs. simpl. by rewrite Hs.
Qed.

(** Every call of [get_journey] leaves the vehicle as it was or ends in
    [resolve_journey]. *)
Lemma get_journey_cases now s item vehicle v r :
  get_journey_worldwide get_calendars source zone s item vehicle = (v, r)
  ∨ get_journey_qld get_calendars source zone now s item vehicle = (v, r) →
  v = vehicle
  ∨ ∃ j journey start_filter service_date,
      r = Ok j
      ∧ resolve_journey get_calendars source s item vehicle journey
          start_filter service_date = (v, j).
Proof.
  intros [H|H].
  - unfold get_journey_worldwide in H.
    destruct (strptime_noon _) as [date|]; [|left; congruence].
    destruct (parse_duration _) as [time|]; [|left; congruence].
    destruct (vh_latest_journey vehicle) as [latest|] eqn:El.
    + destruct (String.eqb _ _) eqn:E; [left; congruence|].
      destruct (resolve_journey _ _ _ _ _ _ _ _) as [v' j'] eqn:Er.
      simplify_eq. right. by eexists _, _, _, _.
    + destruct (resolve_journey _ _ _ _ _ _ _ _) as [v' j'] eqn:Er.
      simplify_eq. right. by eexists _, _, _, _.
  - unfold get_journey_qld in H. cbv zeta in H.
    destruct (vh_latest_journey vehicle) as [latest|] eqn:El.
    + destruct (String.eqb _ _) eqn:E; [left; congruence|].
      destruct (_ && _).
      * destruct (strptime_noon _) as [date|]; [|left; congruence].
        destruct (parse_duration _) as [time|]; [|left; congruence].
        destruct (resolve_journey _ _ _ _ _ _ _ _) as [v' j'] eqn:Er.
        simplify_eq. right. by eexists _, _, _, _.
      * destruct (resolve_journey _ _ _ _ _ _ _ _) as [v' j'] eqn:Er.
        simplify_eq. right. by eexists _, _, _, _.
    + destruct (_ && _).
      * destruct (strptime_noon _) as [date|]; [|left; congruence].
        destruct (parse_duration _) as [time|]; [|left; congruence].
        destruct (resolve_journey _ _ _ _ _ _ _ _) as [v' j'] eqn:Er.
        simplify_eq. right. by eexists _, _, _, _.
      * destruct (resolve_journey _ _ _ _ _ _ _ _) as [v' j'] eqn:Er.
        simplify_eq. right. by eexists _, _, _, _.
Qed.




End ResolveFacts.




(** ** Operators *)

Lemma bind_lift {A B} (r : result A) (k : A → M B) (s : Store) :
  bind (lift r) k s = match r with Ok a => k a s | Raise e => (s, Raise e) end.
Proof. by destruct r. Qed.

Lemma bind_query {A B} (f : Store → A) (k : A → M B) (s : Store) :
  bind (query f) k s = k (f s) s.
Proof. reflexivity. Qed.

Lemma bind_write {B} (f : Store → Store) (k : unit → M B) (s : Store) :
  bind (write f) k s = k tt (f s).
Proof. reflexivity. Qed.

Lemma bind_fresh_id {B} (k : Z → M B) (s : Store) :
  bind fresh_id k s = k (next_id s) (with_next_id (next_id s + 1) s).
Proof. reflexivity. Qed.

Lemma ret_run {A} (a : A) (s : Store) : ret a s = (s, Ok a).
Proof. reflexivity. Qed.

Lemma elem_of_save_operator (o : Operator) (os : list Operator) : o ∈ save_operator o os.
Proof.
  induction os as [|o' os IH]; simpl; [left|].
  destruct (String.eqb _ _); [left|by right].
Qed.

Lemma save_operator_nocs (o : Operator) (os : list Operator) :
  map op_noc (save_operator o os)
  = if bool_decide (op_noc o ∈ map op_noc os) then map op_noc os
    else map op_noc os ++ [op_noc o].
Proof.
  induction os as [|o' os IH]; simpl; [done|].
  destruct (String.eqb (op_noc o') (op_noc o)) eqn:E.
  - apply String.eqb_eq in E. simpl. rewrite E.
    rewrite bool_decide_eq_true_2 by left. done.
  - apply String.eqb_neq in E. simpl. rewrite IH.
    destruct (bool_decide (op_noc o ∈ map op_noc os)) eqn:Eb.
    + apply bool_decide_eq_true in Eb. by rewrite bool_decide_eq_true_2 by (by right).
    + apply bool_decide_eq_false in Eb.
      rewrite bool_decide_eq_false_2; [done|].
      intros [Heq|Hin]%elem_of_cons; [congruence|done].
Qed.

Lemma set_operator_url_nocs noc url (os : list Operator) :
  map op_noc (set_operator_url noc url os) = map op_noc os.
Proof.
  unfold set_operator_url. rewrite map_map. apply map_ext.
  intros o. by destruct (String.eqb _ _).
Qed.

(** X8. The operator that [handle_operator] returns is in the operator
    table afterwards and has the URL of the agency row, whether it was
    found or made. *)
Theorem handle_operator_stores_what_it_returns (cfg : Config) (line : AgencyRow)
    (s s' : Store) (o : Operator) :
  handle_operator cfg line s = (s', Ok o) →
  o ∈ operators s' ∧ op_url o = agency_url line.
Proof.
  unfold handle_operator. rewrite bind_lift.
  match goal with
  | |- match ?r with Ok _ => _ | Raise _ => _ end = _ → _ => destruct r as [agency|e]
  end; [|done].
  rewrite bind_query.
  destruct (head _) as [found|] eqn:Eh.
  - apply head_Some_elem_of, list_elem_of_filter in Eh as [_ Hin].
    case_bool_decide as Hurl.
    + rewrite bind_write, ret_run. intros [= <- <-]. simpl.
      split; [|done]. unfold set_operator_url.
      apply list_elem_of_In, in_map_iff. exists found.
      rewrite String.eqb_refl. split; [done|by apply list_elem_of_In].
    + rewrite ret_run. intros [= <- <-]. split; [done|].
      destruct (decide (op_url found = agency_url line)); [done|]. by destruct Hurl.
  - rewrite bind_write, ret_run. intros [= <- <-]. simpl.
    split; [apply elem_of_save_operator|done].
Qed.

(** X9. [handle_operator] keeps the operator codes unique: it never
    leaves two operators with one code, whatever the matching rule and
    whether it returns or raises. *)
Theorem handle_operator_keeps_codes_unique (cfg : Config) (line : AgencyRow) (s : Store) :
  NoDup (map op_noc (operators s)) →
  NoDup (map op_noc (operators (handle_operator cfg line s).1)).
Proof.
  intros Hnd. unfold handle_operator. rewrite bind_lift.
  match goal with
  | |- context [(match ?r with Ok _ => _ | Raise _ => _ end).1] =>
      destruct r as [agency|e]
  end; [|done].
  rewrite bind_query.
  destruct (head _) as [found|].
  - case_bool_decide; [|done]. rewrite bind_write, ret_run. simpl.
    by rewrite set_operator_url_nocs.
  - rewrite bind_write, ret_run. simpl. rewrite save_operator_nocs. case_bool_decide as Hin; [done|].
    apply NoDup_app. split; [done|]. split; [|apply NoDup_singleton].
    intros x Hx ->%list_elem_of_singleton. done.
Qed.

Lemma handle_operator_stores_what_it_returns_witness :
  ∃ s' o,
    handle_operator Sample.cfg Fixture.agency Fixture.one_operator = (s', Ok o)
    ∧ o ∈ operators s' ∧ op_url o = agency_url Fixture.agency.
Proof.
  eexists _, _. split; [vm_compute; reflexivity|].
  eapply (handle_operator_stores_what_it_returns Sample.cfg Fixture.agency
           Fixture.one_operator).
  vm_compute. reflexivity.
Defined.

Lemma handle_operator_keeps_codes_unique_witness :
  NoDup (map op_noc (operators Fixture.one_operator))
  ∧ NoDup (map op_noc
             (operators (handle_operator Sample.cfg Fixture.agency Fixture.one_operator).1)).
Proof.
  assert (NoDup (map op_noc (operators Fixture.one_operator))) as Hnd.
  { apply NoDup_singleton. }
  split; [exact Hnd|].
  exact (handle_operator_keeps_codes_unique Sample.cfg Fixture.agency
           Fixture.one_operator Hnd).
Defined.

(** ** Stops *)

Lemma candidate_stops_has_from cfg rows (m : gmap string StopPoint) k :
  is_Some (m !! k) ∨ (∃ line, line ∈ rows ∧ prefixed_stop cfg (stop_id line) = k) →
  is_Some (foldl (λ m line, let c := candidate_stop cfg line in <[sp_atco_code c := c]> m)
             m rows !! k).
Proof.
  revert m. induction rows as [|r rows IH]; intros m; simpl.
  - intros [?|(line & Hin & _)]; [done|]. by apply not_elem_of_nil in Hin.
  - intros H. apply IH. rewrite candidate_stop_code.
    destruct (decide (prefixed_stop cfg (stop_id r) = k)) as [<-|Hne].
    + left. rewrite lookup_insert_eq. by eexists.
    + rewrite lookup_insert_ne by done.
      destruct H as [?|(line & [->|Hin]%elem_of_cons & Hk)]; [by left|done|].
      right. by exists line.
Qed.

Lemma candidate_stops_has cfg rows line :
  line ∈ rows → is_Some (candidate_stops cfg rows !! prefixed_stop cfg (stop_id line)).
Proof. intros Hin. apply candidate_stops_has_from. right. by exists line. Qed.

Lemma in_bulk_lookup (stops table : gmap string StopPoint) k :
  in_bulk stops table !! k = match stops !! k with Some _ => table !! k | None => None end.
Proof. unfold in_bulk. rewrite lookup_merge. by destruct (table !! k), (stops !! k). Qed.

Lemma do_stops_run cfg feed s :
  do_stops cfg feed s
  = (with_stop_points
       (λ table, merge (reconcile_stop cfg (admin_areas s)) table
                   (candidate_stops cfg (feed_stops feed))) s,
     Ok (in_bulk (candidate_stops cfg (feed_stops feed))
           (merge (reconcile_stop cfg (admin_areas s)) (stop_points s)
              (candidate_stops cfg (feed_stops feed))))).
Proof. reflexivity. Qed.

Lemma reconcile_stop_some cfg areas e c : is_Some (reconcile_stop cfg areas e (Some c)).
Proof. destruct e as [e|]; simpl; [destruct (needs_update cfg e c)|]; by eexists. Qed.


Lemma length_take n s : (String.length (take n s) ≤ n)%nat.
Proof.
  revert s. induction n as [|n IH]; intros s; simpl; [lia|].
  destruct s as [|a s]; simpl; [lia|]. specialize (IH s). lia.
Qed.

Lemma candidate_stop_name_length cfg line :
  (String.length (sp_common_name (candidate_stop cfg line)) ≤ 48)%nat.
Proof.
  unfold candidate_stop.
  destruct (contains _ _ && _); [destruct (split _ _) as [|? [|? [|]]]|];
    apply length_take.
Qed.

Lemma candidate_stop_owner cfg line :
  sp_source (candidate_stop cfg line) = Some (source_id cfg)
  ∧ sp_active (candidate_stop cfg line) = true.
Proof.
  unfold candidate_stop.
  by destruct (contains _ _ && _); [destruct (split _ _) as [|? [|? [|]]]|].
Qed.

Lemma assign_admin_area_fields cfg areas c :
  let x := assign_admin_area cfg areas c in
  sp_atco_code x = sp_atco_code c ∧ sp_common_name x = sp_common_name c
  ∧ sp_indicator x = sp_indicator c ∧ sp_latlong x = sp_latlong c
  ∧ sp_source x = sp_source c ∧ sp_active x = sp_active c.
Proof.
  unfold assign_admin_area.
  repeat match goal with
         | |- context [if ?b then _ else _] => destruct b
         | |- context [match find ?f ?l with _ => _ end] => destruct (find f l)
         end; done.
Qed.

(** X11. [do_stops] leaves alone every stored stop whose code is not the
    prefixed code of a stop row of the feed.  A stop row whose prefixed
    code is not stored yet gets a new stop under that code; the new stop
    belongs to the source of the run, is active, and has a name of at most
    48 characters. *)
Theorem do_stops_creates_and_keeps (cfg : Config) (feed : Feed) (s : Store) :
  (∀ code, (∀ line, line ∈ feed_stops feed → prefixed_stop cfg (stop_id line) ≠ code) →
           stop_points (do_stops cfg feed s).1 !! code = stop_points s !! code)
  ∧ (∀ line, line ∈ feed_stops feed →
             stop_points s !! prefixed_stop cfg (stop_id line) = None →
             ∃ x, stop_points (do_stops cfg feed s).1 !! prefixed_stop cfg (stop_id line)
                  = Some x
                  ∧ sp_atco_code x = prefixed_stop cfg (stop_id line)
                  ∧ sp_source x = Some (source_id cfg)
                  ∧ sp_active x = true
                  ∧ (String.length (sp_common_name x) ≤ 48)%nat).
Proof.
  rewrite do_stops_run. simpl. split.
  - intros code Hno. rewrite lookup_merge.
    destruct (candidate_stops cfg (feed_stops feed) !! code) as [c|] eqn:Ec.
    + apply candidate_stops_lookup in Ec as (line & Hin & _ & Hk).
      by destruct (Hno line Hin).
    + by destruct (stop_points s !! code).
  - intros line Hin Hnew. rewrite lookup_merge, Hnew.
    destruct (candidate_stops_has cfg (feed_stops feed) line Hin) as [c Hc].
    rewrite Hc. simpl. eexists. split; [done|].
    apply candidate_stops_lookup in Hc as (line' & _ & -> & Hk).
    destruct (assign_admin_area_fields cfg (admin_areas s) (candidate_stop cfg line'))
      as (-> & -> & _ & _ & -> & ->).
    rewrite candidate_stop_code.
    destruct (candidate_stop_owner cfg line') as [-> ->].
    split; [done|]. split; [done|]. split; [done|].
    apply candidate_stop_name_length.
Qed.

Lemma needs_update_settled cfg e c :
  sp_latlong e = sp_latlong c → sp_common_name e = sp_common_name c →
  needs_update cfg e c = false.
Proof.
  intros Hl Hn. unfold needs_update.
  rewrite (bool_decide_eq_false_2 (sp_latlong e ≠ sp_latlong c)) by (by intros ?).
  rewrite (bool_decide_eq_false_2 (sp_common_name e ≠ sp_common_name c)) by (by intros ?).
  by rewrite andb_false_r.
Qed.

(** X12. Running [do_stops] a second time with the same feed changes no
    stop: the stop table after two runs is the table after one. *)
Theorem do_stops_twice (cfg : Config) (feed : Feed) (s : Store) :
  stop_points (do_stops cfg feed (do_stops cfg feed s).1).1
  = stop_points (do_stops cfg feed s).1.
Proof.
  rewrite !do_stops_run. simpl. apply map_eq. intros k.
  rewrite !lookup_merge.
  destruct (candidate_stops cfg (feed_stops feed) !! k) as [c|];
    destruct (stop_points s !! k) as [e|]; simpl; try done.
  - destruct (needs_update cfg e c) eqn:En; simpl.
    + by rewrite needs_update_settled.
    + by rewrite En.
  - destruct (assign_admin_area_fields cfg (admin_areas s) c)
      as (_ & Hn & _ & Hl & _ & _).
    by rewrite needs_update_settled.
Qed.


(** X14. With the stop prefix that [handle] puts in effect, the
    configured one or else the lower-case source name and a hyphen, the
    prefix is never empty and the code of every stop of the feed is the
    prefix followed by the stop id. *)
Theorem stop_codes_are_prefixed (configured : string) (cfg : Config) (line : StopRow) :
  stop_prefix cfg = effective_stop_prefix configured (source_name cfg) →
  stop_prefix cfg ≠ ""
  ∧ sp_atco_code (candidate_stop cfg line) = stop_prefix cfg +:+ stop_id line
  ∧ (stop_prefix cfg = configured ∨ stop_prefix cfg = lower (source_name cfg) +:+ "-").
Proof.
  intros Hp. assert (stop_prefix cfg ≠ "") as Hne.
  { rewrite Hp. unfold effective_stop_prefix.
    destruct configured as [|a c]; simpl; [|done].
    destruct (lower (source_name cfg)); done. }
  split; [done|]. split.
  - rewrite candidate_stop_code. unfold prefixed_stop.
    destruct (stop_prefix cfg); [done|done].
  - rewrite Hp. unfold effective_stop_prefix. destruct (truthy configured); auto.
Qed.

Lemma stop_codes_are_prefixed_witness :
  stop_prefix Sample.cfg ≠ ""
  ∧ sp_atco_code (candidate_stop Sample.cfg (Sample.stop_row "A" 5))
    = stop_prefix Sample.cfg +:+ stop_id (Sample.stop_row "A" 5)
  ∧ (stop_prefix Sample.cfg = "" ∨ stop_prefix Sample.cfg = lower (source_name Sample.cfg) +:+ "-").
Proof.
  apply (stop_codes_are_prefixed "" Sample.cfg (Sample.stop_row "A" 5)).
  vm_compute. reflexivity.
Defined.

(** ** The trip loop, again *)

Lemma sorted_by_nonempty {A} (key : A → Z) (l : list A) : l ≠ [] → sorted_by key l ≠ [].
Proof.
  intros Hne E. pose proof (sorted_by_perm key l) as Hp. rewrite E in Hp.
  apply Permutation_nil_l in Hp. by subst.
Qed.

Lemma trip_times_start cfg by_trip stops line :
  is_Some (trip_times cfg by_trip stops (trip_id line)).1.1
  ↔ has_stop_times by_trip line = true.
Proof.
  unfold trip_times, has_stop_times.
  destruct (by_trip !! trip_id line) as [l|]; [|by split; [intros [? ?]|]].
  destruct (sorted_by st_stop_sequence l) as [|x l'] eqn:E.
  - destruct l as [|r rows]; [by split; [intros [? ?]|]|].
    by destruct (sorted_by_nonempty st_stop_sequence (r :: rows)).
  - destruct l as [|r rows]; [done|].
    destruct (last (x :: l')) eqn:El; [|by apply last_None in El].
    cbn [head fst]. by split; [|eexists].
Qed.

Lemma build_trip_facts cfg ext run by_trip stops line trip :
  build_trip cfg ext run by_trip stops line = Ok trip →
  tr_ticket_machine_code trip = trip_id line
  ∧ (is_Some (tr_start trip) ↔ has_stop_times by_trip line = true).
Proof.
  unfold build_trip. intros H.
  pose proof (trip_times_start cfg by_trip stops line) as Ht.
  repeat case_match; simplify_eq/=. done.
Qed.

Lemma keyed_codes n ts :
  map tr_ticket_machine_code (keyed n ts) = map tr_ticket_machine_code ts.
Proof. revert n. induction ts as [|t ts IH]; intros n; simpl; [done|]. by rewrite IH. Qed.

Lemma keyed_ids n ts : map tr_id (keyed n ts) = keys_from n (length ts).
Proof. revert n. induction ts as [|t ts IH]; intros n; simpl; [done|]. by rewrite IH. Qed.

Lemma length_keyed n ts : length (keyed n ts) = length ts.
Proof. revert n. induction ts as [|t ts IH]; intros n; simpl; [done|]. by rewrite IH. Qed.

Lemma keys_from_app n k1 k2 :
  keys_from n (k1 + k2) = keys_from n k1 ++ keys_from (n + Z.of_nat k1) k2.
Proof.
  revert n. induction k1 as [|k1 IH]; intros n.
  - simpl. by rewrite Z.add_0_r.
  - cbn [Nat.add keys_from app]. rewrite IH. do 3 f_equal. lia.
Qed.

(** [bulk_create] stores the trips in the order of the list, with the
    next keys of the sequence. *)
Lemma bulk_create_trips_run ts s :
  bulk_create_trips ts s
  = (with_trips (λ l, l ++ keyed (next_id s) ts)
       (with_next_id (next_id s + Z.of_nat (length ts)) s),
     Ok (keyed (next_id s) ts)).
Proof.
  revert s. induction ts as [|t ts IH]; intros s.
  - simpl. unfold ret. f_equal. destruct s; unfold with_trips, with_next_id; simpl.
    f_equal; [by rewrite app_nil_r|lia].
  - rewrite bulk_create_trips_cons, IH. simpl. f_equal.
    destruct s; unfold with_trips, with_next_id; simpl.
    f_equal; [by rewrite <- app_assoc|lia].
Qed.

Lemma flush_trips_run st s :
  flush_trips st s
  = (with_trips (λ l, l ++ keyed (next_id s) (valid_trips st))
       (with_next_id (next_id s + Z.of_nat (length (valid_trips st))) s),
     Ok {| valid_trips := [];
           created_trip_ids := created_trip_ids st;
           trip_id_to_pk :=
             foldl (λ m t, <[tr_ticket_machine_code t := tr_id t]> m)
               (trip_id_to_pk st) (keyed (next_id s) (valid_trips st)) |}).
Proof. unfold flush_trips. by rewrite bind_run, bulk_create_trips_run. Qed.

Lemma noted_keys_lookup (stored : list Trip) (m : gmap string Z) (k : string) :
  (foldl (λ m t, <[tr_ticket_machine_code t := tr_id t]> m) m stored !! k = m !! k
   ∧ ∀ t, t ∈ stored → tr_ticket_machine_code t ≠ k)
  ∨ (∃ t, t ∈ stored ∧ tr_ticket_machine_code t = k
          ∧ foldl (λ m t, <[tr_ticket_machine_code t := tr_id t]> m) m stored !! k
            = Some (tr_id t)).
Proof.
  revert m. induction stored as [|t stored IH]; intros m; simpl.
  - left. split; [done|]. intros t Ht. by apply not_elem_of_nil in Ht.
  - destruct (IH (<[tr_ticket_machine_code t := tr_id t]> m))
      as [[Heq Hno] | (t' & Hin & Hk & Hl)].
    + destruct (decide (tr_ticket_machine_code t = k)) as [Hk|Hk].
      * right. exists t. split; [left|]. split; [done|].
        by rewrite Heq, Hk, lookup_insert_eq.
      * left. split; [by rewrite Heq, lookup_insert_ne|].
        intros x [->|Hx]%elem_of_cons; [done|by apply Hno].
    + right. exists t'. split; [by right|done].
Qed.

Lemma elem_of_keyed n ts t :
  t ∈ ts → ∃ t', t' ∈ keyed n ts ∧ tr_ticket_machine_code t' = tr_ticket_machine_code t.
Proof.
  revert n. induction ts as [|x ts IH]; intros n Hin; [by apply not_elem_of_nil in Hin|].
  apply elem_of_cons in Hin as [->|Hin]; simpl.
  - eexists. split; [left|done].
  - destruct (IH (n + 1) Hin) as (t' & Hin' & Hc). exists t'. split; [by right|done].
Qed.

Lemma flush_keeps_order by_trip s0 handled s st :
  feed_order by_trip s0 handled s st →
  feed_order by_trip s0 handled (flush_trips st s).1
    {| valid_trips := [];
       created_trip_ids := created_trip_ids st;
       trip_id_to_pk :=
         foldl (λ m t, <[tr_ticket_machine_code t := tr_id t]> m)
           (trip_id_to_pk st) (keyed (next_id s) (valid_trips st)) |}.
Proof.
  intros (new & Ht & Hc & Hi & Hn & Hcr & Hk). rewrite flush_trips_run. simpl.
  exists (new ++ keyed (next_id s) (valid_trips st)). simpl.
  split; [by rewrite Ht, app_assoc|].
  split; [by rewrite map_app, keyed_codes, app_nil_r|].
  split.
  { by rewrite map_app, length_app, keys_from_app, Hi, keyed_ids, length_keyed, Hn. }
  split; [rewrite length_app, length_keyed, Hn; lia|].
  split; [done|].
  intros id Hid.
  left.
  destruct (noted_keys_lookup (keyed (next_id s) (valid_trips st)) (trip_id_to_pk st) id)
    as [[Heq Hno] | (t & Hin & Hcode & Hl)].
  - destruct (Hk id Hid) as [(pk & t & Hpk & Hin & Hid' & Hcode) | (t & Hin & Hcode)].
    + exists pk, t. rewrite Heq. split; [done|]. split; [|done].
      apply elem_of_app. by left.
    + destruct (elem_of_keyed (next_id s) (valid_trips st) t Hin) as (t' & Hin' & Hc').
      destruct (Hno t' Hin'). congruence.
  - exists (tr_id t), t. split; [done|]. split; [|done].
    apply elem_of_app. by right.
Qed.

Lemma filter_snoc_true {A} (P : A → Prop) `{∀ x, Decision (P x)} l x :
  P x → filter P (l ++ [x]) = filter P l ++ [x].
Proof. intros Hx. rewrite filter_app, filter_cons_True by done. done. Qed.

Lemma filter_snoc_false {A} (P : A → Prop) `{∀ x, Decision (P x)} l x :
  ¬ P x → filter P (l ++ [x]) = filter P l.
Proof.
  intros Hx. rewrite filter_app, filter_cons_False by done.
  by rewrite filter_nil, app_nil_r.
Qed.

Lemma trip_step_order cfg ext run by_trip stops s0 handled line s st s' st' :
  feed_order by_trip s0 handled s st →
  trip_step cfg ext run by_trip stops line st s = (s', Ok st') →
  feed_order by_trip s0 (handled ++ [line]) s' st'.
Proof.
  intros Hfo. unfold trip_step. rewrite bind_lift.
  destruct (build_trip cfg ext run by_trip stops line) as [trip|e] eqn:Eb; [|done].
  destruct (build_trip_facts _ _ _ _ _ _ _ Eb) as [Hcode Hstart].
  destruct (tr_start trip) as [start|] eqn:Es.
  - assert (has_stop_times by_trip line = true) as Hhas by (apply Hstart; eauto).
    set (st1 := {| valid_trips := valid_trips st ++ [trip];
                   created_trip_ids := {[trip_id line]} ∪ created_trip_ids st;
                   trip_id_to_pk := trip_id_to_pk st |}).
    assert (feed_order by_trip s0 (handled ++ [line]) s st1) as Hfo1.
    { destruct Hfo as (new & Ht & Hc & Hi & Hn & Hcr & Hk).
      exists new. subst st1. cbn [valid_trips created_trip_ids trip_id_to_pk].
      split; [done|]. split.
      { rewrite filter_snoc_true, !map_app, app_assoc, Hc by done.
        simpl. by rewrite Hcode. }
      split; [done|]. split; [done|]. split.
      - intros id. rewrite elem_of_union, elem_of_singleton, Hcr. split.
        + intros [->|(l & Hl & Hid & Hh)].
          * exists line. split; [|done]. apply elem_of_app. right. left.
          * exists l. split; [|done]. apply elem_of_app. by left.
        + intros (l & [Hl|Hl]%elem_of_app & Hid & Hh).
          * right. by exists l.
          * apply list_elem_of_singleton in Hl as ->. by left.
      - intros id [Hid|Hid]%elem_of_union.
        + apply elem_of_singleton in Hid as ->. right. exists trip.
          split; [|done]. apply elem_of_app. right. left.
        + destruct (Hk id Hid) as [Hl | (t & Hin & Hc')]; [by left|].
          right. exists t. split; [|done]. apply elem_of_app. by left. }
    fold st1. destruct (1000 <=? length (valid_trips st1))%nat.
    + intros Hrun. pose proof (flush_keeps_order _ _ _ _ _ Hfo1) as Hf.
      rewrite flush_trips_run in Hrun. rewrite flush_trips_run in Hf.
      by simplify_eq.
    + by intros [= <- <-].
  - intros [= <- <-].
    assert (has_stop_times by_trip line ≠ true) as Hhas.
    { intros Hh. apply Hstart in Hh. by destruct Hh. }
    destruct Hfo as (new & Ht & Hc & Hi & Hn & Hcr & Hk).
    exists new. split; [done|]. split; [by rewrite filter_snoc_false|].
    split; [done|]. split; [done|]. split; [|done].
    intros id. rewrite Hcr. split.
    + intros (l & Hl & Hid & Hh). exists l. split; [|done]. apply elem_of_app. by left.
    + intros (l & [Hl|Hl]%elem_of_app & Hid & Hh); [by exists l|].
      apply list_elem_of_singleton in Hl as ->. done.
Qed.

Lemma trip_loop_order cfg ext run by_trip stops s0 rows :
  ∀ handled s st s' st',
    feed_order by_trip s0 handled s st →
    for_each (trip_step cfg ext run by_trip stops) rows st s = (s', Ok st') →
    feed_order by_trip s0 (handled ++ rows) s' st'.
Proof.
  induction rows as [|line rows IH]; intros handled s st s' st' Hfo; simpl.
  - intros [= <- <-]. by rewrite app_nil_r.
  - rewrite bind_run.
    destruct (trip_step cfg ext run by_trip stops line st s) as [s1 [st1|e]] eqn:E;
      [|done].
    intros Hrun. rewrite (assoc_L (++) handled [line] rows) || rewrite cons_middle, app_assoc.
    eapply IH; [|done]. by eapply trip_step_order.
Qed.

Lemma feed_order_start by_trip s :
  feed_order by_trip s [] s
    {| valid_trips := []; created_trip_ids := ∅; trip_id_to_pk := ∅ |}.
Proof.
  exists []. simpl. split; [by rewrite app_nil_r|]. split; [done|].
  split; [done|]. split; [lia|]. split.
  - intros id. split; [set_solver|]. intros (l & Hl & _). by apply not_elem_of_nil in Hl.
  - set_solver.
Qed.

Lemma trips_phase_order cfg ext run by_trip stops rows s s' st :
  trips_phase cfg ext run by_trip stops rows s = (s', Ok st) →
  feed_order by_trip s rows s' st ∧ valid_trips st = [].
Proof.
  unfold trips_phase. rewrite bind_run.
  destruct (for_each _ rows _ s) as [s1 [st1|e]] eqn:E; [|done].
  pose proof (trip_loop_order _ _ _ _ _ _ _ _ _ _ _ _ (feed_order_start by_trip s) E)
    as Hfo.
  rewrite app_nil_l in Hfo.
  destruct (valid_trips st1) as [|t ts] eqn:Ev.
  - by intros [= <- <-].
  - intros Hrun. pose proof (flush_keeps_order _ _ _ _ _ Hfo) as Hf.
    rewrite flush_trips_run in Hrun. rewrite flush_trips_run in Hf.
    by simplify_eq.
Qed.

(** X15.  The trip loop of [handle_zipfile], when it returns, has added
    to the trip table, after the rows that were there, one trip for each
    row of [trips.txt] that has stop times and for no other row: in the
    order of the feed, with the feed's trip id as ticket-machine code, and
    with the next keys of the sequence one after the other, whatever the
    batches of 1000 they were written in. *)
Theorem trips_stored_in_feed_order cfg ext run by_trip stops rows s s' st :
  trips_phase cfg ext run by_trip stops rows s = (s', Ok st) →
  ∃ new,
    trips s' = trips s ++ new
    ∧ map tr_ticket_machine_code new
      = map trip_id (filter (λ line, has_stop_times by_trip line = true) rows)
    ∧ map tr_id new = keys_from (next_id s) (length new)
    ∧ next_id s' = next_id s + Z.of_nat (length new).
Proof.
  intros Hrun. apply trips_phase_order in Hrun as [(new & Ht & Hc & Hi & Hn & _) Hv].
  exists new. rewrite Hv in Hc. simpl in Hc. rewrite app_nil_r in Hc. done.
Qed.

(** X16.  When the trip loop returns, every trip id it marked as created
    is noted down with a key, and that key is the key of a stored trip
    whose ticket-machine code is this id; the marked ids are the ids of
    the rows of [trips.txt] that have stop times.  So the lookup
    [trip_id_to_pk[line.trip_id]] of the stop-time loop finds a key for
    every row it does not skip. *)
Theorem created_trips_are_noted cfg ext run by_trip stops rows s s' st id :
  trips_phase cfg ext run by_trip stops rows s = (s', Ok st) →
  id ∈ created_trip_ids st →
  (∃ line, line ∈ rows ∧ trip_id line = id ∧ has_stop_times by_trip line = true)
  ∧ ∃ pk t, trip_id_to_pk st !! id = Some pk ∧ t ∈ trips s'
            ∧ tr_id t = pk ∧ tr_ticket_machine_code t = id.
Proof.
  intros Hrun Hid.
  apply trips_phase_order in Hrun as [(new & Ht & Hc & Hi & Hn & Hcr & Hk) Hv].
  split; [by apply Hcr|].
  destruct (Hk id Hid) as [Hl | (t & Hin & _)]; [done|].
  rewrite Hv in Hin. by apply not_elem_of_nil in Hin.
Qed.

Lemma trips_stored_in_feed_order_witness :
  ∃ s' new,
    trips_phase Sample.cfg Sample.ext Sample.run_with_R1
      (group_stop_times Sample.three_calls) ∅
      [Sample.trip_row "R1" "T0"; Sample.trip_row "R1" "T1"] Sample.empty_store
    = (s', Ok Fixture.loop_T1)
    ∧ trips s' = trips Sample.empty_store ++ new
    ∧ map tr_ticket_machine_code new = ["T1"]
    ∧ map tr_id new = [1]
    ∧ next_id s' = 2.
Proof.
  destruct (trips_stored_in_feed_order Sample.cfg Sample.ext Sample.run_with_R1
              (group_stop_times Sample.three_calls) ∅
              [Sample.trip_row "R1" "T0"; Sample.trip_row "R1" "T1"] Sample.empty_store
              (trips_phase Sample.cfg Sample.ext Sample.run_with_R1
                 (group_stop_times Sample.three_calls) ∅
                 [Sample.trip_row "R1" "T0"; Sample.trip_row "R1" "T1"]
                 Sample.empty_store).1
              Fixture.loop_T1)
    as (new & Ht & Hc & Hi & Hn).
  { vm_compute. reflexivity. }
  eexists _, new. split; [vm_compute; reflexivity|].
  split; [exact Ht|]. split; [exact Hc|].
  assert (length new = 1%nat) as Hlen.
  { apply (f_equal length) in Hc. by rewrite length_map in Hc. }
  rewrite Hlen in Hi, Hn. split; [exact Hi|exact Hn].
Defined.

Lemma created_trips_are_noted_witness :
  (∃ line, line ∈ [Sample.trip_row "R1" "T0"; Sample.trip_row "R1" "T1"]
           ∧ trip_id line = "T1"
           ∧ has_stop_times (group_stop_times Sample.three_calls) line = true)
  ∧ ∃ pk t,
      trip_id_to_pk Fixture.loop_T1 !! "T1" = Some pk
      ∧ t ∈ trips (trips_phase Sample.cfg Sample.ext Sample.run_with_R1
                     (group_stop_times Sample.three_calls) ∅
                     [Sample.trip_row "R1" "T0"; Sample.trip_row "R1" "T1"]
                     Sample.empty_store).1
      ∧ tr_id t = pk ∧ tr_ticket_machine_code t = "T1".
Proof.
  apply (created_trips_are_noted Sample.cfg Sample.ext Sample.run_with_R1
           (group_stop_times Sample.three_calls) ∅
           [Sample.trip_row "R1" "T0"; Sample.trip_row "R1" "T1"] Sample.empty_store
           _ Fixture.loop_T1 "T1").
  - vm_compute. reflexivity.
  - vm_compute. reflexivity.
Defined.

(** ** The stop-time loop, again *)

Lemma stop_time_seconds_ok line :
  times_parse line ↔ ∃ r, stop_time_seconds line = Ok r.
Proof.
  unfold times_parse, stop_time_seconds. split.
  - intros [[d Hd] [a Ha]]. rewrite Hd, Ha.
    destruct (ne _ _); eauto.
  - destruct (duration_seconds (st_departure_time line)) as [d|e]; [|by intros [? ?]].
    assert (ne (of_cell (st_arrival_time line)) (VInt d) = true) as ->
      by (by destruct (st_arrival_time line)).
    destruct (duration_seconds (st_arrival_time line)) as [a|e]; [|by intros [? ?]].
    intros _. eauto.
Qed.

Lemma stop_time_row_raises cfg st line :
  ¬ times_parse line → ∃ e, stop_time_row cfg st line = Raise e.
Proof.
  intros Hno. unfold stop_time_row.
  destruct (stop_time_seconds line) as [r|e] eqn:E; [|by eexists].
  destruct Hno. apply stop_time_seconds_ok. by exists r.
Qed.

Lemma copy_rows_raises cfg st rows line :
  line ∈ rows → ¬ times_parse line → ∃ e, copy_rows cfg st rows = Raise e.
Proof.
  intros Hin Hno. induction rows as [|x rows IH]; [by apply not_elem_of_nil in Hin|].
  simpl. apply elem_of_cons in Hin as [<-|Hin].
  - destruct (stop_time_row_raises cfg st line Hno) as [e ->]. by eexists.
  - destruct (stop_time_row cfg st x); [|by eexists].
    destruct (IH Hin) as [e ->]. by eexists.
Qed.

Lemma copy_rows_order cfg st rows :
  Forall times_parse rows →
  (∀ id, id ∈ created_trip_ids st → is_Some (trip_id_to_pk st !! id)) →
  ∃ written,
    copy_rows cfg st rows = Ok written
    ∧ Forall2 (written_for cfg st) written
        (filter (λ line, st_trip_id line ∈ created_trip_ids st) rows).
Proof.
  intros Hrows Hnoted. induction Hrows as [|line rows Hline _ IH].
  - exists []. split; [done|]. rewrite filter_nil. constructor.
  - destruct IH as (rest & Hrest & Hall). simpl. rewrite Hrest.
    unfold stop_time_row.
    pose proof Hline as [[arr dep] Hs]%stop_time_seconds_ok. rewrite Hs.
    assert (duration_seconds (st_departure_time line) = Ok dep) as Hdep.
    { unfold stop_time_seconds in Hs.
      destruct (duration_seconds (st_departure_time line)); [|done].
      repeat case_match; by simplify_eq. }
    case_bool_decide as Hc.
    + destruct (Hnoted _ Hc) as [pk Hpk]. rewrite Hpk.
      eexists. split; [done|]. rewrite filter_cons_True by done. simpl.
      constructor; [|done]. by repeat split.
    + eexists. split; [done|]. by rewrite filter_cons_False.
Qed.

Lemma Forall2_strengthen {A B} (P R : A → B → Prop) (Q : B → Prop) l k :
  Forall2 P l k → Forall Q k → (∀ x y, P x y → Q y → R x y) → Forall2 R l k.
Proof.
  intros H2 Hq Himp. induction H2 as [|x y l k Hxy _ IH]; [constructor|].
  apply Forall_cons in Hq as [Hy Hq]. constructor; [by apply Himp|by apply IH].
Qed.





(** ** Services and routes *)

Lemma first_by_id_elem svs sv : first_by_id svs = Some sv → sv ∈ svs.
Proof.
  revert sv. induction svs as [|x svs IH]; intros sv; simpl; [done|].
  destruct (first_by_id svs) as [m|].
  - destruct (sv_id x <=? sv_id m); intros [= <-]; [left|right; by apply IH].
  - intros [= <-]. left.
Qed.

Lemma find_service_elem s operator code line_name description sv :
  find_service s operator code line_name description = Some sv → sv ∈ services s.
Proof.
  unfold find_service. intros H%first_by_id_elem.
  by apply list_elem_of_filter in H as [_ ?].
Qed.

Lemma replace_service_ids sv svs : map sv_id (replace_service sv svs) = map sv_id svs.
Proof.
  unfold replace_service. rewrite map_map. apply map_ext_in. intros x _.
  destruct (sv_id x =? sv_id sv) eqn:E; [|done]. simpl. symmetry. by apply Z.eqb_eq.
Qed.

Lemma elem_of_replace_service sv svs x :
  x ∈ svs → sv_id x = sv_id sv → sv ∈ replace_service sv svs.
Proof.
  intros Hin Hid. unfold replace_service. apply list_elem_of_fmap.
  exists x. split; [|done]. by rewrite Hid, Z.eqb_refl.
Qed.

Lemma replace_service_other sv svs :
  (∀ x, x ∈ svs → sv_id x ≠ sv_id sv) → replace_service sv svs = svs.
Proof.
  intros Hno. unfold replace_service. induction svs as [|x svs IH]; simpl; [done|].
  rewrite IH by (intros y Hy; apply Hno; by right).
  destruct (sv_id x =? sv_id sv) eqn:E; [|done].
  apply Z.eqb_eq in E. destruct (Hno x); [left|done].
Qed.

(** X19.  [handle_route] looks for the service of a route row among the
    services of the operator, whatever their source.  A service it finds,
    also one of another source, is kept under its id and taken over: it
    is saved with the source of the run, as current and with the route id
    of the row as service code; no service is added and no id is taken
    from the sequence. *)
Theorem matching_service_is_taken_over cfg ext line run operator line_name description
    s sv :
  find_service s operator (route_id line) line_name description = Some sv →
  ∃ s' sv',
    save_service cfg ext line run operator line_name description s = (s', Ok sv')
    ∧ sv_id sv' = sv_id sv
    ∧ sv_source sv' = Some (source_id cfg)
    ∧ sv_current sv' = true
    ∧ sv_service_code sv' = route_id line
    ∧ sv' ∈ services s'
    ∧ map sv_id (services s') = map sv_id (services s)
    ∧ next_id s' = next_id s.
Proof.
  intros Hfind. pose proof (find_service_elem _ _ _ _ _ _ Hfind) as Hin.
  unfold save_service. rewrite bind_query, Hfind.
  destruct operator as [o|]; cbn; eexists _, _; (split; [reflexivity|]);
    cbn [services next_id with_services with_next_id sv_id sv_source sv_current
         sv_service_code sv_operators];
    repeat (split; [done|]).
  - split; [|by rewrite !replace_service_ids].
    eapply elem_of_replace_service;
      [by eapply elem_of_replace_service; [exact Hin|]|done].
  - split; [|by rewrite !replace_service_ids].
    by eapply elem_of_replace_service; [exact Hin|].
Qed.

(** X20.  When no service of the operator matches the route row,
    [handle_route] makes exactly one: it is added after the services that
    are there, which stay as they are, with the next id of the sequence,
    and its operators are the operator of the row, if there is one. *)
Theorem unmatched_route_gets_a_new_service cfg ext line run operator line_name
    description s :
  find_service s operator (route_id line) line_name description = None →
  (∀ x, x ∈ services s → sv_id x < next_id s) →
  ∃ s' sv',
    save_service cfg ext line run operator line_name description s = (s', Ok sv')
    ∧ services s' = services s ++ [sv']
    ∧ sv_id sv' = next_id s
    ∧ next_id s' = next_id s + 1
    ∧ sv_source sv' = Some (source_id cfg)
    ∧ sv_current sv' = true
    ∧ sv_operators sv' = from_option (λ o, [op_noc o]) [] operator.
Proof.
  intros Hfind Hbound. unfold save_service. rewrite bind_query, Hfind.
  destruct operator as [o|]; cbn; eexists _, _; (split; [reflexivity|]);
    cbn [services next_id with_services with_next_id sv_id sv_source sv_current
         sv_service_code sv_operators];
    [|by repeat split].
  split; [|repeat (split; [done|]); by case_bool_decide].
  unfold replace_service. rewrite map_app. simpl. rewrite Z.eqb_refl.
  f_equal.
  match goal with
  | |- map (λ x, if _ then ?new else x) _ = _ =>
      apply (replace_service_other new (services s))
  end.
  intros x Hx. simpl. specialize (Hbound x Hx). lia.
Qed.

Lemma save_service_stored cfg ext line run operator line_name description s s1 sv :
  save_service cfg ext line run operator line_name description s = (s1, Ok sv) →
  sv ∈ services s1 ∧ sv_current sv = true ∧ sv_source sv = Some (source_id cfg)
  ∧ sv_service_code sv = route_id line
  ∧ sv_line_name sv = line_name ∧ sv_description sv = description.
Proof.
  unfold save_service. rewrite bind_query.
  destruct (find_service s operator (route_id line) line_name description) as [found|]
    eqn:Hfind.
  - pose proof (find_service_elem _ _ _ _ _ _ Hfind) as Hin.
    destruct operator as [o|]; cbn; intros [= <- <-];
      cbn [services with_services sv_current sv_source sv_service_code sv_line_name
           sv_description];
      (split; [|done]).
    + eapply elem_of_replace_service;
        [by eapply elem_of_replace_service; [exact Hin|]|done].
    + by eapply elem_of_replace_service; [exact Hin|].
  - destruct operator as [o|]; cbn; intros [= <- <-];
      cbn [services with_services with_next_id sv_current sv_source sv_service_code
           sv_line_name sv_description];
      (split; [|done]).
    + eapply elem_of_replace_service; [apply elem_of_app; right; left|done].
    + apply elem_of_app. right. left.
Qed.

Lemma update_or_create_route_stored cfg line service s s' r :
  update_or_create_route cfg line service s = (s', Ok r) →
  r ∈ routes s' ∧ services s' = services s
  ∧ rt_source r = source_id cfg ∧ rt_code r = route_id line
  ∧ rt_service r = Some (sv_id service)
  ∧ rt_line_name r = sv_line_name service
  ∧ rt_description r = sv_description service.
Proof.
  unfold update_or_create_route. rewrite bind_query.
  destruct (filter _ (routes s)) as [|old [|]] eqn:Ef; [| |done].
  - cbn. intros [= <- <-]. cbn [routes services with_routes with_next_id].
    split; [|done]. apply elem_of_app. right. left.
  - assert (old ∈ routes s ∧ rt_source old = source_id cfg ∧ rt_code old = route_id line)
      as (Hin & Hsrc & Hcode).
    { assert (old ∈ filter (λ r, rt_source r = source_id cfg ∧ rt_code r = route_id line)
                      (routes s)) as H by (rewrite Ef; left).
      apply list_elem_of_filter in H. tauto. }
    cbn. intros [= <- <-]. unfold delete_trips_of_route.
    cbn [routes services with_routes with_trips with_stop_times].
    split; [|done]. unfold replace_route. apply list_elem_of_fmap.
    exists old. split; [|done]. simpl. by rewrite Z.eqb_refl.
Qed.

(** X21.  When [handle_route] returns, the dictionaries of the run have
    the route and the service of the row, and both are in the store: the
    route under the source of the run and the route id of the row, with
    the service as its service and with the line name and description of
    the service; the service as a current service of the source with the
    route id as service code. *)
Theorem handled_route_has_its_service cfg ext line run s s' run' :
  handle_route cfg ext line run s = (s', Ok run') →
  ∃ r sv,
    run_routes run' !! route_id line = Some r
    ∧ run_services run' !! sv_id sv = Some sv
    ∧ run_route_operators run' !! route_id line = Some (route_operator cfg run line)
    ∧ r ∈ routes s' ∧ sv ∈ services s'
    ∧ route_key r = (source_id cfg, route_id line)
    ∧ rt_service r = Some (sv_id sv)
    ∧ rt_line_name r = sv_line_name sv ∧ rt_description r = sv_description sv
    ∧ sv_current sv = true ∧ sv_source sv = Some (source_id cfg)
    ∧ sv_service_code sv = route_id line.
Proof.
  unfold handle_route. rewrite bind_run.
  destruct (save_service _ _ _ _ _ _ _ s) as [s1 [sv|e]] eqn:Es; [|done].
  rewrite bind_run.
  destruct (update_or_create_route cfg line sv s1) as [s2 [r|e]] eqn:Er; [|done].
  intros [= <- <-].
  apply save_service_stored in Es as (Hsv & Hcur & Hsrc & Hcode & _).
  apply update_or_create_route_stored in Er as (Hr & Hsame & Hrs & Hrc & Hserv & Hn & Hd).
  exists r, sv. cbn [run_routes run_services run_route_operators].
  rewrite !lookup_insert_eq. unfold route_key. rewrite Hsame, Hrs, Hrc. done.
Qed.

Lemma matching_service_is_taken_over_witness :
  sv_source Fixture.service_of_source_9 = Some 9
  ∧ ∃ s' sv',
      save_service Sample.cfg Sample.ext Sample.route_R1 empty_run None "10" "Town - Port"
        Fixture.foreign_service = (s', Ok sv')
      ∧ sv_id sv' = sv_id Fixture.service_of_source_9
      ∧ sv_source sv' = Some (source_id Sample.cfg)
      ∧ sv_current sv' = true
      ∧ sv_service_code sv' = route_id Sample.route_R1
      ∧ sv' ∈ services s'
      ∧ map sv_id (services s') = map sv_id (services Fixture.foreign_service)
      ∧ next_id s' = next_id Fixture.foreign_service.
Proof.
  split; [reflexivity|].
  apply (matching_service_is_taken_over Sample.cfg Sample.ext Sample.route_R1 empty_run
           None "10" "Town - Port" Fixture.foreign_service Fixture.service_of_source_9).
  vm_compute. reflexivity.
Defined.

Lemma unmatched_route_gets_a_new_service_witness :
  ∃ s' sv',
    save_service Sample.cfg Sample.ext Fixture.route_R7 empty_run None "77" "Seven Hills"
      Sample.two_services = (s', Ok sv')
    ∧ services s' = services Sample.two_services ++ [sv']
    ∧ sv_id sv' = next_id Sample.two_services
    ∧ next_id s' = next_id Sample.two_services + 1
    ∧ sv_source sv' = Some (source_id Sample.cfg)
    ∧ sv_current sv' = true
    ∧ sv_operators sv' = [].
Proof.
  apply (unmatched_route_gets_a_new_service Sample.cfg Sample.ext Fixture.route_R7
           empty_run None "77" "Seven Hills" Sample.two_services).
  - vm_compute. reflexivity.
  - intros x Hx.
    repeat (apply elem_of_cons in Hx as [->|Hx]; [vm_compute; reflexivity|]).
    by apply not_elem_of_nil in Hx.
Defined.

Lemma handled_route_has_its_service_witness :
  ∃ s' run' r sv,
    handle_route Sample.cfg Sample.ext Sample.route_R1 empty_run Fixture.foreign_service
    = (s', Ok run')
    ∧ run_routes run' !! "R1" = Some r
    ∧ run_services run' !! sv_id sv = Some sv
    ∧ r ∈ routes s' ∧ sv ∈ services s'
    ∧ route_key r = (1, "R1")
    ∧ rt_service r = Some (sv_id sv)
    ∧ sv_current sv = true ∧ sv_source sv = Some 1.
Proof.
  destruct (handled_route_has_its_service Sample.cfg Sample.ext Sample.route_R1 empty_run
              Fixture.foreign_service
              (handle_route Sample.cfg Sample.ext Sample.route_R1 empty_run
                 Fixture.foreign_service).1
              {| run_operators := [];
                 run_routes :=
                   {[ "R1" := {| rt_id := 2; rt_source := 1; rt_code := "R1";
                                 rt_line_name := "10"; rt_description := "Town - Port";
                                 rt_service := Some 1 |} ]};
                 run_route_operators := {[ "R1" := None ]};
                 run_services :=
                   {[ 1 := {| sv_id := 1; sv_service_code := "R1"; sv_line_name := "10";
                              sv_description := "Town - Port"; sv_mode := "bus";
                              sv_current := true; sv_source := Some 1;
                              sv_operators := [] |} ]} |})
    as (r & sv & Hr & Hsv & _ & Hin & Hins & Hkey & Hserv & _ & _ & Hcur & Hsrc & _).
  { vm_compute. reflexivity. }
  eexists _, _, r, sv. split; [vm_compute; reflexivity|].
  repeat split; assumption.
Defined.

Lemma dict_get_elem {K V} `{EqDecision K} (k : K) (v : V) (d : list (K * V)) :
  dict_get k d = Some v → (k, v) ∈ d.
Proof.
  induction d as [|[k0 v0] d IH]; simpl; [done|].
  destruct (decide (k0 = k)) as [->|_].
  - intros [= ->]. left.
  - intros H. right. by apply IH.
Qed.


(** ** Retiring *)

Lemma in_run_detach cfg run rs r :
  r ∈ detach_old_routes cfg run rs →
  ∃ r0, r0 ∈ rs ∧ rt_id r = rt_id r0 ∧ rt_source r = rt_source r0
        ∧ ((r = r0 ∧ (rt_source r0 ≠ source_id cfg ∨ in_run run r0 = true))
           ∨ (rt_service r = None ∧ rt_source r0 = source_id cfg
              ∧ in_run run r0 = false)).
Proof.
  unfold detach_old_routes. intros (r0 & -> & Hin)%list_elem_of_fmap.
  exists r0. split; [done|].
  destruct (bool_decide (rt_source r0 = source_id cfg) && negb (in_run run r0)) eqn:E.
  - apply andb_true_iff in E as [Hs Hr]. apply bool_decide_eq_true in Hs.
    apply negb_true_iff in Hr. repeat split; try done. by right.
  - repeat split; try done. left. split; [done|].
    apply andb_false_iff in E as [Hs|Hr].
    + left. by apply bool_decide_eq_false in Hs.
    + right. by apply negb_false_iff in Hr.
Qed.

Lemma detach_old_routes_ids cfg run rs :
  map rt_id (detach_old_routes cfg run rs) = map rt_id rs.
Proof.
  unfold detach_old_routes. rewrite map_map. apply map_ext. intros r.
  by destruct (_ && _).
Qed.

Lemma retire_services_ids cfg run rs svs :
  map sv_id (retire_services cfg run rs svs) = map sv_id svs.
Proof.
  unfold retire_services. rewrite map_map. apply map_ext. intros sv.
  by destruct (_ && _ && _).
Qed.

(** X23.  After the clean-up at the end of [handle_zipfile], a route of
    the source that still has a service is a route of this run, and a
    service of the source that is still current has a route of this run;
    routes and services of other sources are as they were, and no row of
    either table has gone. *)
Theorem retire_phase_post cfg run s :
  let s' := (retire_phase cfg run s).1 in
  (∀ r, r ∈ routes s' → rt_source r = source_id cfg → is_Some (rt_service r) →
        in_run run r = true)
  ∧ (∀ sv, sv ∈ services s' → sv_source sv = Some (source_id cfg) →
           sv_current sv = true →
           ∃ r, r ∈ routes s' ∧ rt_service r = Some (sv_id sv) ∧ in_run run r = true)
  ∧ (∀ r, r ∈ routes s → rt_source r ≠ source_id cfg → r ∈ routes s')
  ∧ (∀ sv, sv ∈ services s → sv_source sv ≠ Some (source_id cfg) → sv ∈ services s')
  ∧ map rt_id (routes s') = map rt_id (routes s)
  ∧ map sv_id (services s') = map sv_id (services s).
Proof.
  unfold retire_phase. rewrite bind_write. unfold write.
  cbn [fst routes services with_routes with_services].
  split; [|split; [|split; [|split; [|split]]]].
  - intros r Hin Hsrc [i Hi].
    apply in_run_detach in Hin as (r0 & _ & _ & Hs0 & [[-> [Hne|Hrun]]|(Hnone & _)]);
      [done|done|congruence].
  - intros sv Hin Hsrc Hcur. unfold retire_services in Hin.
    apply list_elem_of_fmap in Hin as (sv0 & -> & Hin0).
    destruct (bool_decide (sv_source sv0 = Some (source_id cfg)) && sv_current sv0
              && negb (existsb _ _)) eqn:E; [done|].
    apply andb_false_iff in E as [E|E].
    { apply andb_false_iff in E as [E|E]; [|congruence].
      apply bool_decide_eq_false in E. done. }
    apply negb_false_iff, existsb_exists in E as (r & Hr & Hc).
    apply andb_true_iff in Hc as [Hserv Hrun]. apply bool_decide_eq_true in Hserv.
    exists r. split; [by apply list_elem_of_In|done].
  - intros r Hin Hsrc. unfold detach_old_routes. apply list_elem_of_fmap.
    exists r. split; [|done]. by rewrite bool_decide_eq_false_2.
  - intros sv Hin Hsrc. unfold retire_services. apply list_elem_of_fmap.
    exists sv. split; [|done]. by rewrite bool_decide_eq_false_2.
  - apply detach_old_routes_ids.
  - apply retire_services_ids.
Qed.

(** ** What a run leaves alone *)

#[global] Instance unchanged_preorder {A} (f : Store → A) : PreOrder (unchanged f).
Proof.
  split.
  - by intros s.
  - intros s1 s2 s3 H1 H2. unfold unchanged in *. congruence.
Qed.

#[global] Instance untouched_preorder : PreOrder untouched.
Proof.
  split.
  - by intros s.
  - intros s1 s2 s3 [H1 H2] [H3 H4]. split; congruence.
Qed.

Create HintDb untouched discriminated.

Ltac untouched_tac :=
  repeat first
    [ solve [auto with untouched nocore]
    | progress cbv zeta
    | stable_step
    | by intros ?
    | apply stable_write; intros ?; by split ].

Lemma untouched_handle_route cfg ext line run :
  stable untouched (handle_route cfg ext line run).
Proof. unfold handle_route, save_service, update_or_create_route. untouched_tac. Qed.
#[local] Hint Resolve untouched_handle_route : untouched.

Lemma untouched_routes cfg ext feed ops : stable untouched (routes_phase cfg ext feed ops).
Proof. unfold routes_phase. untouched_tac. Qed.
#[local] Hint Resolve untouched_routes : untouched.

Lemma untouched_do_stops cfg feed : stable untouched (do_stops cfg feed).
Proof. unfold do_stops. untouched_tac. Qed.
#[local] Hint Resolve untouched_do_stops : untouched.

Lemma untouched_bulk_create ts : stable untouched (bulk_create_trips ts).
Proof. induction ts; simpl; untouched_tac. Qed.
#[local] Hint Resolve untouched_bulk_create : untouched.

Lemma untouched_flush st : stable untouched (flush_trips st).
Proof. unfold flush_trips. untouched_tac. Qed.
#[local] Hint Resolve untouched_flush : untouched.

Lemma untouched_trips cfg ext run by_trip stops rows :
  stable untouched (trips_phase cfg ext run by_trip stops rows).
Proof. unfold trips_phase, trip_step. untouched_tac. Qed.
#[local] Hint Resolve untouched_trips : untouched.

Lemma untouched_stop_times cfg st rows : stable untouched (stop_times_phase cfg st rows).
Proof. unfold stop_times_phase. untouched_tac. Qed.
#[local] Hint Resolve untouched_stop_times : untouched.

Lemma untouched_retire cfg run : stable untouched (retire_phase cfg run).
Proof. unfold retire_phase. untouched_tac. Qed.
#[local] Hint Resolve untouched_retire : untouched.

Lemma links_handle_operator cfg line :
  stable (unchanged route_links) (handle_operator cfg line).
Proof. unfold handle_operator. untouched_tac. Qed.

Lemma links_agencies cfg feed : stable (unchanged route_links) (agencies_phase cfg feed).
Proof. unfold agencies_phase. pose proof links_handle_operator. untouched_tac. Qed.

Lemma operators_no_agencies cfg feed :
  handle_agencies cfg = false ∨ feed_agency feed = None →
  stable (unchanged operators) (agencies_phase cfg feed).
Proof.
  unfold agencies_phase. intros [->| ->]; [destruct (feed_agency feed)|]; untouched_tac.
Qed.

Lemma unchanged_untouched {A} (m : M A) :
  stable untouched m → stable (unchanged operators) m ∧ stable (unchanged route_links) m.
Proof. intros H. split; intros s; by destruct (H s). Qed.

Lemma operators_route_links project substring wkt cfg feed rs stops :
  stable (unchanged operators) (do_route_links project substring wkt cfg feed rs stops).
Proof. unfold do_route_links, store_link. untouched_tac. Qed.

Ltac frame_of_run :=
  unfold handle_zipfile;
  repeat first
    [ progress cbv zeta
    | assumption
    | solve [apply unchanged_untouched; auto with untouched nocore]
    | solve [auto]
    | congruence
    | apply stable_ret; typeclasses eauto
    | apply stable_bind; [typeclasses eauto| |intros ?]
    | match goal with
      | |- stable _ (if ?x then _ else _) => destruct x eqn:?
      end ].

(** X24.  A run of [handle_zipfile] that does not handle agencies, because
    the setting is off or the feed has no agency table, leaves the
    operator table as it is, whether it returns or raises: no other step
    of the run writes an operator. *)
Theorem run_without_agencies_keeps_operators (project : list Point → Point → Q)
    (substring : list Point → Q → Q → Geom) (wkt : list Point → string)
    (cfg : Config) (ext : Collaborators) (feed : Feed) (s : Store) :
  handle_agencies cfg = false ∨ feed_agency feed = None →
  operators (handle_zipfile project substring wkt cfg ext feed s).1 = operators s.
Proof.
  intros Hno. revert s.
  change (stable (unchanged operators) (handle_zipfile project substring wkt cfg ext feed)).
  pose proof (operators_no_agencies cfg feed Hno).
  pose proof (operators_route_links project substring wkt cfg feed).
  frame_of_run.
Qed.

(** X25.  With [skip_route_links] set, a run of [handle_zipfile] leaves
    the table of route links as it is, whether it returns or raises: only
    [do_route_links] writes route links. *)
Theorem run_that_skips_links_keeps_links (project : list Point → Point → Q)
    (substring : list Point → Q → Q → Geom) (wkt : list Point → string)
    (cfg : Config) (ext : Collaborators) (feed : Feed) (s : Store) :
  skip_route_links cfg = true →
  route_links (handle_zipfile project substring wkt cfg ext feed s).1 = route_links s.
Proof.
  intros Hskip. revert s.
  change (stable (unchanged route_links)
            (handle_zipfile project substring wkt cfg ext feed)).
  pose proof (links_agencies cfg feed).
  frame_of_run.
Qed.

Lemma run_without_agencies_keeps_operators_witness :
  operators (handle_zipfile Sample.project Sample.substring Sample.wkt Sample.cfg
               Sample.ext Sample.feed_of_R1 Fixture.one_operator).1
  = operators Fixture.one_operator.
Proof.
  apply (run_without_agencies_keeps_operators Sample.project Sample.substring Sample.wkt
           Sample.cfg Sample.ext Sample.feed_of_R1 Fixture.one_operator).
  right. reflexivity.
Defined.

Lemma run_that_skips_links_keeps_links_witness :
  route_links (handle_zipfile Sample.project Sample.substring Sample.wkt
                 Fixture.cfg_without_links Sample.ext Fixture.feed_with_shapes
                 Sample.empty_store).1
  = route_links Sample.empty_store.
Proof.
  apply (run_that_skips_links_keeps_links Sample.project Sample.substring Sample.wkt
           Fixture.cfg_without_links Sample.ext Fixture.feed_with_shapes
           Sample.empty_store).
  reflexivity.
Defined.

(** ** Route links, again *)

Lemma dict_get_set {K V} `{EqDecision K} (k k' : K) (v : V) (d : list (K * V)) :
  dict_get k' (dict_set k v d) = if decide (k = k') then Some v else dict_get k' d.
Proof.
  induction d as [|[k0 v0] d IH]; simpl.
  - by destruct (decide (k = k')).
  - destruct (decide (k0 = k)) as [->|Hne]; simpl.
    + by destruct (decide (k = k')).
    + destruct (decide (k0 = k')) as [->|Hne'].
      * by rewrite decide_False by done.
      * done.
Qed.

Lemma dict_set_fresh {K V} `{EqDecision K} (k : K) (v : V) (d : list (K * V)) :
  dict_get k d = None → dict_set k v d = d ++ [(k, v)].
Proof.
  induction d as [|[k0 v0] d IH]; simpl; [done|].
  destruct (decide (k0 = k)); [done|]. intros Hn. by rewrite IH.
Qed.

Lemma dict_get_None_keys {K V} `{EqDecision K} (k : K) (d : list (K * V)) :
  dict_get k d = None ↔ k ∉ map fst d.
Proof.
  induction d as [|[k0 v0] d IH]; simpl.
  - split; [intros _; apply not_elem_of_nil|done].
  - rewrite not_elem_of_cons. destruct (decide (k0 = k)) as [->|Hne].
    + split; [done|]. by intros [? _].
    + rewrite IH. split; [by intros ?; split|by intros [_ ?]].
Qed.

Section LinkFacts.

Variable project : list Point → Point → Q.
Variable substring : list Point → Q → Q → Geom.
Variable wkt : list Point → string.

Lemma links_grow_refl existing links : links_grow existing links links.
Proof. by repeat split. Qed.

Lemma links_grow_trans existing l1 l2 l3 :
  links_grow existing l1 l2 → links_grow existing l2 l3 → links_grow existing l1 l3.
Proof.
  intros (H1 & H2 & H3) (H4 & H5 & H6). repeat split; auto.
Qed.

Lemma link_step_grows cfg existing stops geometry service ab links cursor links' cursor' :
  link_step project substring wkt cfg existing stops geometry service ab (links, cursor)
  = Ok (links', cursor') →
  links_grow existing links links'.
Proof.
  unfold link_step. cbv beta iota zeta.
  case_bool_decide as Hkey; [intros [= <- <-]; apply links_grow_refl|].
  destruct (start_distance _ _ _ _ _) as [start|]; [|done].
  destruct (stop_point_of _ _) as [point_b|]; [|done].
  destruct (substring _ _ _) as [pts|]; intros [= <- <-]; [|apply links_grow_refl].
  assert (dict_get ((service, prefixed_stop cfg (st_stop_id ab.1),
                     prefixed_stop cfg (st_stop_id ab.2)) : LinkKey) links = None) as Hnone.
  { destruct (dict_get _ links) eqn:E; [|done]. destruct Hkey. by eexists. }
  rewrite (dict_set_fresh _ _ _ Hnone).
  split; [|split].
  - intros k rl Hk. rewrite <- Hk. clear -Hk.
    induction links as [|[k0 v0] links IH]; simpl in *; [done|].
    destruct (decide (k0 = k)); [done|]. by apply IH.
  - intros Hnd. rewrite map_app. simpl. apply NoDup_app. split; [done|].
    split; [|apply NoDup_singleton].
    intros k Hk ->%list_elem_of_singleton. by apply dict_get_None_keys in Hnone.
  - intros Hall. apply Forall_app. split; [done|]. apply Forall_singleton.
    unfold link_of. cbn [fst snd].
    destruct (existing !! _) as [e|]; by cbn.
Qed.

Lemma link_pairs_grows cfg existing stops geometry service pairs :
  ∀ links cursor links' cursor',
    link_pairs project substring wkt cfg existing stops geometry service pairs
      (links, cursor) = Ok (links', cursor') →
    links_grow existing links links'.
Proof.
  induction pairs as [|ab pairs IH]; intros links cursor links' cursor'; cbn [link_pairs].
  - intros [= <- <-]. apply links_grow_refl.
  - destruct (link_step _ _ _ _ _ _ _ _ _ _) as [[l1 c1]|] eqn:E; [|done].
    intros Hrest. eapply links_grow_trans; [by eapply link_step_grows|by eapply IH].
Qed.

Lemma link_trip_grows cfg feed shapes existing rs stops trip links links' :
  link_trip project substring wkt cfg feed shapes existing rs stops trip links = Ok links' →
  links_grow existing links links'.
Proof.
  unfold link_trip.
  destruct (shape_id trip ≫= _) as [geometry|]; [|intros [= <-]; apply links_grow_refl].
  destruct (rs !! trip_route_id trip) as [route|]; [|done].
  destruct (link_pairs _ _ _ _ _ _ _ _ _ _) as [[l1 c1]|] eqn:E; [|done].
  intros [= <-]. by eapply link_pairs_grows.
Qed.

Lemma link_trips_grows cfg feed shapes existing rs stops reps :
  ∀ links links',
    link_trips project substring wkt cfg feed shapes existing rs stops reps links
    = Ok links' →
    links_grow existing links links'.
Proof.
  induction reps as [|trip reps IH]; intros links links'; cbn [link_trips].
  - intros [= <-]. apply links_grow_refl.
  - destruct (link_trip _ _ _ _ _ _ _ _ _ _ _) as [l1|] eqn:E; [|done].
    intros Hrest. eapply links_grow_trans; [by eapply link_trip_grows|by eapply IH].
Qed.

Lemma link_trips_app cfg feed shapes existing rs stops before after links :
  link_trips project substring wkt cfg feed shapes existing rs stops (before ++ after) links
  = match link_trips project substring wkt cfg feed shapes existing rs stops before links with
    | Ok mid => link_trips project substring wkt cfg feed shapes existing rs stops after mid
    | Raise e => Raise e
    end.
Proof.
  revert links. induction before as [|trip before IH]; intros links; cbn [link_trips app]; [done|].
  by destruct (link_trip _ _ _ _ _ _ _ _ _ _ _).
Qed.

(** X26.  In [do_route_links] the first trip that gives a link to a key
    (service, from stop, to stop) decides it: what the trips [before]
    have put into the dictionary is still there, entry by entry, when the
    trips [after] have been worked through as well. *)
Theorem first_link_of_a_key_stays cfg feed shapes existing rs stops before after links :
  link_trips project substring wkt cfg feed shapes existing rs stops (before ++ after) []
  = Ok links →
  ∃ mid,
    link_trips project substring wkt cfg feed shapes existing rs stops before [] = Ok mid
    ∧ ∀ k rl, dict_get k mid = Some rl → dict_get k links = Some rl.
Proof.
  rewrite link_trips_app.
  destruct (link_trips _ _ _ _ _ _ _ _ _ before []) as [mid|] eqn:E; [|done].
  intros Hafter. exists mid. split; [done|].
  by apply link_trips_grows in Hafter as [H _].
Qed.

(** X27.  The links that [do_route_links] collects have distinct keys,
    and each is the link of its key: the stored link of that key, with
    its id, service and stops, when there is one, and else a link
    without id that has the service and the stops of the key. *)
Theorem collected_links_by_key cfg feed shapes existing rs stops reps links :
  link_trips project substring wkt cfg feed shapes existing rs stops reps [] = Ok links →
  NoDup (map fst links) ∧ Forall (λ kv, link_of existing kv.1 kv.2) links.
Proof.
  intros (_ & Hnd & Hall)%link_trips_grows. split.
  - apply Hnd. constructor.
  - apply Hall. constructor.
Qed.

Lemma update_link_idents rl stored :
  map rl_id (update_link rl stored) = map rl_id stored
  ∧ map link_ident (update_link rl stored) = map link_ident stored.
Proof.
  unfold update_link. rewrite !map_map. split; apply map_ext; intros x;
    by case_bool_decide.
Qed.

Lemma update_links_idents rls stored :
  map rl_id (foldl (λ acc rl, update_link rl acc) stored rls) = map rl_id stored
  ∧ map link_ident (foldl (λ acc rl, update_link rl acc) stored rls)
    = map link_ident stored.
Proof.
  revert stored. induction rls as [|rl rls IH]; intros stored; simpl; [done|].
  destruct (IH (update_link rl stored)) as [-> ->]. apply update_link_idents.
Qed.

Lemma store_links_run rls s :
  ∃ added,
    for_each (λ rl _, store_link rl) rls tt s
    = (with_route_links (λ l, l ++ added)
         (with_next_id (next_id s + Z.of_nat (length rls)) s), Ok tt)
    ∧ map link_ident added = map link_ident rls
    ∧ map rl_geometry added = map rl_geometry rls
    ∧ map rl_id added = map Some (keys_from (next_id s) (length rls)).
Proof.
  revert s. induction rls as [|rl rls IH]; intros s.
  - exists []. split; [|done]. simpl. unfold ret. f_equal.
    destruct s; unfold with_route_links, with_next_id; simpl.
    f_equal; [by rewrite app_nil_r|lia].
  - cbn [for_each]. rewrite bind_run. unfold store_link at 1.
    rewrite bind_fresh_id. unfold write.
    match goal with
    | |- context [for_each _ rls tt ?s1] => destruct (IH s1) as (added & -> & Hi & Hg & Hk)
    end.
    exists ({| rl_id := Some (next_id s); rl_service := rl_service rl;
               rl_from_stop := rl_from_stop rl; rl_to_stop := rl_to_stop rl;
               rl_geometry := rl_geometry rl |} :: added).
    split; [|by cbn; rewrite Hi, Hg, Hk].
    f_equal. destruct s; unfold with_route_links, with_next_id; cbn.
    f_equal; [by rewrite <- app_assoc|lia].
Qed.

(** X28.  [do_route_links] works out all links before it writes one:
    when it raises, for a route or stop that is not in its dictionaries
    or a stop without position, the store is as it was before the call. *)
Theorem route_links_raise_before_writing cfg feed rs stops s s' e :
  do_route_links project substring wkt cfg feed rs stops s = (s', Raise e) →
  s' = s.
Proof.
  unfold do_route_links. destruct (feed_shapes feed) as [shapes|]; [|done].
  rewrite bind_query, bind_lift.
  destruct (link_trips _ _ _ _ _ _ _ _ _ _ _) as [links|]; [|by intros [= <-]].
  rewrite bind_write, bind_run.
  match goal with
  | |- context [for_each _ ?rls tt ?s1] => destruct (store_links_run rls s1) as (? & -> & _)
  end.
  done.
Qed.

(** X29.  When [do_route_links] returns, no route link has gone and none
    has changed its id, service or stops: the links that were stored are
    there in their places, and after them come the new links, each with
    a fresh id.  No other table has changed. *)
Theorem route_links_are_kept cfg feed rs stops s s' :
  do_route_links project substring wkt cfg feed rs stops s = (s', Ok tt) →
  (∃ kept added,
     route_links s' = kept ++ added
     ∧ map rl_id kept = map rl_id (route_links s)
     ∧ map link_ident kept = map link_ident (route_links s)
     ∧ Forall (λ rl, ∃ i, rl_id rl = Some i ∧ next_id s ≤ i < next_id s') added)
  ∧ operators s' = operators s ∧ services s' = services s ∧ routes s' = routes s
  ∧ trips s' = trips s ∧ stop_times s' = stop_times s
  ∧ stop_points s' = stop_points s ∧ admin_areas s' = admin_areas s.
Proof.
  unfold do_route_links. destruct (feed_shapes feed) as [shapes|].
  2:{ intros [= <-]. split; [|done]. exists (route_links s), [].
      rewrite app_nil_r. repeat split; constructor. }
  rewrite bind_query, bind_lift.
  destruct (link_trips _ _ _ _ _ _ _ _ _ _ _) as [links|]; [|done].
  rewrite bind_write, bind_run.
  match goal with
  | |- context [for_each _ ?rls tt ?s1] =>
      destruct (store_links_run rls s1) as (added & -> & _ & _ & Hk);
      set (new := rls) in *
  end.
  intros [= <-].
  cbn [route_links operators services routes trips stop_times stop_points admin_areas
       next_id with_route_links with_next_id] in *.
  split; [|done]. eexists _, added. split; [done|].
  destruct (update_links_idents
              (filter (λ rl, is_Some (rl_id rl)) (map snd links)) (route_links s))
    as [Hid Hident].
  split; [done|]. split; [done|].
  apply Forall_forall. intros rl Hrl.
  assert (rl_id rl ∈ map rl_id added) as Hin by (by apply list_elem_of_fmap_2).
  rewrite Hk in Hin. apply list_elem_of_fmap in Hin as (i & Hi & Hin).
  exists i. split; [done|]. clear -Hin. revert Hin.
  generalize (next_id s). induction (length new) as [|n IH]; intros z Hin.
  - by apply not_elem_of_nil in Hin.
  - cbn [keys_from] in Hin. apply elem_of_cons in Hin as [->|Hin]; [lia|].
    apply IH in Hin. lia.
Qed.

End LinkFacts.

Lemma drop_duplicates_spec seen rows :
  NoDup (map shape_id (drop_duplicates seen rows))
  ∧ sublist (drop_duplicates seen rows) rows
  ∧ (∀ t, t ∈ rows →
          shape_id t ∈ seen ∨ shape_id t ∈ map shape_id (drop_duplicates seen rows))
  ∧ (∀ t, t ∈ drop_duplicates seen rows →
          (shape_id t ∉ seen)
          ∧ ∃ before after, rows = before ++ t :: after
                            ∧ shape_id t ∉ map shape_id before).
Proof.
  revert seen. induction rows as [|x rows IH]; intros seen; simpl.
  - split; [constructor|]. split; [done|].
    split; intros t Ht; by apply not_elem_of_nil in Ht.
  - case_bool_decide as Hseen.
    + destruct (IH seen) as (Hnd & Hsub & Hcov & Hfirst).
      split; [done|]. split; [by apply sublist_cons|]. split.
      * intros t [->|Ht]%elem_of_cons; [by left|by apply Hcov].
      * intros t Ht. destruct (Hfirst t Ht) as (Hns & before & after & -> & Hb).
        split; [done|]. exists (x :: before), after. split; [done|].
        simpl. apply not_elem_of_cons. split; [congruence|done].
    + destruct (IH (shape_id x :: seen)) as (Hnd & Hsub & Hcov & Hfirst).
      split.
      { simpl. apply NoDup_cons. split; [|done].
        intros (t & Hst & Ht)%list_elem_of_fmap.
        destruct (Hfirst t Ht) as [Hns _]. apply Hns. rewrite Hst. left. }
      split; [by apply sublist_skip|]. split.
      * intros t [->|Ht]%elem_of_cons; [right; left|].
        destruct (Hcov t Ht) as [[->|Hs]%elem_of_cons|Hin].
        -- right. left.
        -- by left.
        -- right. by right.
      * intros t [->|Ht]%elem_of_cons.
        -- split; [done|]. exists [], rows. split; [done|]. apply not_elem_of_nil.
        -- destruct (Hfirst t Ht) as (Hns & before & after & -> & Hb).
           apply not_elem_of_cons in Hns as [Hne Hns].
           split; [done|]. exists (x :: before), after. split; [done|].
           simpl. apply not_elem_of_cons. split; [congruence|done].
Qed.

(** X30.  The trips that [do_route_links] works through are one trip
    for each shape of [trips.txt]: trips of the feed in feed order, no
    two with the same shape id, every shape id of the feed among them,
    and each the first trip of the feed that has its shape id. *)
Theorem one_trip_for_each_shape rows :
  NoDup (map shape_id (drop_duplicates [] rows))
  ∧ sublist (drop_duplicates [] rows) rows
  ∧ (∀ t, t ∈ rows → shape_id t ∈ map shape_id (drop_duplicates [] rows))
  ∧ (∀ t, t ∈ drop_duplicates [] rows →
          ∃ before after, rows = before ++ t :: after
                          ∧ shape_id t ∉ map shape_id before).
Proof.
  destruct (drop_duplicates_spec [] rows) as (Hnd & Hsub & Hcov & Hfirst).
  split; [done|]. split; [done|]. split.
  - intros t Ht. destruct (Hcov t Ht) as [Hin|Hin]; [by apply not_elem_of_nil in Hin|done].
  - intros t Ht. by destruct (Hfirst t Ht) as [_ ?].
Qed.

Lemma first_link_of_a_key_stays_witness :
  ∃ links mid,
    link_trips Sample.project Sample.substring Sample.wkt Sample.cfg
      Fixture.feed_with_shapes Fixture.shapes_of_feed ∅ Sample.run_with_R1.(run_routes)
      Sample.stops_on_line
      ([Fixture.shaped_trip "T1" "S1"] ++ [Fixture.shaped_trip "T2" "S2"]) []
    = Ok links
    ∧ link_trips Sample.project Sample.substring Sample.wkt Sample.cfg
        Fixture.feed_with_shapes Fixture.shapes_of_feed ∅ Sample.run_with_R1.(run_routes)
        Sample.stops_on_line [Fixture.shaped_trip "T1" "S1"] []
      = Ok mid
    ∧ length mid = 1%nat
    ∧ ∀ k rl, dict_get k mid = Some rl → dict_get k links = Some rl.
Proof.
  eexists _.
  destruct (first_link_of_a_key_stays Sample.project Sample.substring Sample.wkt Sample.cfg
              Fixture.feed_with_shapes Fixture.shapes_of_feed ∅
              Sample.run_with_R1.(run_routes) Sample.stops_on_line
              [Fixture.shaped_trip "T1" "S1"] [Fixture.shaped_trip "T2" "S2"]
              _ eq_refl)
    as (mid & Hmid & Hkeep).
  exists mid. split; [reflexivity|]. split; [exact Hmid|]. split; [|exact Hkeep].
  vm_compute in Hmid. by injection Hmid as <-.
Defined.

Lemma collected_links_by_key_witness :
  ∃ links,
    link_trips Sample.project Sample.substring Sample.wkt Sample.cfg
      Fixture.feed_with_shapes Fixture.shapes_of_feed ∅ Sample.run_with_R1.(run_routes)
      Sample.stops_on_line (drop_duplicates [] (feed_trips Fixture.feed_with_shapes)) []
    = Ok links
    ∧ NoDup (map fst links) ∧ Forall (λ kv, link_of ∅ kv.1 kv.2) links.
Proof.
  eexists _. split; [vm_compute; reflexivity|].
  eapply (collected_links_by_key Sample.project Sample.substring Sample.wkt Sample.cfg
            Fixture.feed_with_shapes Fixture.shapes_of_feed ∅
            Sample.run_with_R1.(run_routes) Sample.stops_on_line
            (drop_duplicates [] (feed_trips Fixture.feed_with_shapes))).
  vm_compute. reflexivity.
Defined.

Lemma route_links_raise_before_writing_witness :
  (do_route_links Sample.project Sample.substring Sample.wkt Sample.cfg
     Fixture.feed_with_shapes ∅ Sample.stops_on_line Fixture.timetable).2 = Raise KeyError
  ∧ (do_route_links Sample.project Sample.substring Sample.wkt Sample.cfg
       Fixture.feed_with_shapes ∅ Sample.stops_on_line Fixture.timetable).1
    = Fixture.timetable.
Proof.
  split; [vm_compute; reflexivity|].
  apply (route_links_raise_before_writing Sample.project Sample.substring Sample.wkt
           Sample.cfg Fixture.feed_with_shapes ∅ Sample.stops_on_line Fixture.timetable
           _ KeyError).
  vm_compute. reflexivity.
Defined.

Lemma route_links_are_kept_witness :
  ∃ s',
    do_route_links Sample.project Sample.substring Sample.wkt Sample.cfg
      Fixture.feed_with_shapes Sample.run_with_R1.(run_routes) Sample.stops_on_line
      Fixture.timetable = (s', Ok tt)
    ∧ (∃ kept added,
         route_links s' = kept ++ added
         ∧ map rl_id kept = map rl_id (route_links Fixture.timetable)
         ∧ map link_ident kept = map link_ident (route_links Fixture.timetable)
         ∧ Forall (λ rl, ∃ i, rl_id rl = Some i
                              ∧ next_id Fixture.timetable ≤ i < next_id s') added)
    ∧ trips s' = trips Fixture.timetable.
Proof.
  eexists _. split; [vm_compute; reflexivity|].
  edestruct (route_links_are_kept Sample.project Sample.substring Sample.wkt Sample.cfg
              Fixture.feed_with_shapes Sample.run_with_R1.(run_routes)
              Sample.stops_on_line Fixture.timetable)
    as (Hlinks & _ & _ & _ & Htrips & _); [vm_compute; reflexivity|].
  split; [exact Hlinks|exact Htrips].
Defined.
